(** * excelize: cell store, shared strings and formula evaluation

    A shallow embedding of the parts of the excelize sources that carry the
    cell/worksheet data model and the formula calculation engine, with the
    properties of the specification stated and settled against it, and with
    further properties of the embedded functions.

    Conventions of the embedding.
    - Go's [int] is modelled by [Z]. The integers computed on are row and
      column numbers, slice indexes and counters bounded by the size of the
      input, far from the 64-bit range. The group number of a shared
      formula, which is read from the file and incremented, has the
      wrap-around of the 64-bit [int] written out with [wrapInt]; the counts
      of the shared string table are taken to be far below the greatest
      [int], as the number of the items that they count is.
    - Go's [float64] is modelled by the binary64 primitive floats.
    - Go's [string] is modelled by [string], one [ascii] per byte.
    - A Go function returning [(T, error)] returns a pair whose second
      component is [option error]; a run-time panic is the [Panic] outcome
      of the [go] type. *)

From Stdlib Require Import ZArith String Ascii List Lia Bool Sorted.
From Stdlib Require Import Floats DecimalString DecimalN DecimalFacts.
From stdpp Require Import base gmap strings list.

Local Open Scope string_scope.
Local Open Scope list_scope.
Local Open Scope Z_scope.

(** ** Outcomes of Go code *)

(** Errors the embedded code creates or passes on. [ErrNew] is [errors.New]
    and [fmt.Errorf] with the final text; [ErrNum] is the [*strconv.NumError]
    of a failed [strconv.ParseFloat] on the given text; [ErrInvalidCellName]
    is the coordinate system's failure on the given reference. *)
Inductive error : Type :=
| ErrNew (text : string)
| ErrNum (num : string)
| ErrInvalidCellName (cell : string)
| ErrInvalidCoordinates (col row : Z).

(** Run-time panics the embedded code can raise. *)
Inductive panic : Type :=
| NilInterfaceConversion   (* [x.(efp.Token)] on a nil interface value *)
| IndexOutOfRange (index len : Z).

(** The least and the greatest value of Go's [int] on a 64-bit platform,
    and a mathematical integer as the [int] that arithmetic gives for it. *)
Definition minInt : Z := - 2 ^ 63.
Definition maxInt : Z := 2 ^ 63 - 1.
Definition wrapInt (z : Z) : Z := (z - minInt) mod 2 ^ 64 + minInt.

(** A call returns, panics, or has a loop of the embedding use up the rounds
    it was granted before reaching its exit. *)
Inductive go (A : Type) : Type :=
| Ret (a : A)
| Panic (p : panic)
| OutOfFuel.
Arguments Ret {A} a.
Arguments Panic {A} p.
Arguments OutOfFuel {A}.

Definition go_bind {A B : Type} (m : go A) (k : A -> go B) : go B :=
  match m with
  | Ret a => k a
  | Panic p => Panic p
  | OutOfFuel => OutOfFuel
  end.

Notation "'let*' p ':=' m 'in' k" := (go_bind m (fun p => k))
  (at level 10, p pattern, m at level 100, k at level 200).

(** ** The Go standard library functions the sources call *)
Module GoStrings.

Definition byte_of (c : ascii) : Z := Z.of_N (N_of_ascii c).

(** The double quote. *)
Definition quote : ascii := ascii_of_N 34.

Definition is_upper (c : ascii) : bool := (65 <=? byte_of c) && (byte_of c <=? 90).
Definition is_lower (c : ascii) : bool := (97 <=? byte_of c) && (byte_of c <=? 122).
Definition is_digit (c : ascii) : bool := (48 <=? byte_of c) && (byte_of c <=? 57).

(** [strings.Split(s, sep)] for a one-byte separator. *)
Fixpoint Split (s : string) (sep : ascii) : list string :=
  match s with
  | EmptyString => [EmptyString]
  | String c s' =>
      if Ascii.eqb c sep then EmptyString :: Split s' sep
      else match Split s' sep with
           | h :: t => String c h :: t
           | [] => [String c EmptyString]
           end
  end.

(** [strings.Replace(s, old, "", -1)] for a one-byte [old]. *)
Fixpoint RemoveAll (s : string) (old : ascii) : string :=
  match s with
  | EmptyString => EmptyString
  | String c s' =>
      if Ascii.eqb c old then RemoveAll s' old else String c (RemoveAll s' old)
  end.

(** [strings.Index(s, sep)] for a one-byte [sep]: the first position, or -1. *)
Fixpoint Index (s : string) (sep : ascii) : Z :=
  match s with
  | EmptyString => -1
  | String c s' =>
      if Ascii.eqb c sep then 0
      else let i := Index s' sep in if i <? 0 then -1 else i + 1
  end.

(** [strings.LastIndex(s, sep)] for a one-byte [sep]: the last position, or -1. *)
Fixpoint LastIndex (s : string) (sep : ascii) : Z :=
  match s with
  | EmptyString => -1
  | String c s' =>
      let i := LastIndex s' sep in
      if 0 <=? i then i + 1 else if Ascii.eqb c sep then 0 else -1
  end.

(** [strings.ToUpper] as it acts on ASCII text: the letters a-z become A-Z
    and every other byte stays. *)
Definition upper_byte (c : ascii) : ascii :=
  if is_lower c then ascii_of_N (Z.to_N (byte_of c - 32)) else c.

Fixpoint ToUpperASCII (s : string) : string :=
  match s with
  | EmptyString => EmptyString
  | String c s' => String (upper_byte c) (ToUpperASCII s')
  end.

(** [strconv.Itoa]. *)
Definition Itoa (n : Z) : string := NilZero.string_of_int (Z.to_int n).

End GoStrings.

(** ** Coordinate system (spec 4.1) *)
Module Coord.
Import GoStrings.

(** Modelled from the spec: the limits [TotalColumns] and [TotalRows] of
    the coordinate system are not among the sources; section 4.1 bounds
    columns and rows by the maxima of the file format, which are 16384
    columns and 1048576 rows. *)
Definition TotalColumns : Z := 16384.
Definition TotalRows : Z := 1048576.

Definition letter_value (c : ascii) : Z := byte_of c - 64.

Fixpoint letters_value (s : string) (acc : Z) : Z :=
  match s with
  | EmptyString => acc
  | String c s' => letters_value s' (acc * 26 + letter_value c)
  end.

(** The longest prefix of upper-case letters, and the rest. *)
Fixpoint span_upper (s : string) : string * string :=
  match s with
  | EmptyString => (EmptyString, EmptyString)
  | String c s' =>
      if is_upper c then let '(a, b) := span_upper s' in (String c a, b)
      else (EmptyString, s)
  end.

Fixpoint all_digits (s : string) : bool :=
  match s with
  | EmptyString => true
  | String c s' => is_digit c && all_digits s'
  end.

(** A row number [[1-9][0-9]*]. *)
Definition row_value (s : string) : option Z :=
  match s with
  | EmptyString => None
  | String c _ =>
      if Ascii.eqb c "0" || negb (all_digits s) then None
      else option_map (fun d => Z.of_N (N.of_uint d)) (NilEmpty.uint_of_string s)
  end.

(** Modelled from the spec: [CellNameToCoordinates] is not among the
    sources. Section 4.1: the reference must match [[A-Z]+[1-9][0-9]*] with
    the column at most [TotalColumns] and the row at most [TotalRows], and
    the call fails with an invalid-cell-name error otherwise. A reference
    with a [$] marker does not match. *)
Definition cell_coordinates (cell : string) : option (Z * Z) :=
  let '(letters, digits) := span_upper cell in
  match letters, row_value digits with
  | String _ _, Some row =>
      let col := letters_value letters 0 in
      if (col <=? TotalColumns) && (row <=? TotalRows) then Some (col, row) else None
  | _, _ => None
  end.

(** The coordinates that accompany an error are not fixed by the spec;
    callers that discard the error see [-1]. *)
Definition CellNameToCoordinates (cell : string) : Z * Z * option error :=
  match cell_coordinates cell with
  | Some (col, row) => (col, row, None)
  | None => (-1, -1, Some (ErrInvalidCellName cell))
  end.

Fixpoint column_name_loop (fuel : nat) (num : Z) (col : string) : string :=
  match fuel with
  | O => col
  | S fuel' =>
      if 0 <? num then
        column_name_loop fuel' ((num - 1) / 26)
          (String (ascii_of_N (Z.to_N ((num - 1) mod 26 + 65))) col)
      else col
  end.

(** Modelled from the spec: [ColumnNumberToName] is not among the sources;
    it is the column half of [coordinatesToCell] of section 4.1, the exact
    inverse of the column reading above (bijective base 26 over [A-Z]).
    Fifteen rounds of the loop exhaust every column number below 26^15. *)
Definition ColumnNumberToName (num : Z) : string * option error :=
  if (num <? 1) || (TotalColumns <? num) then
    (EmptyString, Some (ErrInvalidCoordinates num 0))
  else (column_name_loop 15 num EmptyString, None).

(** Modelled from the spec: [CoordinatesToCellName] is not among the
    sources; section 4.1 makes it the exact inverse of
    [CellNameToCoordinates] on the valid coordinates. *)
Definition CoordinatesToCellName (col row : Z) : string * option error :=
  if (col <? 1) || (row <? 1) || (TotalColumns <? col) || (TotalRows <? row) then
    (EmptyString, Some (ErrInvalidCoordinates col row))
  else (fst (ColumnNumberToName col) +:+ Itoa row, None).

(** The reference of the cell at a column and a row. *)
Definition cellName (col row : Z) : string := fst (CoordinatesToCellName col row).

Fixpoint all_upper (s : string) : bool :=
  match s with
  | EmptyString => true
  | String c s' => is_upper c && all_upper s'
  end.

(** The name of a column is a word of upper-case letters that reads back as
    the column. *)
Definition column_ok (col : Z) : bool :=
  let name := column_name_loop 15 col EmptyString in
  (0 <? String.length name)%nat && all_upper name && (letters_value name 0 =? col).

Fixpoint columns_ok_from (n : nat) (col : Z) : bool :=
  match n with
  | O => true
  | S n' => column_ok col && columns_ok_from n' (col + 1)
  end.

(** Modelled from the spec: [sortCoordinates] is not among the sources;
    section 4.1: it normalizes a 4-tuple so that x1 <= x2 and y1 <= y2. *)
Definition sortCoordinates (c : Z * Z * Z * Z) : Z * Z * Z * Z :=
  let '(x1, y1, x2, y2) := c in
  (Z.min x1 x2, Z.min y1 y2, Z.max x1 x2, Z.max y1 y2).

(** Modelled from the spec: [areaRefToCoordinates] is not among the
    sources; section 4.1: ["A1:B3"] gives [[1,1,2,3]], and the call fails
    unless the text is exactly two cell references joined by a colon. *)
Definition areaRefToCoordinates (ref : string) : option (Z * Z * Z * Z) :=
  match Split ref ":" with
  | [a; b] =>
      match cell_coordinates a, cell_coordinates b with
      | Some (x1, y1), Some (x2, y2) => Some (x1, y1, x2, y2)
      | _, _ => None
      end
  | _ => None
  end.

End Coord.

(** [for _, char := range s]: the runes of a string, decoded as the Go
    run-time does: an ill-formed byte yields U+FFFD and advances by one. *)
Module GoRunes.
Import GoStrings.

Definition RuneError : Z := 65533.
Definition continuation (b : Z) : bool := (128 <=? b) && (b <=? 191).

Fixpoint runes (s : string) : list Z :=
  match s with
  | EmptyString => []
  | String c0 s1 =>
      let b0 := byte_of c0 in
      let bad := RuneError :: runes s1 in
      if b0 <? 128 then b0 :: runes s1
      else if (b0 <? 194) || (244 <? b0) then bad
      else
        match s1 with
        | EmptyString => bad
        | String c1 s2 =>
            let b1 := byte_of c1 in
            let lo := if b0 =? 224 then 160 else if b0 =? 240 then 144 else 128 in
            let hi := if b0 =? 237 then 159 else if b0 =? 244 then 143 else 191 in
            if (b1 <? lo) || (hi <? b1) then bad
            else if b0 <? 224 then
              Z.lor (Z.shiftl (Z.land b0 31) 6) (Z.land b1 63) :: runes s2
            else
              match s2 with
              | EmptyString => bad
              | String c2 s3 =>
                  let b2 := byte_of c2 in
                  if negb (continuation b2) then bad
                  else if b0 <? 240 then
                    Z.lor (Z.shiftl (Z.land b0 15) 12)
                      (Z.lor (Z.shiftl (Z.land b1 63) 6) (Z.land b2 63)) :: runes s3
                  else
                    match s3 with
                    | EmptyString => bad
                    | String c3 s4 =>
                        let b3 := byte_of c3 in
                        if negb (continuation b3) then bad
                        else
                          Z.lor (Z.shiftl (Z.land b0 7) 18)
                            (Z.lor (Z.shiftl (Z.land b1 63) 12)
                               (Z.lor (Z.shiftl (Z.land b2 63) 6) (Z.land b3 63)))
                            :: runes s4
                    end
              end
        end
  end.

Definition rune (c : ascii) : Z := byte_of c.

End GoRunes.

(** ** Formula calculation engine (calc.go) *)
Module Calc.
Import GoStrings GoRunes Coord.

Notation "a =s b" := (String.eqb a b) (at level 70, no associativity).

(** Excel formula errors. *)
Definition formulaErrorDIV : string := "#DIV/0!".
Definition formulaErrorNAME : string := "#NAME?".
Definition formulaErrorNA : string := "#N/A".
Definition formulaErrorNUM : string := "#NUM!".
Definition formulaErrorVALUE : string := "#VALUE!".

(** [efp.Token] and the constants of the efp tokenizer the engine tests. *)
Record Token : Type := mkToken {
  TValue : string;
  TType : string;
  TSubType : string
}.

Definition TokenTypeOperand : string := "Operand".
Definition TokenTypeFunction : string := "Function".
Definition TokenTypeSubexpression : string := "Subexpression".
Definition TokenTypeArgument : string := "Argument".
Definition TokenTypeOperatorPrefix : string := "OperatorPrefix".
Definition TokenTypeOperatorInfix : string := "OperatorInfix".
Definition TokenSubTypeStart : string := "Start".
Definition TokenSubTypeStop : string := "Stop".
Definition TokenSubTypeText : string := "Text".
Definition TokenSubTypeNumber : string := "Number".
Definition TokenSubTypeRange : string := "Range".
Definition TokenSubTypeMath : string := "Math".

(** [efp.Token{}]. *)
Definition zeroToken : Token := mkToken "" "" "".

(** [efp.Token{TValue: v, TType: efp.TokenTypeOperand, TSubType: efp.TokenSubTypeNumber}]. *)
Definition numberToken (v : string) : Token :=
  mkToken v TokenTypeOperand TokenSubTypeNumber.

(** cellRef defines the structure of a cell reference. *)
Record cellRef : Type := mkCellRef { Col : Z; Row : Z; Sheet : string }.

(** cellRange defines the structure of a cell range. *)
Record cellRange : Type := mkCellRange { From : cellRef; To : cellRef }.

(** Modelled from the spec: the [Stack] type is not among the sources; the
    engine's stacks of section 4.5 are last-in first-out, and [Pop] and
    [Peek] hand back an interface value, which is nil on an empty stack.
    The top of the stack is the head of the list. *)
Definition Stack : Type := list Token.
Definition NewStack : Stack := [].
Definition Push (s : Stack) (t : Token) : Stack := t :: s.
Definition Pop (s : Stack) : option Token * Stack :=
  match s with
  | t :: s' => (Some t, s')
  | [] => (None, [])
  end.
Definition Peek (s : Stack) : option Token := head s.
Definition Len (s : Stack) : Z := Z.of_nat (length s).
Definition Empty (s : Stack) : bool := Len s =? 0.

(** The type assertion [v.(efp.Token)]. *)
Definition asToken (v : option Token) : go Token :=
  match v with
  | Some t => Ret t
  | None => Panic NilInterfaceConversion
  end.

(** getPriority calculate arithmetic operator priority. *)
Definition priority (v : string) : Z :=
  if v =s "*" then 2 else if v =s "/" then 2
  else if v =s "+" then 1 else if v =s "-" then 1 else 0.

Definition getPriority (token : Token) : Z :=
  let pri := priority (TValue token) in
  let pri := if (TValue token =s "-") && (TType token =s TokenTypeOperatorPrefix)
             then 3 else pri in
  let pri := if (TSubType token =s TokenSubTypeStart) && (TType token =s TokenTypeSubexpression)
             then 0 else pri in
  pri.

Section Engine.

(** [strconv.ParseFloat(s, 64)]: the value, or [None] when the call
    returns an error. *)
Variable ParseFloat : string -> option float.
(** [fmt.Sprintf("%g", x)]. *)
Variable FormatG : float -> string.
(** [math.Pow] and [math.Trunc]. *)
Variable mathPow : float -> float -> float.
Variable mathTrunc : float -> float.
(** [f.GetCellValue(sheet, cell)] on the workbook being calculated. *)
Variable GetCellValue : string -> string -> string * option error.
(** Rounds granted to the subtraction loop of [gcd]. *)
Variable fuel : nat.

(** One [if] block of [calculate]: the operand stack afterwards, and the
    error when the function returned from inside the block. *)
Definition block : Type := Stack -> go (Stack * option error).

Definition andThen (m : go (Stack * option error)) (k : block) : go (Stack * option error) :=
  let* (st, err) := m in
  match err with
  | Some e => Ret (st, Some e)
  | None => k st
  end.

Definition calculate_negate (opt : Token) : block := fun opdStack =>
  if (TValue opt =s "-") && (TType opt =s TokenTypeOperatorPrefix) then
    let '(v, opdStack) := Pop opdStack in
    let* opd := asToken v in
    match ParseFloat (TValue opd) with
    | None => Ret (opdStack, Some (ErrNum (TValue opd)))
    | Some opdVal =>
        let result := (0 - opdVal)%float in
        Ret (Push opdStack (numberToken (FormatG result)), None)
    end
  else Ret (opdStack, None).

(** The four binary blocks differ in their guard, in the operation, and
    in the zero test of the division. *)
Definition calculate_binary (guard : bool) (op : float -> float -> float)
    (zeroCheck : bool) : block := fun opdStack =>
  if guard then
    let '(v, opdStack) := Pop opdStack in
    let* rOpd := asToken v in
    let '(v, opdStack) := Pop opdStack in
    let* lOpd := asToken v in
    match ParseFloat (TValue lOpd) with
    | None => Ret (opdStack, Some (ErrNum (TValue lOpd)))
    | Some lOpdVal =>
        match ParseFloat (TValue rOpd) with
        | None => Ret (opdStack, Some (ErrNum (TValue rOpd)))
        | Some rOpdVal =>
            let result := op lOpdVal rOpdVal in
            if zeroCheck && PrimFloat.eqb rOpdVal 0%float then
              Ret (opdStack, Some (ErrNew formulaErrorDIV))
            else Ret (Push opdStack (numberToken (FormatG result)), None)
        end
    end
  else Ret (opdStack, None).

(** calculate evaluate basic arithmetic operations. *)
Definition calculate (opdStack : Stack) (opt : Token) : go (Stack * option error) :=
  andThen (calculate_negate opt opdStack) (fun opdStack =>
  andThen (calculate_binary (TValue opt =s "+") PrimFloat.add false opdStack) (fun opdStack =>
  andThen (calculate_binary ((TValue opt =s "-") && (TType opt =s TokenTypeOperatorInfix))
             PrimFloat.sub false opdStack) (fun opdStack =>
  andThen (calculate_binary (TValue opt =s "*") PrimFloat.mul false opdStack) (fun opdStack =>
  calculate_binary (TValue opt =s "/") PrimFloat.div true opdStack)))).

(** rangeResolver extract value as string from given reference and range
    list. The loops stop at the first error of [CoordinatesToCellName] or
    [GetCellValue]; [inl] carries on, [inr] is the early [return]. *)
Definition resolveCell (sheet : string) (col row : Z) (filter : gmap string string)
  : gmap string string * option error :=
  let '(cell, err) := CoordinatesToCellName col row in
  match err with
  | Some e => (filter, Some e)
  | None =>
      let '(v, err) := GetCellValue sheet cell in
      (<[cell := v]> filter, err)
  end.

Fixpoint resolveRows (sheet : string) (col : Z) (rows : list Z)
    (filter : gmap string string) (err : option error)
  : (gmap string string * option error) + option error :=
  match rows with
  | [] => inl (filter, err)
  | row :: rows' =>
      match resolveCell sheet col row filter with
      | (filter, Some e) => inr (Some e)
      | (filter, None) => resolveRows sheet col rows' filter None
      end
  end.

Fixpoint resolveCols (sheet : string) (cols rows : list Z)
    (filter : gmap string string) (err : option error)
  : (gmap string string * option error) + option error :=
  match cols with
  | [] => inl (filter, err)
  | col :: cols' =>
      match resolveRows sheet col rows filter err with
      | inr e => inr e
      | inl (filter, err) => resolveCols sheet cols' rows filter err
      end
  end.

Fixpoint resolveRanges (cellRanges : list cellRange)
    (filter : gmap string string) (err : option error)
  : (gmap string string * option error) + option error :=
  match cellRanges with
  | [] => inl (filter, err)
  | cr :: rest =>
      let err := if negb (Sheet (From cr) =s Sheet (To cr))
                 then Some (ErrNew formulaErrorVALUE) else err in
      let '(c0, r0, c1, r1) :=
        sortCoordinates (Col (From cr), Row (From cr), Col (To cr), Row (To cr)) in
      match resolveCols (Sheet (From cr)) (seqZ c0 (c1 - c0 + 1)) (seqZ r0 (r1 - r0 + 1))
              filter err with
      | inr e => inr e
      | inl (filter, err) => resolveRanges rest filter err
      end
  end.

Fixpoint resolveRefs (cellRefs : list cellRef)
    (filter : gmap string string) (err : option error)
  : (gmap string string * option error) + option error :=
  match cellRefs with
  | [] => inl (filter, err)
  | cr :: rest =>
      match resolveCell (Sheet cr) (Col cr) (Row cr) filter with
      | (filter, Some e) => inr (Some e)
      | (filter, None) => resolveRefs rest filter None
      end
  end.

(** The values are appended in the iteration order of the Go map, which
    the language leaves open; the embedding takes the order of
    [map_to_list]. *)
Definition rangeResolver (cellRefs : list cellRef) (cellRanges : list cellRange)
  : list string * option error :=
  match resolveRanges cellRanges ∅ None with
  | inr e => ([], e)
  | inl (filter, err) =>
      match resolveRefs cellRefs filter err with
      | inr e => ([], e)
      | inl (filter, err) => ((map_to_list filter).*2, err)
      end
  end.

(** parseReference parse reference and extract values by given reference
    characters and default sheet name. [refs] holds at most one pending
    reference: every branch that pushes one has removed the previous. *)
Fixpoint parseReferenceLoop (sheet : string) (parts : list string)
    (refs : list cellRef) (cellRanges : list cellRange) (cellRefs : list cellRef)
  : (list cellRef * list cellRange * list cellRef) + error :=
  match parts with
  | [] => inl (refs, cellRanges, cellRefs)
  | ref :: parts' =>
      let tokens := Split ref "!" in
      match tokens with
      | [t0; t1] => (* have a worksheet name *)
          match CellNameToCoordinates t1 with
          | (_, _, Some e) => inr e
          | (col, row, None) =>
              let cr := mkCellRef col row t0 in
              match List.rev refs with
              | e :: before =>
                  parseReferenceLoop sheet parts' (List.rev before ++ [cr])
                    cellRanges (cellRefs ++ [e])
              | [] => parseReferenceLoop sheet parts' (refs ++ [cr]) cellRanges cellRefs
              end
          end
      | _ =>
          match CellNameToCoordinates (List.hd "" tokens) with
          | (_, _, Some e) => inr e
          | (col, row, None) =>
              match List.rev refs with
              | [] =>
                  parseReferenceLoop sheet parts' (refs ++ [mkCellRef col row sheet])
                    cellRanges cellRefs
              | e :: before =>
                  parseReferenceLoop sheet parts' (List.rev before)
                    (cellRanges ++ [mkCellRange e (mkCellRef col row "")]) cellRefs
              end
          end
      end
  end.

Definition parseReference (sheet reference : string) : list string * option error :=
  let reference := RemoveAll reference "$" in
  match parseReferenceLoop sheet (Split reference ":") [] [] [] with
  | inr e => ([], Some e)
  | inl (refs, cellRanges, cellRefs) =>
      let cellRefs :=
        match List.rev refs with
        | e :: _ => cellRefs ++ [e]
        | [] => cellRefs
        end in
      rangeResolver cellRefs cellRanges
  end.

(** The loop [for tokenPriority <= topOptPriority] of [parseToken]:
    [topOpt] has been read from the top of [optStack], which is popped
    first in every round. *)
Fixpoint reduceOperators (tokenPriority : Z) (topOpt : Token)
    (opdStack popped : Stack) : go (Stack * Stack * option error) :=
  let* (opdStack, err) := calculate opdStack topOpt in
  match err with
  | Some e => Ret (opdStack, popped, Some e)
  | None =>
      match popped with
      | [] => Ret (opdStack, popped, None)
      | next :: popped' =>
          if tokenPriority <=? getPriority next
          then reduceOperators tokenPriority next opdStack popped'
          else Ret (opdStack, popped, None)
      end
  end.

(** The loop of [parseToken] at a closing parenthesis, up to and
    including the final [optStack.Pop()]. *)
Fixpoint reduceSubexpression (opdStack optStack : Stack)
  : go (Stack * Stack * option error) :=
  match optStack with
  | [] => Panic NilInterfaceConversion
  | topOpt :: rest =>
      if negb (TSubType topOpt =s TokenSubTypeStart)
         && negb (TType topOpt =s TokenTypeSubexpression) then
        let* (opdStack, err) := calculate opdStack topOpt in
        match err with
        | Some e => Ret (opdStack, optStack, Some e)
        | None => reduceSubexpression opdStack rest
        end
      else Ret (opdStack, rest, None)
  end.

Definition isOperator (token : Token) : bool :=
  ((TValue token =s "-") && (TType token =s TokenTypeOperatorPrefix))
  || (TValue token =s "+") || (TValue token =s "-")
  || (TValue token =s "*") || (TValue token =s "/").

(** parseToken parse basic arithmetic operator priority and evaluate based
    on operators and operands. *)
Definition parseToken (sheet : string) (token : Token) (opdStack optStack : Stack)
  : go (Stack * Stack * option error) :=
  (* parse reference: must reference at here *)
  let resolved : Token + error :=
    if TSubType token =s TokenSubTypeRange then
      match parseReference sheet (TValue token) with
      | (_, Some _) => inr (ErrNew formulaErrorNAME)
      | (result, None) =>
          match result with
          | [v] => inl (numberToken v)
          | _ => inr (ErrNew formulaErrorVALUE)
          end
      end
    else inl token in
  match resolved with
  | inr e => Ret (opdStack, optStack, Some e)
  | inl token =>
      let* (opdStack, optStack, err) :=
        (if isOperator token then
           match optStack with
           | [] => Ret (opdStack, Push optStack token, None)
           | topOpt :: popped =>
               let tokenPriority := getPriority token in
               let topOptPriority := getPriority topOpt in
               if tokenPriority >? topOptPriority then
                 Ret (opdStack, Push optStack token, None)
               else
                 let* (opdStack, optStack, err) :=
                   reduceOperators tokenPriority topOpt opdStack popped in
                 match err with
                 | Some e => Ret (opdStack, optStack, Some e)
                 | None => Ret (opdStack, Push optStack token, None)
                 end
           end
         else Ret (opdStack, optStack, None)) in
      match err with
      | Some e => Ret (opdStack, optStack, Some e)
      | None =>
          let optStack :=
            if (TType token =s TokenTypeSubexpression) && (TSubType token =s TokenSubTypeStart)
            then Push optStack token else optStack in
          let* (opdStack, optStack, err) :=
            (if (TType token =s TokenTypeSubexpression) && (TSubType token =s TokenSubTypeStop)
             then reduceSubexpression opdStack optStack
             else Ret (opdStack, optStack, None)) in
          match err with
          | Some e => Ret (opdStack, optStack, Some e)
          | None =>
              (* opd *)
              let opdStack :=
                if (TType token =s TokenTypeOperand) && (TSubType token =s TokenSubTypeNumber)
                then Push opdStack token else opdStack in
              Ret (opdStack, optStack, None)
          end
      end
  end.

(** *** Math and trigonometric functions *)

(** The value of a Roman digit in the [switch] of [ARABIC]; [None] is
    the minus sign, which only sets the prefix. *)
Definition arabicDigit (char : Z) : option float :=
  if char =? rune "-" then None
  else if char =? rune "I" then Some 1%float
  else if char =? rune "V" then Some 5%float
  else if char =? rune "X" then Some 10%float
  else if char =? rune "L" then Some 50%float
  else if char =? rune "C" then Some 100%float
  else if char =? rune "D" then Some 500%float
  else if char =? rune "M" then Some 1000%float
  else Some 0%float.

(** The loop of [ARABIC] over the runes of its text: [None] is the
    return of [formulaErrorVALUE] from inside the loop, [Some] the values
    of [val] and [prefix] at its end. *)
Fixpoint arabicLoop (chars : list Z) (val last prefix : float) : option (float * float) :=
  match chars with
  | [] => Some (val, prefix)
  | char :: chars' =>
      match arabicDigit char with
      | None => arabicLoop chars' val last (-1)%float
      | Some digit =>
          let val := (val + digit)%float in
          if PrimFloat.eqb last digit
             && (PrimFloat.eqb last 5 || PrimFloat.eqb last 50 || PrimFloat.eqb last 500)
          then None
          else if PrimFloat.eqb (2 * last)%float digit then None
          else
            let val := if PrimFloat.ltb last digit then (val - 2 * last)%float else val in
            arabicLoop chars' val digit prefix
      end
  end.

(** ARABIC function converts a Roman numeral into an Arabic numeral. *)
Definition ARABIC (argsList : list Token) : go (string * option error) :=
  match argsList with
  | [arg] =>
      match arabicLoop (runes (TValue arg)) 0%float 0%float 1%float with
      | None => Ret (formulaErrorVALUE, None)
      | Some (val, prefix) => Ret (FormatG (prefix * val)%float, None)
      end
  | _ => Ret ("", Some (ErrNew "ARABIC requires 1 numeric arguments"))
  end.

(** The loop [for x != y] of [gcd]. *)
Fixpoint gcdLoop (rounds : nat) (x y : float) : option float :=
  if PrimFloat.eqb x y then Some x
  else
    match rounds with
    | O => None
    | S rounds' =>
        if PrimFloat.ltb y x then gcdLoop rounds' (x - y)%float y
        else gcdLoop rounds' x (y - x)%float
    end.

(** gcd returns the greatest common divisor of two supplied integers. *)
Definition gcd (x y : float) : go float :=
  let x := mathTrunc x in
  let y := mathTrunc y in
  if PrimFloat.eqb x 0 then Ret y
  else if PrimFloat.eqb y 0 then Ret x
  else match gcdLoop fuel x y with
       | Some r => Ret r
       | None => OutOfFuel
       end.

(** lcm returns the least common multiple of two supplied integers. *)
Definition lcm (a b : float) : go float :=
  let a := mathTrunc a in
  let b := mathTrunc b in
  if PrimFloat.eqb a 0 && PrimFloat.eqb b 0 then Ret 0%float
  else let* g := gcd a b in Ret (a * b / g)%float.

(** The first loop of [GCD] and [LCM]: the parsed values of the
    arguments whose text is not empty, or the first parse error. *)
Fixpoint parseNums (args : list Token) (nums : list float) : list float + error :=
  match args with
  | [] => inl nums
  | token :: args' =>
      if TValue token =s "" then parseNums args' nums
      else match ParseFloat (TValue token) with
           | None => inr (ErrNum (TValue token))
           | Some val => parseNums args' (nums ++ [val])
           end
  end.

(** The second loop of [GCD] and [LCM], over [nums[1:]]. *)
Fixpoint foldNums (op : float -> float -> go float) (message : string)
    (acc : float) (rest : list float) : go (float + error) :=
  match rest with
  | [] => Ret (inl acc)
  | n :: rest' =>
      if PrimFloat.ltb n 0 then Ret (inr (ErrNew message))
      else let* acc := op acc n in foldNums op message acc rest'
  end.

Definition gcdLike (name : string) (op : float -> float -> go float)
    (argsList : list Token) : go (string * option error) :=
  if Z.of_nat (length argsList) =? 0 then
    Ret ("", Some (ErrNew (name +:+ " requires at least 1 argument")))
  else
    match parseNums argsList [] with
    | inr e => Ret ("", Some e)
    | inl nums =>
        match nums with
        | [] => Panic (IndexOutOfRange 0 0)   (* nums[0] *)
        | n0 :: rest =>
            if PrimFloat.ltb n0 0 then
              Ret ("", Some (ErrNew (name +:+ " only accepts positive arguments")))
            else if Z.of_nat (length nums) =? 1 then Ret (FormatG n0, None)
            else
              let* r := foldNums op (name +:+ " only accepts positive arguments") n0 rest in
              match r with
              | inr e => Ret ("", Some e)
              | inl acc => Ret (FormatG acc, None)
              end
        end
    end.

(** GCD function returns the greatest common divisor of two or more
    supplied integers. *)
Definition GCD : list Token -> go (string * option error) := gcdLike "GCD" gcd.

(** LCM function returns the least common multiple of two or more
    supplied integers. *)
Definition LCM : list Token -> go (string * option error) := gcdLike "LCM" lcm.

(** POWER function calculates a given number, raised to a supplied power. *)
Definition POWER (argsList : list Token) : go (string * option error) :=
  match argsList with
  | [front; back] =>
      match ParseFloat (TValue front) with
      | None => Ret ("", Some (ErrNum (TValue front)))
      | Some x =>
          match ParseFloat (TValue back) with
          | None => Ret ("", Some (ErrNum (TValue back)))
          | Some y =>
              if PrimFloat.eqb x 0 && PrimFloat.eqb y 0 then
                Ret ("", Some (ErrNew formulaErrorNUM))
              else if PrimFloat.eqb x 0 && PrimFloat.ltb y 0 then
                Ret ("", Some (ErrNew formulaErrorDIV))
              else Ret (FormatG (mathPow x y), None)
          end
      end
  | _ => Ret ("", Some (ErrNew "POWER requires 2 numeric arguments"))
  end.

(** SQRT function calculates the positive square root of a supplied
    number. *)
Definition SQRT (argsList : list Token) : go (string * option error) :=
  match argsList with
  | [arg] =>
      match ParseFloat (TValue arg) with
      | None => Ret ("", Some (ErrNum (TValue arg)))
      | Some val =>
          if PrimFloat.ltb val 0 then Ret ("", Some (ErrNew formulaErrorNUM))
          else Ret (FormatG (PrimFloat.sqrt val), None)
      end
  | _ => Ret ("", Some (ErrNew "SQRT requires 1 numeric arguments"))
  end.

(** *** Calling a function by name *)

(** The methods of [formulaFuncs] that are not embedded above. *)
Variable otherFuncs : string -> option (list Token -> go (string * option error)).

Definition formulaFuncs (name : string)
  : option (list Token -> go (string * option error)) :=
  if name =s "ARABIC" then Some ARABIC
  else if name =s "GCD" then Some GCD
  else if name =s "LCM" then Some LCM
  else if name =s "POWER" then Some POWER
  else if name =s "SQRT" then Some SQRT
  else otherFuncs name.

(** callFuncByName calls the no error or only error return function with
    reflect by given receiver, name and parameters. *)
Definition callFuncByName (name : string) (params : list Token)
  : go (string * option error) :=
  match formulaFuncs name with
  | Some function =>
      let* (result, err) := function params in
      match err with
      | Some e => Ret ("", Some e)
      | None => Ret (result, None)
      end
  | None => Ret ("", Some (ErrNew ("not support " +:+ name +:+ " function")))
  end.

(** [strings.NewReplacer("_xlfn", "", ".", "").Replace]. *)
Fixpoint stripName (s : string) : string :=
  match s with
  | String "_" (String "x" (String "l" (String "f" (String "n" rest)))) => stripName rest
  | String "." rest => stripName rest
  | String c rest => String c (stripName rest)
  | EmptyString => EmptyString
  end.

(** *** The evaluator *)

(** The five stacks and the argument list of [evalInfixExp]. *)
Record stacks : Type := mkStacks {
  opdStack : Stack;
  optStack : Stack;
  opfStack : Stack;
  opfdStack : Stack;
  opftStack : Stack;
  argsList : list Token
}.

(** [for !optStack.Empty() { topOpt := Peek; calculate; Pop }]. *)
Fixpoint drain (opd opt : Stack) : go (Stack * Stack * option error) :=
  match opt with
  | [] => Ret (opd, opt, None)
  | topOpt :: rest =>
      let* (opd, err) := calculate opd topOpt in
      match err with
      | Some e => Ret (opd, opt, Some e)
      | None => drain opd rest
      end
  end.

(** One round of the loop of [evalInfixExp]; [inr] is a [return] from
    inside the loop, with the token and the error returned. *)
Definition round : Type := go (stacks + (Token * error)).

Definition next (st : stacks) : round := Ret (inl st).
Definition leave (t : Token) (e : error) : round := Ret (inr (t, e)).

(** From [// check current token is opft] to the end of the round. *)
Definition evalInFunction (sheet : string) (token : Token) (st : stacks) : round :=
  let* (opfd, opft, err) := parseToken sheet token (opfdStack st) (opftStack st) in
  match err with
  | Some e => leave zeroToken e
  | None =>
      let st := mkStacks (opdStack st) (optStack st) (opfStack st) opfd opft (argsList st) in
      if TType token =s TokenTypeArgument then
        (* current token is arg *)
        let* (opfd, opft, err) := drain (opfdStack st) (opftStack st) in
        match err with
        | Some e => leave zeroToken e
        | None =>
            match opfd with
            | top :: opfd' =>
                next (mkStacks (opdStack st) (optStack st) (opfStack st) opfd' opft
                        (argsList st ++ [top]))
            | [] =>
                next (mkStacks (opdStack st) (optStack st) (opfStack st) opfd opft
                        (argsList st))
            end
        end
      else
        (* current token is text *)
        let args :=
          if (TType token =s TokenTypeOperand) && (TSubType token =s TokenSubTypeText)
          then argsList st ++ [token] else argsList st in
        (* current token is function stop *)
        if (TType token =s TokenTypeFunction) && (TSubType token =s TokenSubTypeStop) then
          let* (opfd, opft, err) := drain (opfdStack st) (opftStack st) in
          match err with
          | Some e => leave zeroToken e
          | None =>
              (* push opfd to args *)
              let '(opfd, args) :=
                match opfd with
                | top :: opfd' => (opfd', args ++ [top])
                | [] => (opfd, args)
                end in
              (* call formula function to evaluate *)
              let* fn := asToken (Peek (opfStack st)) in
              let* (result, err) := callFuncByName (stripName (TValue fn)) args in
              match err with
              | Some e => leave zeroToken e
              | None =>
                  let opf := snd (Pop (opfStack st)) in
                  if 0 <? Len opf then (* still in function stack *)
                    next (mkStacks (opdStack st) (optStack st) opf
                            (Push opfd (numberToken result)) opft [])
                  else
                    next (mkStacks (Push (opdStack st) (numberToken result)) (optStack st) opf
                            opfd opft [])
              end
          end
        else
          next (mkStacks (opdStack st) (optStack st) (opfStack st)
                  (opfdStack st) (opftStack st) args)
  end.

Definition evalRound (sheet : string) (token nextToken : Token) (st : stacks) : round :=
  (* out of function stack *)
  let* r :=
    (if Len (opfStack st) =? 0 then
       let* (opd, opt, err) := parseToken sheet token (opdStack st) (optStack st) in
       match err with
       | Some e => leave zeroToken e
       | None =>
           next (mkStacks opd opt (opfStack st) (opfdStack st) (opftStack st) (argsList st))
       end
     else next st) in
  match r with
  | inr out => Ret (inr out)
  | inl st =>
      (* function start *)
      if (TType token =s TokenTypeFunction) && (TSubType token =s TokenSubTypeStart) then
        next (mkStacks (opdStack st) (optStack st) (Push (opfStack st) token)
                (opfdStack st) (opftStack st) (argsList st))
      (* in function stack, walk 2 token at once *)
      else if 0 <? Len (opfStack st) then
        if (TSubType token =s TokenSubTypeRange) && negb (Empty (opftStack st)) then
          (* parse reference: must reference at here *)
          match parseReference sheet (TValue token) with
          | (_, Some e) => leave (mkToken formulaErrorNAME "" "") e
          | ([v], None) =>
              next (mkStacks (opdStack st) (optStack st) (opfStack st)
                      (Push (opfdStack st) (numberToken v)) (opftStack st) (argsList st))
          | (_, None) => leave zeroToken (ErrNew formulaErrorVALUE)
          end
        else if (TSubType token =s TokenSubTypeRange)
                && ((TType nextToken =s TokenTypeArgument)
                    || (TType nextToken =s TokenTypeFunction)) then
          (* parse reference: reference or range at here *)
          match parseReference sheet (TValue token) with
          | (_, Some e) => leave (mkToken formulaErrorNAME "" "") e
          | (result, None) =>
              if Z.of_nat (length result) =? 0 then leave zeroToken (ErrNew formulaErrorVALUE)
              else
                next (mkStacks (opdStack st) (optStack st) (opfStack st)
                        (opfdStack st) (opftStack st)
                        (argsList st ++ List.map numberToken result))
          end
        else evalInFunction sheet token st
      else next st
  end.

Fixpoint evalLoop (sheet : string) (tokens : list Token) (st : stacks) : round :=
  match tokens with
  | [] => next st
  | token :: rest =>
      let* r := evalRound sheet token (List.hd zeroToken rest) st in
      match r with
      | inr out => Ret (inr out)
      | inl st => evalLoop sheet rest st
      end
  end.

(** evalInfixExp evaluate syntax analysis by given infix expression after
    lexical analysis. *)
Definition evalInfixExp (sheet : string) (tokens : list Token)
  : go (Token * option error) :=
  let* r := evalLoop sheet tokens (mkStacks NewStack NewStack NewStack NewStack NewStack []) in
  match r with
  | inr (t, e) => Ret (t, Some e)
  | inl st =>
      let* (opd, opt, err) := drain (opdStack st) (optStack st) in
      match err with
      | Some e => Ret (zeroToken, Some e)
      | None => let* t := asToken (Peek opd) in Ret (t, None)
      end
  end.

(** [evalInfixExp] from given stacks: the rest of the loop over [tokens],
    and what follows the loop. *)
Definition evalFrom (sheet : string) (tokens : list Token) (st : stacks)
  : go (Token * option error) :=
  let* r := evalLoop sheet tokens st in
  match r with
  | inr (t, e) => Ret (t, Some e)
  | inl st =>
      let* (opd, opt, err) := drain (opdStack st) (optStack st) in
      match err with
      | Some e => Ret (zeroToken, Some e)
      | None => let* t := asToken (Peek opd) in Ret (t, None)
      end
  end.

End Engine.

(** Tokens as the tokenizer emits them. *)
Definition num (v : string) : Token := mkToken v TokenTypeOperand TokenSubTypeNumber.
Definition infix (v : string) : Token := mkToken v TokenTypeOperatorInfix TokenSubTypeMath.
Definition prefix (v : string) : Token := mkToken v TokenTypeOperatorPrefix "".
Definition funcStart (name : string) : Token := mkToken name TokenTypeFunction TokenSubTypeStart.
Definition funcStop : Token := mkToken "" TokenTypeFunction TokenSubTypeStop.
Definition parenOpen : Token := mkToken "" TokenTypeSubexpression TokenSubTypeStart.
Definition parenClose : Token := mkToken "" TokenTypeSubexpression TokenSubTypeStop.

(** *** Expressions without parentheses, by precedence

    The value that the precedence table of section 4.5 gives to an
    expression of operands, prefix minus signs and the operators [+ - * /]:
    a minus sign before an operand is applied first, then the products and
    quotients from left to right, then the sums and differences from left to
    right. The operands are parsed when an operator is applied to them, a
    parse failure is propagated, and a division by zero is the error
    [#DIV/0!]. *)
Section Precedence.

Variable ParseFloat : string -> option float.
Variable FormatG : float -> string.

(** [l op r] for an operator [op] among [+ - * /]. *)
Definition applyOperator (op l r : string) : string + error :=
  match ParseFloat l with
  | None => inr (ErrNum l)
  | Some x =>
      match ParseFloat r with
      | None => inr (ErrNum r)
      | Some y =>
          if op =s "+" then inl (FormatG (x + y)%float)
          else if op =s "-" then inl (FormatG (x - y)%float)
          else if op =s "*" then inl (FormatG (x * y)%float)
          else if PrimFloat.eqb y 0 then inr (ErrNew formulaErrorDIV)
          else inl (FormatG (x / y)%float)
      end
  end.

(** An operand: its text, and whether a minus sign stands before it. *)
Definition operand : Type := (bool * string)%type.

Definition operandValue (o : operand) : string + error :=
  let '(negated, v) := o in
  if negated then
    match ParseFloat v with
    | None => inr (ErrNum v)
    | Some x => inl (FormatG (0 - x)%float)
    end
  else inl v.

(** A product: a first operand, and operators [*] or [/] with an operand
    each. *)
Definition product : Type := (operand * list (string * operand))%type.

Fixpoint factorsValue (acc : string) (factors : list (string * operand)) : string + error :=
  match factors with
  | [] => inl acc
  | (op, o) :: rest =>
      match operandValue o with
      | inr e => inr e
      | inl v =>
          match applyOperator op acc v with
          | inr e => inr e
          | inl acc => factorsValue acc rest
          end
      end
  end.

Definition productValue (p : product) : string + error :=
  match operandValue (fst p) with
  | inr e => inr e
  | inl v => factorsValue v (snd p)
  end.

(** A sum of products: a first product, and operators [+] or [-] with a
    product each. *)
Definition flatExp : Type := (product * list (string * product))%type.

Fixpoint termsValue (acc : string) (terms : list (string * product)) : string + error :=
  match terms with
  | [] => inl acc
  | (op, p) :: rest =>
      match productValue p with
      | inr e => inr e
      | inl t =>
          match applyOperator op acc t with
          | inr e => inr e
          | inl acc => termsValue acc rest
          end
      end
  end.

Definition flatValue (e : flatExp) : string + error :=
  match productValue (fst e) with
  | inr e => inr e
  | inl acc => termsValue acc (snd e)
  end.

End Precedence.

(** The tokens of such an expression, as the tokenizer gives them. *)
Definition operandTokens (o : operand) : list Token :=
  let '(negated, v) := o in if negated then [prefix "-"; num v] else [num v].

Definition factorsTokens (factors : list (string * operand)) : list Token :=
  List.flat_map (fun '(op, o) => infix op :: operandTokens o) factors.

Definition productTokens (p : product) : list Token :=
  operandTokens (fst p) ++ factorsTokens (snd p).

Definition termsTokens (terms : list (string * product)) : list Token :=
  List.flat_map (fun '(op, p) => infix op :: productTokens p) terms.

Definition flatTokens (e : flatExp) : list Token :=
  productTokens (fst e) ++ termsTokens (snd e).

(** The text of an operand is not the text of an operator; the operators of
    a product are [*] and [/], those between products [+] and [-]. *)
Definition operandText (o : operand) : Prop := isOperator (num (snd o)) = false.

Definition wellFormedProduct (p : product) : Prop :=
  operandText (fst p)
  /\ Forall (fun '(op, o) => (op = "*" \/ op = "/") /\ operandText o) (snd p).

Definition wellFormedFlat (e : flatExp) : Prop :=
  wellFormedProduct (fst e)
  /\ Forall (fun '(op, p) => (op = "+" \/ op = "-") /\ wellFormedProduct p) (snd e).

(** An operator among [+ - * /]. *)
Definition binaryText (op : string) : Prop := op = "+" \/ op = "-" \/ op = "*" \/ op = "/".

(** The tokens that follow are none, or start with one of the operators
    [+ - * /] of priority [pri] at most. *)
Definition yields (pri : Z) (toks : list Token) : Prop :=
  match toks with
  | [] => True
  | token :: _ => exists op, token = infix op /\ binaryText op /\ getPriority token <= pri
  end.

(** The operator stack is empty, or its top has a priority below [pri]. *)
Definition topBelow (pri : Z) (opt : Stack) : Prop :=
  match opt with
  | [] => True
  | topOpt :: _ => getPriority topOpt < pri
  end.

(** A token at which the loop of [parseToken] at a closing parenthesis
    stops, and one at which it goes on. *)
Definition isMarker (t : Token) : Prop :=
  (TSubType t =s TokenSubTypeStart) = true \/ (TType t =s TokenTypeSubexpression) = true.
Definition notMarker (t : Token) : Prop :=
  (TSubType t =s TokenSubTypeStart) = false /\ (TType t =s TokenTypeSubexpression) = false.

(** Two neighbouring runes of a Roman numeral: a digit of value 5, 50 or 500
    followed by itself, and a digit followed by the digit of twice its
    value. *)
Definition repeatsFive (c1 c2 : Z) : Prop :=
  c2 = c1 /\ (c1 = rune "V" \/ c1 = rune "L" \/ c1 = rune "D").
Definition doubles (c1 c2 : Z) : Prop :=
  (c1 = rune "V" /\ c2 = rune "X") \/ (c1 = rune "L" /\ c2 = rune "C")
  \/ (c1 = rune "D" /\ c2 = rune "M").

(** The two tests of [ARABIC] on the previous and the current digit. *)
Definition arabicInvalid (last digit : float) : bool :=
  PrimFloat.eqb last digit
  && (PrimFloat.eqb last 5 || PrimFloat.eqb last 50 || PrimFloat.eqb last 500)
  || PrimFloat.eqb (2 * last)%float digit.

(** Coordinates within the limits of the sheet. *)
Definition validCoordinates (col row : Z) : Prop :=
  1 <= col <= TotalColumns /\ 1 <= row <= TotalRows.

End Calc.

(** ** Worksheet store, shared strings and cell access *)
Module Workbook.
Import GoStrings Coord.

Notation "a =s b" := (String.eqb a b) (at level 70, no associativity).

(** STCellFormulaTypeShared defined the formula is part of a shared formula. *)
Definition STCellFormulaTypeShared : string := "shared".

(** The XML structures, with the fields the embedded functions read or
    write: [xlsxF] is the formula of a cell, [xlsxC] a cell, [xlsxRow] a
    row, [xlsxWorksheet] a worksheet. A nil pointer is [None]. *)
Record xlsxF : Type := mkF {
  F_Content : string;
  F_T : string;
  F_Ref : string;
  F_Si : option Z
}.

Record xlsxC : Type := mkC {
  C_R : string;
  C_S : Z;
  C_T : string;
  C_V : string;
  C_F : option xlsxF
}.

Record xlsxRow : Type := mkRow {
  Row_R : Z;
  Row_C : list xlsxC
}.

Record xlsxWorksheet : Type := mkWorksheet {
  SheetData : list xlsxRow;
  MergeCells : option (list (option string))   (* the Ref of each merged cell *)
}.

(** [xlsxC{R: name}] and [xlsxRow{R: r}]. *)
Definition blankCell (name : string) : xlsxC := mkC name 0 "" "" None.
Definition blankRow (r : Z) : xlsxRow := mkRow r [].

(** [xlsxSI] holds a plain text [T] (with the [xml:space] attribute when it
    is to be preserved) or, for rich text, no [T]. *)
Record xlsxT : Type := mkT { T_Val : string; T_Space : bool }.
Record xlsxSI : Type := mkSI { SI_T : option xlsxT }.
Record xlsxSST : Type := mkSST {
  Count : Z;
  UniqueCount : Z;
  SI : list xlsxSI
}.

(** File define a populated spreadsheet file struct. [XLSX] is the package
    store: the bytes of each part. *)
Record File : Type := mkFile {
  checked : gmap string bool;
  sheetMap : gmap string string;
  Sheet : gmap string xlsxWorksheet;
  XLSX : gmap string string;
  SharedStrings : option xlsxSST;
  sharedStringsMap : gmap string Z
}.

(** *** checkSheet *)

(** [existsRows[xlsx.SheetData.Row[k].R] = k] for every [k], in order. *)
Fixpoint indexRows (rows : list xlsxRow) (k : nat) (existsRows : gmap Z nat) : gmap Z nat :=
  match rows with
  | [] => existsRows
  | r :: rows' => indexRows rows' (S k) (<[Row_R r := k]> existsRows)
  end.

(** checkSheet provides a function to fill each row element and make that
    is continuous in a worksheet of XML. *)
Definition checkSheet (xlsx : xlsxWorksheet) : xlsxWorksheet :=
  let rows := SheetData xlsx in
  let row := Z.of_nat (length rows) in
  let row :=
    if 1 <=? row then
      let lastRow := Row_R (List.last rows (blankRow 0)) in
      if row <=? lastRow then lastRow else row
    else row in
  let existsRows := indexRows rows 0 ∅ in
  let sheetData :=
    List.map (fun i =>
      match existsRows !! (i + 1) with
      | Some k => List.nth k rows (blankRow (i + 1))
      | None => blankRow (i + 1)
      end) (seqZ 0 row) in
  mkWorksheet sheetData (MergeCells xlsx).

(** *** checkRow *)

(** The loop that fills the cells without [r] attribute: the cells as
    updated so far, and the error that stopped it. *)
Fixpoint fillReferences (rowIdx : Z) (cells : list xlsxC) (rCount : Z)
  : list xlsxC * option error :=
  match cells with
  | [] => ([], None)
  | cell :: rest =>
      let rCount := rCount + 1 in
      if negb (C_R cell =s "") then
        match CellNameToCoordinates (C_R cell) with
        | (_, _, Some e) => (cells, Some e)
        | (lastR, _, None) =>
            let rCount := if rCount <? lastR then lastR else rCount in
            let '(rest, err) := fillReferences rowIdx rest rCount in
            (cell :: rest, err)
        end
      else
        let name := fst (CoordinatesToCellName rCount (rowIdx + 1)) in
        let '(rest, err) := fillReferences rowIdx rest rCount in
        (mkC name (C_S cell) (C_T cell) (C_V cell) (C_F cell) :: rest, err)
  end.

(** [newlist]: a blank cell for each column up to [lastCol]. *)
Fixpoint blankCells (rowIdx : Z) (cols : list Z) : list xlsxC + error :=
  match cols with
  | [] => inl []
  | colIdx :: cols' =>
      match CoordinatesToCellName (colIdx + 1) (rowIdx + 1) with
      | (_, Some e) => inr e
      | (cellName, None) =>
          match blankCells rowIdx cols' with
          | inr e => inr e
          | inl l => inl (blankCell cellName :: l)
          end
      end
  end.

(** The loop that copies the cells of [oldList] to their columns. *)
Fixpoint placeCells (oldList : list xlsxC) (cells : list xlsxC)
  : go (list xlsxC * option error) :=
  match oldList with
  | [] => Ret (cells, None)
  | colData :: rest =>
      match CellNameToCoordinates (C_R colData) with
      | (_, _, Some e) => Ret (cells, Some e)
      | (colNum, _, None) =>
          if (colNum - 1 <? 0) || (Z.of_nat (length cells) <=? colNum - 1) then
            Panic (IndexOutOfRange (colNum - 1) (Z.of_nat (length cells)))
          else placeCells rest (<[Z.to_nat (colNum - 1) := colData]> cells)
      end
  end.

(** The body of the loop of [checkRow] for the row at [rowIdx]. *)
Definition checkRowData (rowIdx : Z) (rowData : xlsxRow) : go (xlsxRow * option error) :=
  let colCount := Z.of_nat (length (Row_C rowData)) in
  if colCount =? 0 then Ret (rowData, None)
  else
    (* check and fill the cell without r attribute in a row element *)
    let '(cells, err) := fillReferences rowIdx (Row_C rowData) 0 in
    match err with
    | Some e => Ret (mkRow (Row_R rowData) cells, Some e)
    | None =>
        match CellNameToCoordinates (C_R (List.last cells (blankCell ""))) with
        | (_, _, Some e) => Ret (mkRow (Row_R rowData) cells, Some e)
        | (lastCol, _, None) =>
            if colCount <? lastCol then
              match blankCells rowIdx (seqZ 0 lastCol) with
              | inr e => Ret (mkRow (Row_R rowData) [], Some e)
              | inl newlist =>
                  let* (newlist, err) := placeCells cells newlist in
                  Ret (mkRow (Row_R rowData) newlist, err)
              end
            else Ret (mkRow (Row_R rowData) cells, None)
        end
    end.

Fixpoint checkRows (rowIdx : Z) (rows : list xlsxRow) : go (list xlsxRow * option error) :=
  match rows with
  | [] => Ret ([], None)
  | rowData :: rest =>
      let* (rowData, err) := checkRowData rowIdx rowData in
      match err with
      | Some e => Ret (rowData :: rest, Some e)
      | None =>
          let* (rest, err) := checkRows (rowIdx + 1) rest in
          Ret (rowData :: rest, err)
      end
  end.

(** checkRow provides a function to check and fill each column element for
    all rows and make that is continuous in a worksheet of XML. The
    worksheet is updated in place, so it is returned beside the error. *)
Definition checkRow (ws : xlsxWorksheet) : go (xlsxWorksheet * option error) :=
  let* (rows, err) := checkRows 0 (SheetData ws) in
  Ret (mkWorksheet rows (MergeCells ws), err).

(** *** Loading a worksheet *)
Section Store.

(** [strings.ToUpper]. *)
Variable ToUpper : string -> string.
(** [trimSheetName], and the decoding of a worksheet part:
    [xml.Unmarshal(namespaceStrictToTransitional(f.readXML(name)), &xlsx)]
    as a function of the bytes stored for the part ([None] when the
    package has no such part). *)
Variable trimSheetName : string -> string.
Variable unmarshalWorksheet : option string -> xlsxWorksheet.
(** The decoding of [xl/sharedStrings.xml], likewise. *)
Variable unmarshalSST : option string -> xlsxSST.
(** [bstrMarshal], the escaping applied to a string cell value. *)
Variable bstrMarshal : string -> string.
(** [c.getValueFrom(f, f.sharedStringsReader(), raw)]: the formatted
    value of a stored cell. *)
Variable getValueFrom : File -> xlsxC -> string * option error.

(** workSheetReader provides a function to get the pointer to the
    structure after deserialization by given worksheet name. The error
    of [checkRow] is dropped by the call, its panic is not. *)
Definition workSheetReader (f : File) (sheet : string)
  : go (File * option xlsxWorksheet * option error) :=
  match sheetMap f !! trimSheetName sheet with
  | None => Ret (f, None, Some (ErrNew ("sheet " +:+ sheet +:+ " is not exist")))
  | Some name =>
      match Sheet f !! name with
      | Some ws => Ret (f, Some ws, None)
      | None =>
          let xlsx := unmarshalWorksheet (XLSX f !! name) in
          let ok := default false (checked f !! name) in
          let* (xlsx, checked') :=
            (if negb ok then
               let xlsx := checkSheet xlsx in
               let* (xlsx, _) := checkRow xlsx in
               Ret (xlsx, <[name := true]> (checked f))
             else Ret (xlsx, checked f)) in
          let f := mkFile checked' (sheetMap f) (<[name := xlsx]> (Sheet f)) (XLSX f)
                     (SharedStrings f) (sharedStringsMap f) in
          Ret (f, Some xlsx, None)
      end
  end.

(** *** Shared string table *)

(** Modelled from the spec: the constant [TotalCellChars] is not among
    the sources; section 6 gives the limit of 32767 characters per string
    cell. *)
Definition TotalCellChars : Z := 32767.

Fixpoint truncate (n : nat) (s : string) : string :=
  match n, s with
  | O, _ => EmptyString
  | S n', String c s' => String c (truncate n' s')
  | S _, EmptyString => EmptyString
  end.

Fixpoint lastByte (c : ascii) (s : string) : ascii :=
  match s with
  | EmptyString => c
  | String d s' => lastByte d s'
  end.

Definition isSpace (c : ascii) : bool :=
  let b := byte_of c in (b =? 9) || (b =? 10) || (b =? 13) || (b =? 32).

(** setCellStr provides a function to set string type to cell: the type,
    the value, and whether the [xml:space="preserve"] attribute is set. *)
Definition setCellStr (value : string) : string * string * bool :=
  let value :=
    if TotalCellChars <? Z.of_nat (String.length value)
    then truncate (Z.to_nat TotalCellChars) value
    else value in
  let ns :=
    match value with
    | EmptyString => false
    | String prefix rest => isSpace prefix || isSpace (lastByte prefix rest)
    end in
  ("str", bstrMarshal value, ns).

(** [for i := range sharedStrings.SI]: index the plain items. *)
Fixpoint indexStrings (items : list xlsxSI) (i : Z) (m : gmap string Z) : gmap string Z :=
  match items with
  | [] => m
  | si :: items' =>
      indexStrings items' (i + 1)
        match SI_T si with
        | Some t => <[T_Val t := i]> m
        | None => m
        end
  end.

(** sharedStringsReader provides a function to get the pointer to the
    structure after deserialization of xl/sharedStrings.xml. The entries it
    adds to the content types and to the workbook relationships are parts of
    the package that no function embedded here reads; they are left out. *)
Definition sharedStringsReader (f : File) : File * xlsxSST :=
  match SharedStrings f with
  | Some sst => (f, sst)
  | None =>
      let sharedStrings := unmarshalSST (XLSX f !! "xl/sharedStrings.xml") in
      let sharedStrings :=
        if UniqueCount sharedStrings =? 0
        then mkSST (Count sharedStrings) (Count sharedStrings) (SI sharedStrings)
        else sharedStrings in
      (mkFile (checked f) (sheetMap f) (Sheet f) (XLSX f) (Some sharedStrings)
         (indexStrings (SI sharedStrings) 0 (sharedStringsMap f)),
       sharedStrings)
  end.

(** setSharedString provides a function to add string to the share string
    table. The table is read with no temporary file pending, where
    [sharedStringsLoader] returns at once. *)
Definition setSharedString (f : File) (val : string) : File * (Z * option error) :=
  let '(f, sst) := sharedStringsReader f in
  match sharedStringsMap f !! val with
  | Some i => (f, (i, None))
  | None =>
      let sst := mkSST (Count sst + 1) (UniqueCount sst + 1) (SI sst) in
      let '(_, val', space) := setCellStr val in
      let t := mkT val space in
      let sst := mkSST (Count sst) (UniqueCount sst) (SI sst ++ [mkSI (Some t)]) in
      (mkFile (checked f) (sheetMap f) (Sheet f) (XLSX f) (Some sst)
         (<[val' := UniqueCount sst - 1]> (sharedStringsMap f)),
       (UniqueCount sst - 1, None))
  end.

(** *** Reading a cell *)

(** cellInRef provides a function to determine if a given range is within
    an range. *)
Definition cellInRef (cell : Z * Z) (ref : Z * Z * Z * Z) : bool :=
  let '(c, r) := cell in
  let '(x1, y1, x2, y2) := ref in
  (x1 <=? c) && (c <=? x2) && (y1 <=? r) && (r <=? y2).

(** checkCellInArea provides a function to determine if a given
    coordinate is within an area. *)
Definition checkCellInArea (cell area : string) : bool * option error :=
  match CellNameToCoordinates cell with
  | (_, _, Some e) => (false, Some e)
  | (col, row, None) =>
      if negb (Z.of_nat (length (Split area ":")) =? 2) then (false, None)
      else
        match areaRefToCoordinates area with
        | None => (false, Some (ErrInvalidCellName area))
        | Some coordinates => (cellInRef (col, row) coordinates, None)
        end
  end.

(** The loop of [mergeCellsParser]: the merged cells kept (nil entries
    are removed on the way), the reference reached, and the error. *)
Fixpoint mergeCellsLoop (cells : list (option string)) (axis : string)
  : list (option string) * string * option error :=
  match cells with
  | [] => ([], axis, None)
  | None :: rest => mergeCellsLoop rest axis
  | Some ref :: rest =>
      match checkCellInArea axis ref with
      | (_, Some e) => (cells, axis, Some e)
      | (ok, None) =>
          let axis := if ok then List.hd "" (Split ref ":") else axis in
          let '(rest, axis, err) := mergeCellsLoop rest axis in
          (Some ref :: rest, axis, err)
      end
  end.

(** mergeCellsParser provides a function to check merged cells in
    worksheet by given axis. *)
Definition mergeCellsParser (ws : xlsxWorksheet) (axis : string)
  : xlsxWorksheet * (string * option error) :=
  let axis := ToUpper axis in
  match MergeCells ws with
  | Some cells =>
      let '(cells, axis, err) := mergeCellsLoop cells axis in
      (mkWorksheet (SheetData ws) (Some cells), (axis, err))
  | None => (ws, (axis, None))
  end.

(** The inner loop of [getCellStringFunc] over the cells of a row:
    [Some] is a [return] from inside the loop. *)
Fixpoint findCell (fn : xlsxC -> string * bool * option error) (axis : string)
    (cells : list xlsxC) : option (string * option error) :=
  match cells with
  | [] => None
  | colData :: rest =>
      if negb (axis =s C_R colData) then findCell fn axis rest
      else
        match fn colData with
        | (_, _, Some e) => Some ("", Some e)
        | (val, true, None) => Some (val, None)
        | (_, false, None) => findCell fn axis rest
        end
  end.

Fixpoint findRow (fn : xlsxC -> string * bool * option error) (axis : string) (row : Z)
    (rows : list xlsxRow) : string * option error :=
  match rows with
  | [] => ("", None)
  | rowData :: rest =>
      if negb (Row_R rowData =? row) then findRow fn axis row rest
      else
        match findCell fn axis (Row_C rowData) with
        | Some out => out
        | None => findRow fn axis row rest
        end
  end.

(** [lastRowNum] of [getCellStringFunc]: the number of the last stored row. *)
Definition lastRowNum (ws : xlsxWorksheet) : Z :=
  if (0 <? length (SheetData ws))%nat
  then Row_R (List.last (SheetData ws) (blankRow 0)) else 0.

(** getCellStringFunc does common value extraction workflow for all
    GetCell* methods. Passed function implements specific part of required
    logic. The worksheet kept in the file is the one whose nil merged
    cells [mergeCellsParser] has removed. *)
Definition getCellStringFunc (f : File) (sheet axis : string)
    (fn : File -> xlsxWorksheet -> xlsxC -> string * bool * option error)
  : go (File * (string * option error)) :=
  let* (f, ws, err) := workSheetReader f sheet in
  match ws, err with
  | Some ws, None =>
      let '(ws, (axis, err)) := mergeCellsParser ws axis in
      let f :=
        match sheetMap f !! trimSheetName sheet with
        | Some name =>
            mkFile (checked f) (sheetMap f) (<[name := ws]> (Sheet f)) (XLSX f)
              (SharedStrings f) (sharedStringsMap f)
        | None => f
        end in
      match err with
      | Some e => Ret (f, ("", Some e))
      | None =>
          match CellNameToCoordinates axis with
          | (_, _, Some e) => Ret (f, ("", Some e))
          | (_, row, None) =>
              (* keep in mind: row starts from 1 *)
              if lastRowNum ws <? row then Ret (f, ("", None))
              else Ret (f, findRow (fn f ws) axis row (SheetData ws))
          end
      end
  | _, Some e => Ret (f, ("", Some e))
  | None, None => Ret (f, ("", None))
  end.

(** GetCellValue provides a function to get formatted value from cell by
    given worksheet name and axis in spreadsheet file. *)
Definition GetCellValue (f : File) (sheet axis : string) : go (File * (string * option error)) :=
  getCellStringFunc f sheet axis (fun f x c =>
    let '(val, err) := getValueFrom f c in (val, true, err)).

(** *** Shared formulas *)

(** shiftCell returns the cell shifted according to dCol and dRow taking
    into consideration of absolute references with dollar sign ($). *)
Definition shiftCell (cellID : string) (dCol dRow : Z) : string :=
  let '(fCol, fRow, _) := CellNameToCoordinates cellID in
  let '(signCol, fCol) :=
    if Index cellID "$" =? 0 then ("$", fCol) else ("", fCol + dCol) in
  let '(signRow, fRow) :=
    if 0 <? LastIndex cellID "$" then ("$", fRow) else ("", fRow + dRow) in
  let '(colName, _) := ColumnNumberToName fCol in
  signCol +:+ colName +:+ signRow +:+ Itoa fRow.

(** The inner loop of [parseSharedFormula], which runs [end] over the
    rest of a candidate reference: the bytes passed, the bytes left from
    [end] on, and [foundNum]. *)
Fixpoint scanReference (rest : string) (foundNum : bool) : string * string * bool :=
  match rest with
  | EmptyString => (EmptyString, EmptyString, foundNum)
  | String idc rest' =>
      if is_digit idc || Ascii.eqb idc "$" then
        let '(passed, remaining, found) := scanReference rest' true in
        (String idc passed, remaining, found)
      else if is_upper idc then
        if foundNum then (EmptyString, rest, foundNum)
        else
          let '(passed, remaining, found) := scanReference rest' foundNum in
          (String idc passed, remaining, found)
      else (EmptyString, rest, foundNum)
  end.

(** The outer loop of [parseSharedFormula]. [rest] is [orig[end:]] and
    [pending] is [orig[start:end]], the bytes read but not yet added to
    [res]. Every round moves [end] forward, so as many rounds as [orig]
    has bytes reach the end; the result is [res] with [orig[start:]]. *)
Fixpoint parseSharedFormulaLoop (rounds : nat) (dCol dRow : Z)
    (rest pending res : string) (stringLiteral : bool) : string * string :=
  match rounds, rest with
  | O, _ => (res, pending +:+ rest)
  | _, EmptyString => (res, pending)
  | S rounds', String c rest' =>
      let stringLiteral := if Ascii.eqb c quote then negb stringLiteral else stringLiteral in
      if stringLiteral then
        (* Skip characters in quotes *)
        parseSharedFormulaLoop rounds' dCol dRow rest' (pending +:+ String c "") res stringLiteral
      else if is_upper c || Ascii.eqb c "$" then
        let res := res +:+ pending in
        let '(passed, remaining, foundNum) := scanReference rest' false in
        let cellID := String c passed in
        let '(res, pending) :=
          if foundNum then (res +:+ shiftCell cellID dCol dRow, EmptyString)
          else (res, cellID) in
        (* the [end++] of the outer loop steps over the byte at [end] *)
        match remaining with
        | EmptyString => (res, pending)
        | String skipped remaining' =>
            parseSharedFormulaLoop rounds' dCol dRow remaining' (pending +:+ String skipped "") res
              stringLiteral
        end
      else
        parseSharedFormulaLoop rounds' dCol dRow rest' (pending +:+ String c "") res stringLiteral
  end.

(** parseSharedFormula generate dynamic part of shared formula for target
    cell by given column and rows distance and origin shared formula. The
    second component is [orig[start:]] for the [start] returned. *)
Definition parseSharedFormula (dCol dRow : Z) (orig : string) : string * string :=
  parseSharedFormulaLoop (String.length orig) dCol dRow orig EmptyString EmptyString false.

Definition isSharedMaster (si : Z) (c : xlsxC) : bool :=
  match C_F c with
  | Some F =>
      negb (F_Ref F =s "") && (F_T F =s STCellFormulaTypeShared)
      && match F_Si F with Some i => i =? si | None => false end
  | None => false
  end.

(** getSharedFormula find a cell contains the same formula as another
    cell. *)
Definition getSharedFormula (ws : xlsxWorksheet) (si : Z) (axis : string) : string :=
  match List.find (isSharedMaster si) (List.concat (List.map Row_C (SheetData ws))) with
  | Some c =>
      let '(col, row, _) := CellNameToCoordinates axis in
      let '(sharedCol, sharedRow, _) := CellNameToCoordinates (C_R c) in
      let dCol := col - sharedCol in
      let dRow := row - sharedRow in
      let orig := match C_F c with Some F => F_Content F | None => EmptyString end in
      let '(res, tail) := parseSharedFormula dCol dRow orig in
      res +:+ tail
  | None => EmptyString
  end.

(** GetCellFormula provides a function to get formula from cell by given
    worksheet name and axis in XLSX file. *)
Definition GetCellFormula (f : File) (sheet axis : string)
  : go (File * (string * option error)) :=
  getCellStringFunc f sheet axis (fun _ x c =>
    match C_F c with
    | None => ("", false, None)
    | Some F =>
        match F_Si F with
        | Some si =>
            if F_T F =s STCellFormulaTypeShared
            then (getSharedFormula x si (C_R c), true, None)
            else (F_Content F, true, None)
        | None => (F_Content F, true, None)
        end
    end).

End Store.

(** *** Shared string tables *)

(** The item at the place [i] of the table is the plain text [s], byte
    for byte. *)
Definition holdsAt (sst : xlsxSST) (i : nat) (s : string) : Prop :=
  exists item t, SI sst !! i = Some item /\ SI_T item = Some t /\ T_Val t = s.

(** The text [s] is present in the table. *)
Definition present (sst : xlsxSST) (s : string) : Prop := exists i, holdsAt sst i s.

(** The file has its table loaded and indexed: the unique count is the
    number of items, every entry of the index designates an item that is the
    text of the entry, and every text present has an entry. *)
Definition indexed (f : File) (sst : xlsxSST) : Prop :=
  SharedStrings f = Some sst
  /\ UniqueCount sst = Z.of_nat (length (SI sst))
  /\ (forall s i, sharedStringsMap f !! s = Some i -> 0 <= i /\ holdsAt sst (Z.to_nat i) s)
  /\ (forall s, present sst s -> is_Some (sharedStringsMap f !! s)).

(** A text that is stored as it is: within the limit of a cell, and left
    unchanged by the escaping [bstrMarshal]. *)
Definition storedAsIs (bstrMarshal : string -> string) (s : string) : Prop :=
  Z.of_nat (String.length s) <= TotalCellChars /\ bstrMarshal s = s.

(** A text of one byte more than a cell holds. *)
Definition longText : string :=
  string_of_list_ascii (List.repeat "a"%char (Z.to_nat (TotalCellChars + 1))).

(** An escaping that changes the text [_x0001_] and no other. *)
Definition escapeOne (s : string) : string :=
  if s =s "_x0001_" then "_x005F_x0001_" else s.

(** No stored cell of a row numbered [row] carries the reference [axis]. *)
Definition noStoredCell (ws : xlsxWorksheet) (row : Z) (axis : string) : Prop :=
  forall r c, In r (SheetData ws) -> Row_R r = row -> In c (Row_C r) -> C_R c <> axis.

(** *** Well-formed and dense worksheets *)

(** The row that [checkSheet] puts at the place [i]. *)
Definition placedRow (rows : list xlsxRow) (i : Z) : xlsxRow :=
  match indexRows rows 0 ∅ !! (i + 1) with
  | Some k => List.nth k rows (blankRow (i + 1))
  | None => blankRow (i + 1)
  end.

(** A row as section 3 has it: an ordered set of cells, each named by its
    column and the number of the row, the columns strictly increasing. *)
Definition wellFormedRow (r : xlsxRow) : Prop :=
  exists cols : list Z,
    StronglySorted Z.lt cols
    /\ Forall (fun col => 1 <= col <= TotalColumns) cols
    /\ List.map C_R (Row_C r) = List.map (fun col => cellName col (Row_R r)) cols.

(** A worksheet as section 3 has it: the rows stored in increasing order of
    their numbers, which start at 1. *)
Definition wellFormedSheet (ws : xlsxWorksheet) : Prop :=
  StronglySorted Z.lt (List.map Row_R (SheetData ws))
  /\ Forall (fun r => 1 <= Row_R r <= TotalRows /\ wellFormedRow r) (SheetData ws).

(** A row without a gap: its cells are those of the columns 1, 2, ... in
    order, each with the reference of its place. *)
Definition denseRow (r : xlsxRow) : Prop :=
  List.map C_R (Row_C r)
  = List.map (fun col => cellName col (Row_R r)) (seqZ 1 (Z.of_nat (length (Row_C r)))).

(** A worksheet without a gap: its rows are those numbered 1, 2, ... in
    order, each without a gap. *)
Definition denseSheet (ws : xlsxWorksheet) : Prop :=
  List.map Row_R (SheetData ws) = seqZ 1 (Z.of_nat (length (SheetData ws)))
  /\ Forall denseRow (SheetData ws).

(** The column of the last cell of a row; 0 for a row without cells. *)
Definition lastColumn (r : xlsxRow) : Z :=
  match Row_C r with
  | [] => 0
  | _ => fst (fst (CellNameToCoordinates (C_R (List.last (Row_C r) (blankCell EmptyString)))))
  end.

(** Every cell stored in [ws] is found in [ws'], in the row of its number
    and at the place of its column, and that row ends at the column of the
    last cell stored. *)
Definition keepsCells (ws ws' : xlsxWorksheet) : Prop :=
  forall r, In r (SheetData ws) ->
    exists r',
      SheetData ws' !! Z.to_nat (Row_R r - 1) = Some r'
      /\ Row_R r' = Row_R r
      /\ Z.of_nat (length (Row_C r')) = lastColumn r
      /\ forall c col,
           In c (Row_C r) -> fst (fst (CellNameToCoordinates (C_R c))) = col ->
           Row_C r' !! Z.to_nat (col - 1) = Some c.

(** The cell named [name] that carries the formula [F]. *)
Definition formulaCell (name : string) (F : xlsxF) : xlsxC := mkC name 0 "" "" (Some F).

(** A file with no part loaded, and its shared string table as given. *)
Definition fileOf (sheets : gmap string string) (loaded : gmap string xlsxWorksheet)
    (sst : xlsxSST) (index : gmap string Z) : File :=
  mkFile ∅ sheets loaded ∅ (Some sst) index.

(** A worksheet in which the cells C1 to C5 share one formula: C1 is the
    master, with the text [master] and the range C1:C5; the others carry the
    group number only. The state [SetCellFormula] leaves for a shared
    formula. *)
Definition sharedCell (row : Z) (content ref : string) : xlsxC :=
  formulaCell (cellName 3 row) (mkF content STCellFormulaTypeShared ref (Some 0)).
Definition sharedRow (row : Z) (content ref : string) : xlsxRow :=
  mkRow row [blankCell (cellName 1 row); blankCell (cellName 2 row); sharedCell row content ref].
Definition sharedSheet (master : string) : xlsxWorksheet :=
  mkWorksheet
    (sharedRow 1 master "C1:C5" :: List.map (fun r => sharedRow r "" "") [2; 3; 4; 5]) None.
Definition sharedFile (master : string) : File :=
  fileOf (<["Sheet1" := "xl/worksheets/sheet1.xml"]> ∅)
    (<["xl/worksheets/sheet1.xml" := sharedSheet master]> ∅) (mkSST 0 0 []) ∅.

(** A worksheet whose cell A1 carries the formula [1+1] and is merged with
    its neighbours into A1:B2, in a file that has the sheet loaded. *)
Definition mergedSheet : xlsxWorksheet :=
  mkWorksheet [mkRow 1 [formulaCell "A1" (mkF "1+1" "" "" None)]] (Some [Some "A1:B2"]).
Definition mergedFile : File :=
  fileOf (<["Sheet1" := "xl/worksheets/sheet1.xml"]> ∅)
    (<["xl/worksheets/sheet1.xml" := mergedSheet]> ∅) (mkSST 0 0 []) ∅.

(** Worksheets that are not stored as section 3 has it: the row 3 stored
    before the row 1; the cell Z1 stored before the cell D1; and a cell of
    the row 1 that carries the reference B5. *)
Definition valueCell (name value : string) : xlsxC := mkC name 0 "" value None.
Definition unorderedRowsSheet : xlsxWorksheet :=
  mkWorksheet [mkRow 3 [valueCell "A3" "7"]; mkRow 1 [valueCell "A1" "5"]] None.
Definition unorderedCellsSheet : xlsxWorksheet :=
  mkWorksheet [mkRow 1 [valueCell "Z1" "7"; valueCell "D1" "5"]] None.
Definition misnamedCellSheet : xlsxWorksheet :=
  mkWorksheet [mkRow 1 [valueCell "B5" "7"]] None.

(** A worksheet without rows whose only merged cell carries the reference
    [A:B1], which is not an area, in a file that has the sheet loaded. *)
Definition brokenMergeSheet : xlsxWorksheet := mkWorksheet [] (Some [Some "A:B1"]).
Definition brokenMergeFile : File :=
  fileOf (<["Sheet1" := "xl/worksheets/sheet1.xml"]> ∅)
    (<["xl/worksheets/sheet1.xml" := brokenMergeSheet]> ∅) (mkSST 0 0 []) ∅.

End Workbook.

(** ** More functions of the formula library (calc.go) *)
Module MathFuncs.
Import GoStrings GoRunes Calc.

Section Functions.

Variable ParseFloat : string -> option float.
Variable FormatG : float -> string.

(** The loop of [PRODUCT] and [SUM] over the arguments: the value
    accumulated, or the first parse error. *)
Fixpoint accumulate (op : float -> float -> float) (args : list Token) (acc : float)
  : float + error :=
  match args with
  | [] => inl acc
  | token :: args' =>
      if TValue token =s "" then accumulate op args' acc
      else match ParseFloat (TValue token) with
           | None => inr (ErrNum (TValue token))
           | Some val => accumulate op args' (op acc val)
           end
  end.

(** PRODUCT function returns the product (multiplication) of a supplied
    set of numerical values. *)
Definition PRODUCT (argsList : list Token) : go (string * option error) :=
  match accumulate PrimFloat.mul argsList 1%float with
  | inr e => Ret ("", Some e)
  | inl product => Ret (FormatG product, None)
  end.

(** SUM function adds together a supplied set of numbers and returns the
    sum of these values. *)
Definition SUM (argsList : list Token) : go (string * option error) :=
  match accumulate PrimFloat.add argsList 0%float with
  | inr e => Ret ("", Some e)
  | inl sum => Ret (FormatG sum, None)
  end.

(** The methods above as methods of [formulaFuncs], beside those that are
    embedded neither here nor in the engine. *)
Variable otherFuncs : string -> option (list Token -> go (string * option error)).

Definition mathFuncs (name : string) : option (list Token -> go (string * option error)) :=
  if name =s "PRODUCT" then Some PRODUCT
  else if name =s "SUM" then Some SUM
  else otherFuncs name.

End Functions.

Section Calls.

Variable ParseFloat : string -> option float.
Variable FormatG : float -> string.
Variable mathPow : float -> float -> float.
Variable mathTrunc : float -> float.
Variable fuel : nat.
Variable otherFuncs : string -> option (list Token -> go (string * option error)).

(** What the round of the closing token of a call leaves, for the function
    token [fn] on the function stack and the arguments [args]: the call of
    the function, and its result on the operand stack or its error. *)
Definition callResult (fn : Token) (opd opt : Stack) (args : list Token)
  : go (stacks + Token * error) :=
  let* (result, err) :=
    callFuncByName ParseFloat FormatG mathPow mathTrunc fuel otherFuncs
      (stripName (TValue fn)) args in
  match err with
  | Some e => Ret (inr (zeroToken, e))
  | None => Ret (inl (mkStacks (numberToken result :: opd) opt [] [] [] []))
  end.

End Calls.

(** The separator of two arguments, as the tokenizer emits it. *)
Definition comma : Token := mkToken "," TokenTypeArgument "".

(** The tokens of the call of a function on literal numbers: the numbers
    with a separator between each two, and the call itself. *)
Fixpoint argTokens (vals : list string) : list Token :=
  match vals with
  | [] => []
  | [v] => [num v]
  | v :: vals' => num v :: comma :: argTokens vals'
  end.

Definition callTokens (name : string) (vals : list string) : list Token :=
  funcStart name :: argTokens vals ++ [funcStop].

(** The arguments whose text is not empty. *)
Definition nonEmptyTexts (args : list Token) : list Token :=
  List.filter (fun t => negb (TValue t =s "")) args.

(** A token that [calculate] applies to two operands. *)
Definition binaryOperator (opt : Token) : Prop :=
  TValue opt = "+" \/ TValue opt = "*" \/ TValue opt = "/"
  \/ (TValue opt = "-" /\ TType opt = TokenTypeOperatorInfix).

(** The runes [ARABIC] gives a meaning: the minus sign and the seven Roman
    digits. *)
Definition romanRune (char : Z) : bool :=
  (char =? rune "-") || (char =? rune "I") || (char =? rune "V") || (char =? rune "X")
  || (char =? rune "L") || (char =? rune "C") || (char =? rune "D") || (char =? rune "M").

End MathFuncs.

(** ** Merged cells (merge.go), overlap of areas and shared formula groups
    (cell.go), linked values (excelize.go) *)
Module Merge.
Import GoStrings Coord Workbook.

(** An area [[x1, y1, x2, y2]]. *)
Definition rect : Type := (Z * Z * Z * Z)%type.

(** isOverlap find if the given two rectangles overlap or not. *)
Definition isOverlap (rect1 rect2 : rect) : bool :=
  let '(a0, a1, a2, a3) := rect1 in
  let '(b0, b1, b2, b3) := rect2 in
  cellInRef (a0, a1) rect2
  || cellInRef (a2, a1) rect2
  || cellInRef (a0, a3) rect2
  || cellInRef (a2, a3) rect2
  || cellInRef (b0, b1) rect1
  || cellInRef (b2, b1) rect1
  || cellInRef (b0, b3) rect1
  || cellInRef (b2, b3) rect1.

(** The four swaps of [MergeCell] that widen [rect1] by an overlapping
    [rect2]. *)
Definition growRect (rect1 rect2 : rect) : rect :=
  let '(a0, a1, a2, a3) := rect1 in
  let '(b0, b1, b2, b3) := rect2 in
  let a0 := if b0 <? a0 then b0 else a0 in
  let a2 := if a2 <? b2 then b2 else a2 in
  let a1 := if b1 <? a1 then b1 else a1 in
  let a3 := if a3 <? b3 then b3 else a3 in
  (a0, a1, a2, a3).

(** [hcell + ":" + vcell] for the corners of [rect1]. *)
Definition areaName (rect1 : rect) : string :=
  let '(x1, y1, x2, y2) := rect1 in
  fst (CoordinatesToCellName x1 y1) +:+ ":" +:+ fst (CoordinatesToCellName x2 y2).

Section MergeCells.

Variable trimSheetName : string -> string.
Variable unmarshalWorksheet : option string -> xlsxWorksheet.
(** [fmt.Sprintf("%q", s)]. *)
Variable Quote : string -> string.

(** [f.Sheet[name]] points to the worksheet, which the functions below
    update in place. *)
Definition storeMergeCells (f : File) (sheet : string) (xlsx : xlsxWorksheet)
    (cells : option (list (option string))) : File :=
  match sheetMap f !! trimSheetName sheet with
  | Some name =>
      mkFile (checked f) (sheetMap f)
        (<[name := mkWorksheet (SheetData xlsx) cells]> (Sheet f)) (XLSX f)
        (SharedStrings f) (sharedStringsMap f)
  | None => f
  end.

(** The loop of [MergeCell] over the merged cells: the cells kept, with
    those not yet visited when the loop returns an error; the reference of
    the new merged cell; and the error. *)
Fixpoint mergeLoop (cells : list (option string)) (rect1 : rect) (ref : string)
  : list (option string) * string * option error :=
  match cells with
  | [] => ([], ref, None)
  | None :: rest =>
      let '(rest, ref, err) := mergeLoop rest rect1 ref in
      (None :: rest, ref, err)
  | Some cellRef :: rest =>
      if negb (Z.of_nat (length (Split cellRef ":")) =? 2) then
        (cells, ref, Some (ErrNew ("invalid area " +:+ Quote cellRef)))
      else
        match areaRefToCoordinates cellRef with
        | None => (cells, ref, Some (ErrInvalidCellName cellRef))
        | Some rect2 =>
            (* Delete the merged cells of the overlapping area. *)
            if isOverlap rect1 rect2 then
              let rect1 := growRect rect1 rect2 in
              mergeLoop rest rect1 (areaName rect1)
            else
              let '(rest, ref, err) := mergeLoop rest rect1 ref in
              (Some cellRef :: rest, ref, err)
        end
  end.

(** MergeCell provides a function to merge cells by given coordinate area
    and sheet name. *)
Definition MergeCell (f : File) (sheet hcell vcell : string) : go (File * option error) :=
  match areaRefToCoordinates (hcell +:+ ":" +:+ vcell) with
  | None => Ret (f, Some (ErrInvalidCellName (hcell +:+ ":" +:+ vcell)))
  | Some rect1 =>
      (* Correct the coordinate area, such correct C1:B3 to B1:C3. *)
      let rect1 := sortCoordinates rect1 in
      let* (f, xlsx, err) := workSheetReader trimSheetName unmarshalWorksheet f sheet in
      match xlsx, err with
      | Some xlsx, None =>
          let ref := areaName rect1 in
          match MergeCells xlsx with
          | Some cells =>
              let '(cells, ref, err) := mergeLoop cells rect1 ref in
              match err with
              | Some e => Ret (storeMergeCells f sheet xlsx (Some cells), Some e)
              | None => Ret (storeMergeCells f sheet xlsx (Some (cells ++ [Some ref])), None)
              end
          | None => Ret (storeMergeCells f sheet xlsx (Some [Some ref]), None)
          end
      | _, Some e => Ret (f, Some e)
      | None, None => Ret (f, None)
      end
  end.

(** The loop of [UnmergeCell]: [kept] are the cells written back to the
    front of the slice so far. The slice is cut to them at the end only, so
    a return from inside the loop leaves the rest of the slice behind
    them. *)
Fixpoint unmergeLoop (all rest kept : list (option string)) (rect1 : rect)
  : list (option string) * option error :=
  match rest with
  | [] => (kept, None)
  | None :: rest' => unmergeLoop all rest' kept rect1
  | Some cellRef :: rest' =>
      if negb (Z.of_nat (length (Split cellRef ":")) =? 2) then
        (kept ++ List.skipn (length kept) all,
         Some (ErrNew ("invalid area " +:+ Quote cellRef)))
      else
        match areaRefToCoordinates cellRef with
        | None => (kept ++ List.skipn (length kept) all, Some (ErrInvalidCellName cellRef))
        | Some rect2 =>
            if isOverlap rect1 rect2 then unmergeLoop all rest' kept rect1
            else unmergeLoop all rest' (kept ++ [Some cellRef]) rect1
        end
  end.

(** UnmergeCell provides a function to unmerge a given coordinate area. *)
Definition UnmergeCell (f : File) (sheet hcell vcell : string) : go (File * option error) :=
  let* (f, xlsx, err) := workSheetReader trimSheetName unmarshalWorksheet f sheet in
  match xlsx, err with
  | Some xlsx, None =>
      match areaRefToCoordinates (hcell +:+ ":" +:+ vcell) with
      | None => Ret (f, Some (ErrInvalidCellName (hcell +:+ ":" +:+ vcell)))
      | Some rect1 =>
          (* Correct the coordinate area, such correct C1:B3 to B1:C3. *)
          let rect1 := sortCoordinates rect1 in
          match MergeCells xlsx with
          | None => Ret (f, None)   (* return nil since no MergeCells in the sheet *)
          | Some cells =>
              let '(cells, err) := unmergeLoop cells cells [] rect1 in
              Ret (storeMergeCells f sheet xlsx (Some cells), err)
          end
      end
  | _, Some e => Ret (f, Some e)
  | None, None => Ret (f, None)
  end.

(** *** Linked values *)

(** The body of the loops of [UpdateLinkedValue] on one cell. *)
Definition clearLinkedValue (col : xlsxC) : xlsxC :=
  match C_F col with
  | Some _ =>
      if negb (C_V col =s "") then mkC (C_R col) (C_S col) "" "" (C_F col) else col
  | None => col
  end.

Definition clearLinkedValues (xlsx : xlsxWorksheet) : xlsxWorksheet :=
  mkWorksheet
    (List.map (fun r => mkRow (Row_R r) (List.map clearLinkedValue (Row_C r))) (SheetData xlsx))
    (MergeCells xlsx).

(** UpdateLinkedValue fix linked values within a spreadsheet are not
    updating in Office Excel 2007 and 2010. This function will be remove
    value tag when met a cell have a linked value. [names] are the values of
    [f.GetSheetMap()] in the order the iteration over that map yields them. *)
Fixpoint UpdateLinkedValue (names : list string) (f : File) : go (File * option error) :=
  match names with
  | [] => Ret (f, None)
  | name :: names' =>
      let* (f, xlsx, err) := workSheetReader trimSheetName unmarshalWorksheet f name in
      match xlsx, err with
      | Some xlsx, None =>
          let f :=
            match sheetMap f !! trimSheetName name with
            | Some path =>
                mkFile (checked f) (sheetMap f) (<[path := clearLinkedValues xlsx]> (Sheet f))
                  (XLSX f) (SharedStrings f) (sharedStringsMap f)
            | None => f
            end in
          UpdateLinkedValue names' f
      | _, Some e => Ret (f, Some e)
      | None, None => UpdateLinkedValue names' f
      end
  end.

End MergeCells.

(** *** Shared formula groups and string cells (cell.go) *)

(** countSharedFormula count shared formula in the given worksheet. *)
Definition countSharedFormula (ws : xlsxWorksheet) : Z :=
  List.fold_left
    (fun count row =>
       List.fold_left
         (fun count cell =>
            match C_F cell with
            | Some F =>
                match F_Si F with
                | Some si => if count <? wrapInt (si + 1) then wrapInt (si + 1) else count
                | None => count
                end
            | None => count
            end)
         (Row_C row) count)
    (SheetData ws) 0.

Section Strings.

Variable unmarshalSST : option string -> xlsxSST.
Variable bstrMarshal : string -> string.

(** setCellString provides a function to set string type to shared string
    table. *)
Definition setCellString (f : File) (value : string) : File * (string * string * option error) :=
  let value :=
    if TotalCellChars <? Z.of_nat (String.length value)
    then truncate (Z.to_nat TotalCellChars) value
    else value in
  let '(f, (si, err)) := setSharedString unmarshalSST bstrMarshal f value in
  match err with
  | Some e => (f, ("s", "", Some e))
  | None => (f, ("s", Itoa si, None))
  end.

End Strings.

(** An area whose corners are in order. *)
Definition normalized (r : rect) : Prop :=
  let '(x1, y1, x2, y2) := r in x1 <= x2 /\ y1 <= y2.

(** The cell at a column and a row lies in an area. *)
Definition inArea (c r : Z) (a : rect) : Prop := cellInRef (c, r) a = true.

(** An area within the limits of the sheet. *)
Definition validArea (a : rect) : Prop :=
  let '(x1, y1, x2, y2) := a in
  1 <= x1 <= TotalColumns /\ 1 <= y1 <= TotalRows
  /\ 1 <= x2 <= TotalColumns /\ 1 <= y2 <= TotalRows.

(** No byte of a formula outside its string literals is an upper-case
    letter or a dollar sign; [lit] tells whether the text starts inside a
    literal. *)
Fixpoint referenceFree (lit : bool) (s : string) : bool :=
  match s with
  | EmptyString => true
  | String c s' =>
      let lit := if Ascii.eqb c quote then negb lit else lit in
      (lit || negb (is_upper c || Ascii.eqb c "$")) && referenceFree lit s'
  end.

(** A text of upper-case letters and digits only. *)
Fixpoint plainName (s : string) : bool :=
  match s with
  | EmptyString => true
  | String c s' => (is_upper c || is_digit c) && plainName s'
  end.

(** The area [a] covers the area [b]. *)
Definition covers (a b : rect) : Prop :=
  let '(x1, y1, x2, y2) := a in
  let '(x3, y3, x4, y4) := b in
  x1 <= x3 /\ y1 <= y3 /\ x4 <= x2 /\ y4 <= y2.

(** The entries of a list of merged cells that are not nil. *)
Definition someEntries (cells : list (option string)) : list (option string) :=
  List.filter (fun entry => match entry with Some _ => true | None => false end) cells.

(** The merged cells that [isOverlap] does not relate to the area [rect1]. *)
Definition apartFrom (rect1 : rect) (cells : list (option string)) : list (option string) :=
  List.filter
    (fun entry =>
       match entry with
       | Some cellRef =>
           match areaRefToCoordinates cellRef with
           | Some rect2 => negb (isOverlap rect1 rect2)
           | None => false
           end
       | None => false
       end) cells.

(** A merged cell whose reference reads as an area. *)
Definition areaEntry (entry : option string) : Prop :=
  match entry with
  | Some cellRef =>
      length (Split cellRef ":") = 2%nat /\ areaRefToCoordinates cellRef <> None
  | None => True
  end.

(** The text that is kept of a string value: its first [TotalCellChars]
    bytes. *)
Definition keptText (value : string) : string :=
  if TotalCellChars <? Z.of_nat (String.length value)
  then truncate (Z.to_nat TotalCellChars) value
  else value.

(** The group number of the shared formula of a cell, when it has one. *)
Definition groupOf (cell : xlsxC) : option Z :=
  match C_F cell with
  | Some F => F_Si F
  | None => None
  end.

(** The cells of a row named by their places in the row at [rowIdx]. *)
Definition namedByPlace (rowIdx : Z) (cells : list xlsxC) : list xlsxC :=
  imap (fun j c => mkC (cellName (Z.of_nat j + 1) (rowIdx + 1)) (C_S c) (C_T c) (C_V c) (C_F c))
    cells.

(** What [getCellStringFunc] returns for the value and the error that
    [getValueFrom] gives. *)
Definition valueRead (out : string * option error) : string * option error :=
  match out with
  | (val, None) => (val, None)
  | (_, Some e) => (EmptyString, Some e)
  end.

(** The formula of a cell is not one of a shared group. *)
Definition plainFormula (c : xlsxC) : Prop :=
  match C_F c with
  | Some F => F_Si F = None \/ (F_T F =s STCellFormulaTypeShared) = false
  | None => True
  end.

(** The text of the formula of a cell, empty for a cell without one. *)
Definition formulaText (c : xlsxC) : string :=
  match C_F c with
  | Some F => F_Content F
  | None => EmptyString
  end.

(** The cell [c'] is the cell [c] without its cached value: the same
    reference, style and formula; no value when it has a formula; and the
    same cell when [c] has no formula or no value. *)
Definition clearedCell (c c' : xlsxC) : Prop :=
  C_R c' = C_R c /\ C_S c' = C_S c /\ C_F c' = C_F c
  /\ (C_F c <> None -> C_V c' = "")
  /\ (C_F c = None \/ C_V c = "" -> c' = c).

(** The worksheet [ws'] has the rows and the cells of [ws], each cell
    without its cached value. *)
Definition clearedSheet (ws ws' : xlsxWorksheet) : Prop :=
  MergeCells ws' = MergeCells ws
  /\ Forall2 (fun r r' => Row_R r' = Row_R r /\ Forall2 clearedCell (Row_C r) (Row_C r'))
       (SheetData ws) (SheetData ws').

End Merge.

(** ** A reference instance of the library functions

    [strconv.ParseFloat], [fmt.Sprintf("%g", x)], [math.Trunc] and
    [math.Pow] are parameters of the engine. The closed examples below run
    the engine with the following instance, which agrees with the Go library
    on whole numbers: on the texts of at most fifteen decimal digits with an
    optional sign, and on the floats whose value is a whole number below one
    million in magnitude, on zero, on the infinities and on NaN. Every other
    text is rejected and every other float is given the empty text; no
    statement below runs the instance there. *)
Module GoDecimal.
Import GoStrings Coord.

Definition digitsValue (s : string) : option Z :=
  if all_digits s && (0 <? String.length s)%nat && (String.length s <=? 15)%nat
  then option_map (fun d => Z.of_N (N.of_uint d)) (NilEmpty.uint_of_string s)
  else None.

Definition ofZ (z : Z) : float := PrimFloat.of_uint63 (Uint63.of_Z z).

Definition ParseFloat (s : string) : option float :=
  match s with
  | String "-" s' => option_map (fun z => PrimFloat.opp (ofZ z)) (digitsValue s')
  | String "+" s' => option_map ofZ (digitsValue s')
  | _ => option_map ofZ (digitsValue s)
  end.

Definition FormatG (x : float) : string :=
  match Prim2SF x with
  | S754_zero false => "0"
  | S754_zero true => "-0"
  | S754_infinity false => "+Inf"
  | S754_infinity true => "-Inf"
  | S754_nan => "NaN"
  | S754_finite sign m e =>
      let whole := (0 <=? e) || (Zpos m mod 2 ^ (- e) =? 0) in
      let n := if 0 <=? e then Zpos m * 2 ^ e else Zpos m / 2 ^ (- e) in
      if whole && (n <? 1000000) then (if sign then "-" else "") +:+ Itoa n
      else ""
  end.

(** [math.Trunc]: the whole part of [x], with the sign of [x]. A float with
    a fraction is below 2^53 in magnitude, so its whole part is a float. *)
Definition mathTrunc (x : float) : float :=
  match Prim2SF x with
  | S754_finite sign m e =>
      if 0 <=? e then x
      else
        let n := ofZ (Zpos m / 2 ^ (- e)) in
        if sign then PrimFloat.opp n else n
  | _ => x
  end.

(** [math.Pow] for a whole power from 0 to 64, by repeated multiplication,
    which is exact while the products are whole numbers below 2^53; NaN
    elsewhere. *)
Definition mathPow (x y : float) : float :=
  match Prim2SF y with
  | S754_zero _ => PrimFloat.one
  | S754_finite false m e =>
      if (0 <=? e) || (Zpos m mod 2 ^ (- e) =? 0) then
        let n := if 0 <=? e then Zpos m * 2 ^ e else Zpos m / 2 ^ (- e) in
        if n <=? 64 then Nat.iter (Z.to_nat n) (PrimFloat.mul x) PrimFloat.one
        else PrimFloat.nan
      else PrimFloat.nan
  | _ => PrimFloat.nan
  end.

(** A workbook in which every cell holds its own address. *)
Definition GetCellValue (sheet cell : string) : string * option error :=
  (sheet +:+ "!" +:+ cell, None).

Definition otherFuncs (name : string)
  : option (list Calc.Token -> go (string * option error)) := None.

End GoDecimal.

(** * Properties *)

(** ** The coordinate system *)
Module CoordProps.
Import GoStrings Coord.

Lemma columns_ok : columns_ok_from (Z.to_nat TotalColumns) 1 = true.
Proof. vm_compute. reflexivity. Qed.

Lemma columns_ok_from_spec (n : nat) :
  forall first col, columns_ok_from n first = true ->
  first <= col < first + Z.of_nat n -> column_ok col = true.
Proof.
  induction n as [|n IH]; intros first col Hall Hcol; [lia|].
  cbn [columns_ok_from] in Hall. apply andb_prop in Hall as [Hfirst Hrest].
  destruct (Z.eq_dec col first) as [-> | Hne]; [exact Hfirst|].
  apply (IH (first + 1)); [exact Hrest | lia].
Qed.

Lemma column_ok_valid (col : Z) : 1 <= col <= TotalColumns -> column_ok col = true.
Proof.
  intros Hcol. apply (columns_ok_from_spec (Z.to_nat TotalColumns) 1 col columns_ok).
  unfold TotalColumns in *. lia.
Qed.

Lemma append_cons (x : ascii) (a b : string) : String x a +:+ b = String x (a +:+ b).
Proof. reflexivity. Qed.

Lemma append_nil (b : string) : EmptyString +:+ b = b.
Proof. reflexivity. Qed.

Lemma is_digit_not_upper (c : ascii) : is_digit c = true -> is_upper c = false.
Proof.
  unfold is_digit, is_upper. intros H. apply andb_prop in H as [H1 H2].
  apply Z.leb_le in H1, H2. apply andb_false_intro1. apply Z.leb_gt. lia.
Qed.

Lemma span_upper_app (name rest : string) :
  all_upper name = true ->
  match rest with EmptyString => True | String c _ => is_upper c = false end ->
  span_upper (name +:+ rest) = (name, rest).
Proof.
  intros Hname Hrest. induction name as [|c name IH].
  - rewrite append_nil. destruct rest as [|c rest]; [reflexivity|]. cbn [span_upper]. now rewrite Hrest.
  - cbn [all_upper] in Hname. apply andb_prop in Hname as [Hc Hname].
    rewrite append_cons. cbn [span_upper]. rewrite Hc. now rewrite (IH Hname).
Qed.

Lemma string_of_uint_digits (d : Decimal.uint) :
  all_digits (NilEmpty.string_of_uint d) = true.
Proof. induction d; cbn; auto. Qed.

Lemma to_uint_normal (p : positive) : Decimal.unorm (Pos.to_uint p) = Pos.to_uint p.
Proof.
  rewrite <- (DecimalPos.Unsigned.to_of (Pos.to_uint p)).
  now rewrite DecimalPos.Unsigned.of_to.
Qed.

Lemma to_uint_head (p : positive) :
  match Pos.to_uint p with
  | Decimal.Nil | Decimal.D0 _ => False
  | _ => True
  end.
Proof.
  pose proof (to_uint_normal p) as Hn.
  pose proof (DecimalPos.Unsigned.to_uint_nonzero p) as Hz.
  unfold Decimal.unorm in Hn.
  destruct (Decimal.nzhead (Pos.to_uint p)) eqn:Hh; try (rewrite <- Hn; exact I).
  - exfalso. apply Hz. now rewrite <- Hn.
  - exfalso. now apply (DecimalFacts.nzhead_nonzero (Pos.to_uint p) u).
Qed.

(** The text of a positive row number reads back as the number. *)
Lemma row_value_Itoa (row : Z) : 1 <= row -> row_value (Itoa row) = Some row.
Proof.
  intros Hrow. destruct row as [|p|p]; try lia.
  unfold Itoa. cbn [Z.to_int NilZero.string_of_int].
  pose proof (to_uint_head p) as Hhead.
  pose proof (string_of_uint_digits (Pos.to_uint p)) as Hdigits.
  pose proof (NilEmpty.usu (Pos.to_uint p)) as Husu.
  pose proof (DecimalPos.Unsigned.of_to p) as Hof.
  unfold NilZero.string_of_uint.
  destruct (Pos.to_uint p) as [|u|u|u|u|u|u|u|u|u|u] eqn:Hp; try contradiction;
    unfold row_value; cbn [NilEmpty.string_of_uint]; cbn [NilEmpty.string_of_uint] in Hdigits, Husu;
    rewrite Hdigits, Husu; cbn [Ascii.eqb Bool.eqb orb negb option_map]; unfold N.of_uint; rewrite Hof; reflexivity.
Qed.

Lemma Itoa_digits (row : Z) : 1 <= row ->
  all_digits (Itoa row) = true /\
  match Itoa row with EmptyString => False | String c _ => is_upper c = false end.
Proof.
  intros Hrow. destruct row as [|p|p]; try lia.
  unfold Itoa. cbn [Z.to_int NilZero.string_of_int].
  pose proof (to_uint_head p) as Hhead.
  pose proof (string_of_uint_digits (Pos.to_uint p)) as Hdigits.
  unfold NilZero.string_of_uint.
  destruct (Pos.to_uint p) as [|u|u|u|u|u|u|u|u|u|u] eqn:Hp; try contradiction;
    (split; [exact Hdigits | reflexivity]).
Qed.

(** Round trip: the reference built from valid coordinates reads back as
    these coordinates. *)
Lemma cell_coordinates_cellName (col row : Z) :
  1 <= col <= TotalColumns -> 1 <= row <= TotalRows ->
  cell_coordinates (cellName col row) = Some (col, row).
Proof.
  intros Hcol Hrow.
  pose proof (column_ok_valid col Hcol) as Hok. unfold column_ok in Hok.
  apply andb_prop in Hok as [Hok Hval]. apply andb_prop in Hok as [Hlen Hupper].
  apply Z.eqb_eq in Hval.
  destruct (Itoa_digits row) as [Hdigits Hfirst]; [lia|].
  unfold cellName, CoordinatesToCellName, ColumnNumberToName.
  replace ((col <? 1) || (row <? 1) || (TotalColumns <? col) || (TotalRows <? row)) with false
    by (symmetry; repeat (apply orb_false_intro); apply Z.ltb_ge; lia).
  replace ((col <? 1) || (TotalColumns <? col)) with false
    by (symmetry; repeat (apply orb_false_intro); apply Z.ltb_ge; lia).
  cbn [fst]. unfold cell_coordinates.
  rewrite span_upper_app; [|exact Hupper|].
  2:{ destruct (Itoa row); [exact I | exact Hfirst]. }
  rewrite row_value_Itoa by lia. rewrite Hval.
  destruct (column_name_loop 15 col "") eqn:Hname; [discriminate|].
  replace ((col <=? TotalColumns) && (row <=? TotalRows)) with true
    by (symmetry; apply andb_true_intro; split; apply Z.leb_le; lia).
  reflexivity.
Qed.

Lemma CellNameToCoordinates_cellName (col row : Z) :
  1 <= col <= TotalColumns -> 1 <= row <= TotalRows ->
  CellNameToCoordinates (cellName col row) = (col, row, None).
Proof.
  intros Hcol Hrow. unfold CellNameToCoordinates.
  now rewrite cell_coordinates_cellName.
Qed.

Lemma CoordinatesToCellName_valid (col row : Z) :
  1 <= col <= TotalColumns -> 1 <= row <= TotalRows ->
  CoordinatesToCellName col row = (cellName col row, None).
Proof.
  intros Hcol Hrow. unfold cellName, CoordinatesToCellName.
  replace ((col <? 1) || (row <? 1) || (TotalColumns <? col) || (TotalRows <? row)) with false
    by (symmetry; repeat (apply orb_false_intro); apply Z.ltb_ge; lia).
  reflexivity.
Qed.

Lemma cellName_nonempty (col row : Z) :
  1 <= col <= TotalColumns -> 1 <= row <= TotalRows ->
  (cellName col row =? EmptyString)%string = false.
Proof.
  intros Hcol Hrow. pose proof (cell_coordinates_cellName col row Hcol Hrow) as H.
  destruct (cellName col row); [discriminate | reflexivity].
Qed.

End CoordProps.

(** ** The calculation engine *)
Module CalcProps.
Import GoStrings GoRunes Coord Calc.

Section Lemmas.
Variable ParseFloat : string -> option float.
Variable FormatG : float -> string.
Variable GetCellValue : string -> string -> string * option error.

Lemma reduceSubexpression_drain (ops : Stack) :
  forall opd marker rest,
    Forall notMarker ops -> isMarker marker ->
    reduceSubexpression ParseFloat FormatG opd (ops ++ marker :: rest) =
    let* (opd', remaining, err) := drain ParseFloat FormatG opd ops in
    Ret (opd', match err with
               | Some _ => remaining ++ marker :: rest
               | None => rest
               end, err).
Proof.
  induction ops as [|op ops IH]; intros opd marker rest Hops Hm.
  - cbn. destruct Hm as [-> | ->]; cbn; [reflexivity|].
    now rewrite andb_false_r.
  - inversion Hops as [|? ? [H1 H2] Hrest]; subst.
    cbn. rewrite H1, H2. cbn.
    destruct (calculate ParseFloat FormatG opd op) as [[opd' [e|]]| |]; cbn; try reflexivity.
    now rewrite IH.
Qed.

Lemma parseToken_close (opd ops : Stack) (marker : Token) (rest : Stack) (sheet : string) :
  Forall notMarker ops -> isMarker marker ->
  parseToken ParseFloat FormatG GetCellValue sheet parenClose opd (ops ++ marker :: rest) =
  let* (opd', remaining, err) := drain ParseFloat FormatG opd ops in
  Ret (opd', match err with
             | Some _ => remaining ++ marker :: rest
             | None => rest
             end, err).
Proof.
  intros Hops Hm. unfold parseToken. cbn.
  rewrite (reduceSubexpression_drain ops opd marker rest Hops Hm).
  destruct (drain ParseFloat FormatG opd ops) as [[[opd' remaining] [e|]]| |]; reflexivity.
Qed.

End Lemmas.

Section Flat.
Variable ParseFloat : string -> option float.
Variable FormatG : float -> string.
Variable mathPow : float -> float -> float.
Variable mathTrunc : float -> float.
Variable GetCellValue : string -> string -> string * option error.
Variable fuel : nat.
Variable otherFuncs : string -> option (list Token -> go (string * option error)).
Variable sheet : string.

Local Abbreviation evalFrom' :=
  (evalFrom ParseFloat FormatG mathPow mathTrunc GetCellValue fuel otherFuncs sheet).
Local Abbreviation outer opd opt := (mkStacks opd opt [] [] [] []).


(** [calculate] on two operands is [applyOperator]. *)
Lemma calculate_applyOperator (op l r : string) (rest : Stack) :
  binaryText op ->
  calculate ParseFloat FormatG (num r :: num l :: rest) (infix op)
  = match applyOperator ParseFloat FormatG op l r with
    | inl v => Ret (num v :: rest, None)
    | inr e => Ret (rest, Some e)
    end.
Proof.
  intros Hop. unfold calculate, calculate_negate, calculate_binary, andThen, applyOperator.
  destruct Hop as [-> | [-> | [-> | ->]]]; cbn;
    destruct (ParseFloat l) as [x|]; cbn; try reflexivity;
    destruct (ParseFloat r) as [y|]; cbn; try reflexivity.
  destruct (PrimFloat.eqb y 0); reflexivity.
Qed.

Lemma calculate_negation (v : string) (rest : Stack) :
  calculate ParseFloat FormatG (num v :: rest) (prefix "-")
  = match operandValue ParseFloat FormatG (true, v) with
    | inl v' => Ret (num v' :: rest, None)
    | inr e => Ret (rest, Some e)
    end.
Proof.
  unfold calculate, calculate_negate, calculate_binary, andThen, operandValue. cbn.
  destruct (ParseFloat v) as [x|]; reflexivity.
Qed.

(** One round of the loop outside of a function, on an operand and on an
    operator. *)
Lemma evalFrom_operand (v : string) (toks : list Token) (opd opt : Stack) :
  isOperator (num v) = false ->
  evalFrom' (num v :: toks) (outer opd opt) = evalFrom' toks (outer (num v :: opd) opt).
Proof.
  intros Hv. unfold evalFrom. cbn [evalLoop]. unfold evalRound, parseToken.
  cbn -[isOperator evalLoop drain]. rewrite Hv. cbn -[evalLoop drain]. reflexivity.
Qed.

Lemma evalFrom_operator (token : Token) (toks : list Token) (opd opt : Stack) :
  isOperator token = true ->
  (TSubType token =s TokenSubTypeRange) = false ->
  (TType token =s TokenTypeSubexpression) = false ->
  (TType token =s TokenTypeFunction) = false ->
  (TType token =s TokenTypeOperand) = false ->
  evalFrom' (token :: toks) (outer opd opt)
  = match opt with
    | [] => evalFrom' toks (outer opd [token])
    | topOpt :: popped =>
        if getPriority token >? getPriority topOpt
        then evalFrom' toks (outer opd (token :: opt))
        else
          let* (opd, opt, err) :=
            reduceOperators ParseFloat FormatG (getPriority token) topOpt opd popped in
          match err with
          | Some e => Ret (zeroToken, Some e)
          | None => evalFrom' toks (outer opd (token :: opt))
          end
    end.
Proof.
  intros Hop Hrange Hsub Hfn Hopd. unfold evalFrom. cbn [evalLoop]. unfold evalRound, parseToken.
  cbn -[isOperator evalLoop drain getPriority reduceOperators].
  rewrite Hrange, Hop, Hsub, Hfn, Hopd. cbn -[evalLoop drain getPriority reduceOperators].
  destruct opt as [|topOpt popped]; [reflexivity|].
  cbn -[evalLoop drain getPriority reduceOperators].
  destruct (getPriority token >? getPriority topOpt);
    cbn -[evalLoop drain getPriority reduceOperators]; [reflexivity|].
  destruct (reduceOperators _ _ _ _ _ _) as [[[opd' opt'] [e|]]| |]; reflexivity.
Qed.

(** The operator on top of the stack is applied before an operator of
    a priority that is not above its own, and at the end of the tokens. *)
Lemma top_applied (topOpt : Token) (toks : list Token) (opd bopt : Stack) :
  yields (getPriority topOpt) toks ->
  evalFrom' toks (outer opd (topOpt :: bopt))
  = let* (opd1, err) := calculate ParseFloat FormatG opd topOpt in
    match err with
    | Some e => Ret (zeroToken, Some e)
    | None => evalFrom' toks (outer opd1 bopt)
    end.
Proof.
  intros Hyields. destruct toks as [|token toks].
  - unfold evalFrom. cbn [evalLoop next go_bind opdStack optStack drain].
    destruct (calculate ParseFloat FormatG opd topOpt) as [[opd1 [e|]]| |]; reflexivity.
  - destruct Hyields as (op & -> & Hop & Hpri).
    assert (Hoper : isOperator (infix op) = true)
      by (destruct Hop as [-> | [-> | [-> | ->]]]; reflexivity).
    rewrite (evalFrom_operator (infix op) toks opd (topOpt :: bopt) Hoper)
      by reflexivity.
    replace (getPriority (infix op) >? getPriority topOpt) with false
      by (symmetry; rewrite Z.gtb_ltb; apply Z.ltb_ge; exact Hpri).
    destruct bopt as [|next popped]; cbn [reduceOperators].
    + destruct (calculate ParseFloat FormatG opd topOpt) as [[opd1 [e|]]| |];
        cbn [go_bind]; try reflexivity.
      now rewrite (evalFrom_operator (infix op) toks opd1 [] Hoper) by reflexivity.
    + destruct (calculate ParseFloat FormatG opd topOpt) as [[opd1 [e|]]| |];
        cbn [go_bind]; try reflexivity.
      rewrite (evalFrom_operator (infix op) toks opd1 (next :: popped) Hoper) by reflexivity.
      rewrite Z.gtb_ltb, Z.ltb_antisym.
      destruct (getPriority (infix op) <=? getPriority next); reflexivity.
Qed.

Lemma yields_weaken (pri pri' : Z) (toks : list Token) :
  pri <= pri' -> yields pri toks -> yields pri' toks.
Proof.
  intros Hle. destruct toks as [|token toks]; [auto|].
  intros (op & Heq & Hop & Hpri). exists op. repeat split; try assumption. lia.
Qed.

Lemma binaryText_priority (op : string) : binaryText op -> 1 <= getPriority (infix op) <= 2.
Proof. intros [-> | [-> | [-> | ->]]]; cbn; lia. Qed.

(** An operand, with the minus sign that stands before it. *)
Lemma evalFrom_operandTokens (o : operand) (toks : list Token) (opd opt : Stack) :
  operandText o -> topBelow 3 opt -> yields 3 toks ->
  evalFrom' (operandTokens o ++ toks) (outer opd opt)
  = match operandValue ParseFloat FormatG o with
    | inr e => Ret (zeroToken, Some e)
    | inl v => evalFrom' toks (outer (num v :: opd) opt)
    end.
Proof.
  destruct o as [[|] v]; unfold operandText; cbn [snd operandTokens]; intros Hv Hopt Hyields.
  - change ([prefix "-"; num v] ++ toks) with (prefix "-" :: num v :: toks).
    rewrite (evalFrom_operator (prefix "-") (num v :: toks) opd opt) by reflexivity.
    assert (Hpush : evalFrom' (num v :: toks) (outer opd (prefix "-" :: opt))
                    = match operandValue ParseFloat FormatG (true, v) with
                      | inr e => Ret (zeroToken, Some e)
                      | inl v' => evalFrom' toks (outer (num v' :: opd) opt)
                      end).
    { rewrite (evalFrom_operand v toks opd (prefix "-" :: opt) Hv).
      rewrite (top_applied (prefix "-") toks (num v :: opd) opt) by exact Hyields.
      rewrite calculate_negation.
      destruct (operandValue ParseFloat FormatG (true, v)); reflexivity. }
    destruct opt as [|topOpt popped]; [exact Hpush|].
    cbn [topBelow] in Hopt.
    replace (getPriority (prefix "-") >? getPriority topOpt) with true
      by (symmetry; rewrite Z.gtb_ltb; apply Z.ltb_lt; exact Hopt).
    exact Hpush.
  - cbn [operandValue]. change ([num v] ++ toks) with (num v :: toks).
    now apply evalFrom_operand.
Qed.

Lemma yields_factors (factors : list (string * operand)) (toks : list Token) :
  Forall (fun '(op, o) => (op = "*" \/ op = "/") /\ operandText o) factors ->
  yields 1 toks -> yields 2 (factorsTokens factors ++ toks).
Proof.
  intros Hwf Htoks. destruct factors as [|[op o] fs].
  - cbn. now apply (yields_weaken 1 2).
  - inversion Hwf as [|? ? Hhead _]; subst. cbn in Hhead. destruct Hhead as [Hop _].
    change (yields 2 (infix op :: ((operandTokens o ++ factorsTokens fs) ++ toks))).
    exists op.
    split; [reflexivity|]. destruct Hop as [-> | ->]; (split; [unfold binaryText; auto | cbn; lia]).
Qed.

(** The operators [*] and [/] of a product, from left to right. *)
Lemma evalFrom_factors (factors : list (string * operand)) :
  forall acc bopd bopt toks,
    Forall (fun '(op, o) => (op = "*" \/ op = "/") /\ operandText o) factors ->
    topBelow 2 bopt -> yields 1 toks ->
    evalFrom' (factorsTokens factors ++ toks) (outer (num acc :: bopd) bopt)
    = match factorsValue ParseFloat FormatG acc factors with
      | inr e => Ret (zeroToken, Some e)
      | inl t => evalFrom' toks (outer (num t :: bopd) bopt)
      end.
Proof.
  induction factors as [|[op o] fs IH]; intros acc bopd bopt toks Hwf Hopt Htoks;
    [reflexivity|].
  inversion Hwf as [|? ? Hhead Hfs]; subst. cbn in Hhead. destruct Hhead as [Hop Ho].
  assert (Hbin : binaryText op) by (unfold binaryText; destruct Hop; auto).
  assert (Hpri : getPriority (infix op) = 2) by (destruct Hop as [-> | ->]; reflexivity).
  assert (Hoper : isOperator (infix op) = true) by (destruct Hop as [-> | ->]; reflexivity).
  pose proof (yields_factors fs toks Hfs Htoks) as Hrest.
  change (factorsTokens ((op, o) :: fs) ++ toks)
    with (infix op :: ((operandTokens o ++ factorsTokens fs) ++ toks)).
  rewrite <- List.app_assoc.
  assert (Hpushed :
            evalFrom' (operandTokens o ++ factorsTokens fs ++ toks)
              (outer (num acc :: bopd) (infix op :: bopt))
            = match factorsValue ParseFloat FormatG acc ((op, o) :: fs) with
              | inr e => Ret (zeroToken, Some e)
              | inl t => evalFrom' toks (outer (num t :: bopd) bopt)
              end).
  { rewrite evalFrom_operandTokens;
      [|exact Ho | cbn [topBelow]; lia | now apply (yields_weaken 2 3)].
    cbn [factorsValue]. destruct (operandValue ParseFloat FormatG o) as [v|e]; [|reflexivity].
    rewrite top_applied by (rewrite Hpri; exact Hrest).
    rewrite (calculate_applyOperator op acc v bopd Hbin).
    destruct (applyOperator ParseFloat FormatG op acc v) as [acc'|e]; [|reflexivity].
    cbn [go_bind]. now apply IH. }
  rewrite (evalFrom_operator (infix op) _ (num acc :: bopd) bopt Hoper) by reflexivity.
  destruct bopt as [|topOpt popped]; [exact Hpushed|].
  cbn [topBelow] in Hopt.
  replace (getPriority (infix op) >? getPriority topOpt) with true
    by (symmetry; rewrite Z.gtb_ltb; apply Z.ltb_lt; lia).
  exact Hpushed.
Qed.

Lemma evalFrom_product (p : product) (toks : list Token) (bopd bopt : Stack) :
  wellFormedProduct p -> topBelow 2 bopt -> yields 1 toks ->
  evalFrom' (productTokens p ++ toks) (outer bopd bopt)
  = match productValue ParseFloat FormatG p with
    | inr e => Ret (zeroToken, Some e)
    | inl t => evalFrom' toks (outer (num t :: bopd) bopt)
    end.
Proof.
  destruct p as [o fs]. intros [Ho Hfs] Hopt Htoks. cbn [fst snd] in *.
  unfold productTokens, productValue. cbn [fst snd]. rewrite <- List.app_assoc.
  rewrite evalFrom_operandTokens;
    [|exact Ho
     |destruct bopt; cbn [topBelow] in *; [exact I | lia]
     |apply (yields_weaken 2 3); [lia | now apply yields_factors]].
  destruct (operandValue ParseFloat FormatG o) as [v|e]; [|reflexivity].
  now apply evalFrom_factors.
Qed.

Lemma yields_terms (terms : list (string * product)) :
  Forall (fun '(op, p) => (op = "+" \/ op = "-") /\ wellFormedProduct p) terms ->
  yields 1 (termsTokens terms).
Proof.
  intros Hwf. destruct terms as [|[op p] ts]; [exact I|].
  inversion Hwf as [|? ? Hhead _]; subst. cbn in Hhead. destruct Hhead as [Hop _].
  change (yields 1 (infix op :: (productTokens p ++ termsTokens ts))).
  exists op.
  split; [reflexivity|]. destruct Hop as [-> | ->]; (split; [unfold binaryText; auto | cbn; lia]).
Qed.

(** The operators [+] and [-] between the products, from left to right. *)
Lemma evalFrom_terms (terms : list (string * product)) :
  forall acc,
    Forall (fun '(op, p) => (op = "+" \/ op = "-") /\ wellFormedProduct p) terms ->
    evalFrom' (termsTokens terms) (outer [num acc] [])
    = match termsValue ParseFloat FormatG acc terms with
      | inr e => Ret (zeroToken, Some e)
      | inl v => Ret (num v, None)
      end.
Proof.
  induction terms as [|[op p] ts IH]; intros acc Hwf; [reflexivity|].
  inversion Hwf as [|? ? Hhead Hts]; subst. cbn in Hhead. destruct Hhead as [Hop Hp].
  assert (Hbin : binaryText op) by (unfold binaryText; destruct Hop; auto).
  assert (Hpri : getPriority (infix op) = 1) by (destruct Hop as [-> | ->]; reflexivity).
  assert (Hoper : isOperator (infix op) = true) by (destruct Hop as [-> | ->]; reflexivity).
  pose proof (yields_terms ts Hts) as Hrest.
  change (termsTokens ((op, p) :: ts)) with (infix op :: (productTokens p ++ termsTokens ts)).
  rewrite (evalFrom_operator (infix op) _ [num acc] [] Hoper) by reflexivity.
  rewrite evalFrom_product; [|exact Hp | cbn [topBelow]; lia | exact Hrest].
  cbn [termsValue]. destruct (productValue ParseFloat FormatG p) as [t|e]; [|reflexivity].
  rewrite top_applied by (rewrite Hpri; exact Hrest).
  rewrite (calculate_applyOperator op acc t [] Hbin).
  destruct (applyOperator ParseFloat FormatG op acc t) as [acc'|e]; [|reflexivity].
  cbn [go_bind]. now apply IH.
Qed.

(** The tokens of an expression without parentheses evaluate to the value
    that the precedence table gives it. *)
Lemma evalInfixExp_flat (e : flatExp) :
  wellFormedFlat e ->
  evalInfixExp ParseFloat FormatG mathPow mathTrunc GetCellValue fuel otherFuncs sheet
    (flatTokens e)
  = match flatValue ParseFloat FormatG e with
    | inr err => Ret (zeroToken, Some err)
    | inl v => Ret (num v, None)
    end.
Proof.
  destruct e as [p ts]. intros [Hp Hts]. cbn [fst snd] in *.
  change (evalInfixExp ParseFloat FormatG mathPow mathTrunc GetCellValue fuel otherFuncs sheet
            (flatTokens (p, ts)))
    with (evalFrom' (productTokens p ++ termsTokens ts) (outer [] [])).
  rewrite evalFrom_product; [|exact Hp | exact I | now apply yields_terms].
  unfold flatValue. cbn [fst snd].
  destruct (productValue ParseFloat FormatG p) as [t|e]; [|reflexivity].
  now apply evalFrom_terms.
Qed.

End Flat.

(** Well-formedness of a given expression. *)
Ltac flat_wf :=
  repeat first
    [ reflexivity | split | (left; reflexivity) | (right; reflexivity)
    | apply List.Forall_cons | apply List.Forall_nil | progress cbn ].



(** *** Division by zero *)

(** C6 (as stated, refuted): the right operand [0] parses to zero, yet with
    a left operand whose text is empty, as an empty cell gives, [calculate]
    returns the parse error of the left operand and not [#DIV/0!]. *)
Lemma C6_counterexample :
  GoDecimal.ParseFloat "0" = Some 0%float
  /\ calculate GoDecimal.ParseFloat GoDecimal.FormatG [num "0"; num ""] (infix "/")
     = Ret ([], Some (ErrNum ""))
  /\ Ret (A := Stack * option error) ([], Some (ErrNum ""))
     <> Ret ([], Some (ErrNew formulaErrorDIV)).
Proof. repeat split; try reflexivity. discriminate. Qed.

(** C6 (amended): when [/] is applied to a left operand that parses to a
    number and a right operand that parses to zero, [calculate] returns the
    error [#DIV/0!], pushes nothing and does not panic; the tokens of [=1/0]
    evaluate to that error. *)
Theorem C6_division_by_zero
    (ParseFloat : string -> option float) (FormatG : float -> string)
    (mathPow : float -> float -> float) (mathTrunc : float -> float)
    (GetCellValue : string -> string -> string * option error) (fuel : nat)
    (otherFuncs : string -> option (list Token -> go (string * option error)))
    (sheet : string) (opt rOpd lOpd : Token) (rest : Stack) (lOpdVal rOpdVal : float) :
  TValue opt = "/" ->
  ParseFloat (TValue lOpd) = Some lOpdVal ->
  ParseFloat (TValue rOpd) = Some rOpdVal ->
  PrimFloat.eqb rOpdVal 0 = true ->
  ParseFloat "1" = Some 1%float ->
  ParseFloat "0" = Some 0%float ->
  calculate ParseFloat FormatG (rOpd :: lOpd :: rest) opt
    = Ret (rest, Some (ErrNew formulaErrorDIV))
  /\ evalInfixExp ParseFloat FormatG mathPow mathTrunc GetCellValue fuel otherFuncs sheet
       [num "1"; infix "/"; num "0"] = Ret (zeroToken, Some (ErrNew formulaErrorDIV)).
Proof.
  intros Hopt Hl Hr Hz H1 H0. split.
  - destruct opt as [v ty sub]. cbn in Hopt. subst v.
    unfold calculate, calculate_negate, calculate_binary. cbn.
    rewrite Hl, Hr. cbn. rewrite Hz. reflexivity.
  - vm_compute. rewrite H1. vm_compute. rewrite H0. reflexivity.
Qed.

Lemma C6_division_by_zero_witness :
  calculate GoDecimal.ParseFloat GoDecimal.FormatG [num "0"; num "5"] (infix "/")
    = Ret ([], Some (ErrNew formulaErrorDIV))
  /\ evalInfixExp GoDecimal.ParseFloat GoDecimal.FormatG GoDecimal.mathPow GoDecimal.mathTrunc
       GoDecimal.GetCellValue 0 GoDecimal.otherFuncs "Sheet1"
       [num "1"; infix "/"; num "0"] = Ret (zeroToken, Some (ErrNew formulaErrorDIV)).
Proof.
  apply (C6_division_by_zero GoDecimal.ParseFloat GoDecimal.FormatG GoDecimal.mathPow
           GoDecimal.mathTrunc GoDecimal.GetCellValue 0 GoDecimal.otherFuncs "Sheet1"
           (infix "/") (num "0") (num "5") [] 5%float 0%float);
    reflexivity.
Defined.

(** *** Domain violations of SQRT and POWER *)

Lemma ltb_true_eqb_false (x y : float) : PrimFloat.ltb x y = true -> PrimFloat.eqb x y = false.
Proof.
  rewrite FloatAxioms.ltb_spec, FloatAxioms.eqb_spec. unfold SFltb, SFeqb.
  destruct (SFcompare (Prim2SF x) (Prim2SF y)) as [[]|]; congruence.
Qed.

(** C7 (as stated, refuted): [SQRT] of [-1] returns the empty text as its
    result; [#NUM!] is the text of the error returned beside it. *)
Lemma C7_counterexample :
  SQRT GoDecimal.ParseFloat GoDecimal.FormatG [num "-1"]
    = Ret (EmptyString, Some (ErrNew formulaErrorNUM))
  /\ EmptyString <> formulaErrorNUM.
Proof. split; [reflexivity | discriminate]. Qed.

(** C7 (amended): [SQRT] of a negative number returns the error [#NUM!],
    [POWER] of zero and a negative power the error [#DIV/0!], [POWER] of zero
    and zero the error [#NUM!], each with the empty text as result; the
    tokens of [=SQRT(-1)] evaluate to the error [#NUM!]. *)
Theorem C7_domain_errors
    (ParseFloat : string -> option float) (FormatG : float -> string)
    (mathPow : float -> float -> float) (mathTrunc : float -> float)
    (GetCellValue : string -> string -> string * option error) (fuel : nat)
    (otherFuncs : string -> option (list Token -> go (string * option error)))
    (sheet : string) (arg base negative zero : Token) (v x yn yz : float) :
  ParseFloat (TValue arg) = Some v -> PrimFloat.ltb v 0 = true ->
  ParseFloat (TValue base) = Some x -> PrimFloat.eqb x 0 = true ->
  ParseFloat (TValue negative) = Some yn -> PrimFloat.ltb yn 0 = true ->
  ParseFloat (TValue zero) = Some yz -> PrimFloat.eqb yz 0 = true ->
  ParseFloat "1" = Some 1%float ->
  FormatG (-1)%float = "-1" ->
  ParseFloat "-1" = Some (-1)%float ->
  SQRT ParseFloat FormatG [arg] = Ret (EmptyString, Some (ErrNew formulaErrorNUM))
  /\ POWER ParseFloat FormatG mathPow [base; negative]
     = Ret (EmptyString, Some (ErrNew formulaErrorDIV))
  /\ POWER ParseFloat FormatG mathPow [base; zero]
     = Ret (EmptyString, Some (ErrNew formulaErrorNUM))
  /\ evalInfixExp ParseFloat FormatG mathPow mathTrunc GetCellValue fuel otherFuncs sheet
       [funcStart "SQRT"; prefix "-"; num "1"; funcStop]
     = Ret (zeroToken, Some (ErrNew formulaErrorNUM)).
Proof.
  intros Hv Hneg Hx Hx0 Hyn Hynneg Hyz Hyz0 H1 Fm1 Hm1.
  repeat split.
  - unfold SQRT. now rewrite Hv, Hneg.
  - unfold POWER. rewrite Hx, Hyn, Hx0, Hynneg.
    now rewrite (ltb_true_eqb_false _ _ Hynneg).
  - unfold POWER. now rewrite Hx, Hyz, Hx0, Hyz0.
  - vm_compute. rewrite H1. vm_compute. rewrite Fm1. vm_compute. rewrite Hm1. reflexivity.
Qed.

Lemma C7_domain_errors_witness :
  SQRT GoDecimal.ParseFloat GoDecimal.FormatG [num "-4"]
    = Ret (EmptyString, Some (ErrNew formulaErrorNUM))
  /\ POWER GoDecimal.ParseFloat GoDecimal.FormatG GoDecimal.mathPow [num "0"; num "-2"]
     = Ret (EmptyString, Some (ErrNew formulaErrorDIV))
  /\ POWER GoDecimal.ParseFloat GoDecimal.FormatG GoDecimal.mathPow [num "0"; num "0"]
     = Ret (EmptyString, Some (ErrNew formulaErrorNUM))
  /\ evalInfixExp GoDecimal.ParseFloat GoDecimal.FormatG GoDecimal.mathPow GoDecimal.mathTrunc
       GoDecimal.GetCellValue 0 GoDecimal.otherFuncs "Sheet1"
       [funcStart "SQRT"; prefix "-"; num "1"; funcStop]
     = Ret (zeroToken, Some (ErrNew formulaErrorNUM)).
Proof.
  apply (C7_domain_errors GoDecimal.ParseFloat GoDecimal.FormatG GoDecimal.mathPow
           GoDecimal.mathTrunc GoDecimal.GetCellValue 0 GoDecimal.otherFuncs "Sheet1"
           (num "-4") (num "0") (num "-2") (num "0")
           (-4)%float 0%float (-2)%float 0%float);
    reflexivity.
Defined.

(** *** GCD and LCM on empty texts *)

Lemma parseNums_empty_texts (ParseFloat : string -> option float) (args : list Token) :
  forall nums, Forall (fun t => TValue t = EmptyString) args ->
  parseNums ParseFloat args nums = inl nums.
Proof.
  induction args as [|t args IH]; intros nums Hall; [reflexivity|].
  inversion Hall as [|? ? Ht Hrest]; subst. cbn. rewrite Ht. cbn. now apply IH.
Qed.

(** C9 (the code at the failing input): when every argument has the empty
    text, and there is at least one, [GCD] and [LCM] read [nums[0]] of an
    empty slice and panic. *)
Theorem C9_gcd_lcm_panic_on_empty_texts
    (ParseFloat : string -> option float) (FormatG : float -> string)
    (mathTrunc : float -> float) (fuel : nat) (args : list Token) :
  args <> [] ->
  Forall (fun t => TValue t = EmptyString) args ->
  GCD ParseFloat FormatG mathTrunc fuel args = Panic (IndexOutOfRange 0 0)
  /\ LCM ParseFloat FormatG mathTrunc fuel args = Panic (IndexOutOfRange 0 0).
Proof.
  intros Hne Hall. unfold GCD, LCM, gcdLike.
  destruct args as [|t args]; [congruence|].
  replace (Z.of_nat (length (t :: args)) =? 0) with false
    by (symmetry; apply Z.eqb_neq; cbn [length]; lia).
  rewrite (parseNums_empty_texts ParseFloat (t :: args) [] Hall). split; reflexivity.
Qed.

Lemma C9_gcd_lcm_panic_on_empty_texts_witness :
  GCD GoDecimal.ParseFloat GoDecimal.FormatG GoDecimal.mathTrunc 0 [num EmptyString]
    = Panic (IndexOutOfRange 0 0)
  /\ LCM GoDecimal.ParseFloat GoDecimal.FormatG GoDecimal.mathTrunc 0 [num EmptyString]
     = Panic (IndexOutOfRange 0 0).
Proof.
  apply (C9_gcd_lcm_panic_on_empty_texts GoDecimal.ParseFloat GoDecimal.FormatG
           GoDecimal.mathTrunc 0 [num EmptyString]).
  - discriminate.
  - repeat constructor.
Defined.

(** The functions on whole numbers, run with the reference instance: the
    greatest common divisor of 12 and 18, the least common multiple of 4 and
    6, a negative argument, the root of 16, the tenth power of 2, and the
    formula [=GCD(12,18)*2]. *)
Example functions_on_whole_numbers :
  GCD GoDecimal.ParseFloat GoDecimal.FormatG GoDecimal.mathTrunc 8 [num "12"; num "18"]
    = Ret ("6", None)
  /\ LCM GoDecimal.ParseFloat GoDecimal.FormatG GoDecimal.mathTrunc 8 [num "4"; num "6"]
     = Ret ("12", None)
  /\ GCD GoDecimal.ParseFloat GoDecimal.FormatG GoDecimal.mathTrunc 8 [num "12"; num "-18"]
     = Ret (EmptyString, Some (ErrNew "GCD only accepts positive arguments"))
  /\ SQRT GoDecimal.ParseFloat GoDecimal.FormatG [num "16"] = Ret ("4", None)
  /\ POWER GoDecimal.ParseFloat GoDecimal.FormatG GoDecimal.mathPow [num "2"; num "10"]
     = Ret ("1024", None)
  /\ evalInfixExp GoDecimal.ParseFloat GoDecimal.FormatG GoDecimal.mathPow GoDecimal.mathTrunc
       GoDecimal.GetCellValue 8 GoDecimal.otherFuncs "Sheet1"
       [funcStart "GCD"; num "12"; mkToken "," TokenTypeArgument EmptyString; num "18";
        funcStop; infix "*"; num "2"]
     = Ret (num "12", None).
Proof. vm_compute. repeat split. Qed.

(** *** ARABIC *)

Lemma arabicLoop_second (c2 : Z) (d1 d2 : float) (post : list Z) (val pfx : float) :
  arabicDigit c2 = Some d2 -> arabicInvalid d1 d2 = true ->
  arabicLoop (c2 :: post) val d1 pfx = None.
Proof.
  intros H2 Hbad. cbn [arabicLoop]. rewrite H2. unfold arabicInvalid in Hbad.
  destruct (PrimFloat.eqb d1 d2
            && (PrimFloat.eqb d1 5 || PrimFloat.eqb d1 50 || PrimFloat.eqb d1 500));
    [reflexivity|].
  cbn in Hbad. now rewrite Hbad.
Qed.

Lemma arabicLoop_pair (c1 c2 : Z) (d1 d2 : float) (post : list Z) (val last pfx : float) :
  arabicDigit c1 = Some d1 -> arabicDigit c2 = Some d2 -> arabicInvalid d1 d2 = true ->
  arabicLoop (c1 :: c2 :: post) val last pfx = None.
Proof.
  intros H1 H2 Hbad. cbn [arabicLoop]. rewrite H1.
  destruct (PrimFloat.eqb last d1
            && (PrimFloat.eqb last 5 || PrimFloat.eqb last 50 || PrimFloat.eqb last 500));
    [reflexivity|].
  destruct (PrimFloat.eqb (2 * last) d1); [reflexivity|].
  now apply arabicLoop_second with (d2 := d2).
Qed.

Lemma arabicLoop_within (pre : list Z) (c1 c2 : Z) (d1 d2 : float) (post : list Z) :
  arabicDigit c1 = Some d1 -> arabicDigit c2 = Some d2 -> arabicInvalid d1 d2 = true ->
  forall val last pfx, arabicLoop (pre ++ c1 :: c2 :: post) val last pfx = None.
Proof.
  intros H1 H2 Hbad. induction pre as [|c pre IH]; intros val last pfx.
  - now apply arabicLoop_pair with (d1 := d1) (d2 := d2).
  - cbn [app arabicLoop]. destruct (arabicDigit c) as [d|]; [|apply IH].
    destruct (PrimFloat.eqb last d
              && (PrimFloat.eqb last 5 || PrimFloat.eqb last 50 || PrimFloat.eqb last 500));
      [reflexivity|].
    destruct (PrimFloat.eqb (2 * last) d); [reflexivity|]. apply IH.
Qed.

Lemma invalid_pair_digits (c1 c2 : Z) :
  repeatsFive c1 c2 \/ doubles c1 c2 ->
  exists d1 d2, arabicDigit c1 = Some d1 /\ arabicDigit c2 = Some d2
                /\ arabicInvalid d1 d2 = true.
Proof.
  intros [[-> [-> | [-> | ->]]] | [[-> ->] | [[-> ->] | [-> ->]]]].
  - exists 5%float, 5%float. repeat split; reflexivity.
  - exists 50%float, 50%float. repeat split; reflexivity.
  - exists 500%float, 500%float. repeat split; reflexivity.
  - exists 5%float, 10%float. repeat split; reflexivity.
  - exists 50%float, 100%float. repeat split; reflexivity.
  - exists 500%float, 1000%float. repeat split; reflexivity.
Qed.

(** C2 (as stated, refuted): [ARABIC("IIII")] returns [4], not [#VALUE!]. *)
Lemma C2_counterexample :
  ARABIC GoDecimal.FormatG [num "IIII"] = Ret ("4", None)
  /\ "4" <> formulaErrorVALUE.
Proof. split; [reflexivity | discriminate]. Qed.

(** C2 (amended): [ARABIC] returns [#VALUE!] whenever its text holds a digit
    of value 5, 50 or 500 immediately followed by itself, or a digit
    immediately followed by the digit of twice its value; [ARABIC("IIII")]
    and [ARABIC("IV")] both return [4]. *)
Theorem C2_arabic_validation
    (FormatG : float -> string) (arg : Token) (pre post : list Z) (c1 c2 : Z) :
  runes (TValue arg) = pre ++ c1 :: c2 :: post ->
  repeatsFive c1 c2 \/ doubles c1 c2 ->
  FormatG 4%float = "4" ->
  ARABIC FormatG [arg] = Ret (formulaErrorVALUE, None)
  /\ ARABIC FormatG [num "IIII"] = Ret ("4", None)
  /\ ARABIC FormatG [num "IV"] = Ret ("4", None).
Proof.
  intros Hrunes Hpair F4. repeat split.
  - destruct (invalid_pair_digits c1 c2 Hpair) as (d1 & d2 & H1 & H2 & Hbad).
    unfold ARABIC. rewrite Hrunes.
    now rewrite (arabicLoop_within pre c1 c2 d1 d2 post H1 H2 Hbad).
  - vm_compute. now rewrite F4.
  - vm_compute. now rewrite F4.
Qed.

Lemma C2_arabic_validation_witness :
  ARABIC GoDecimal.FormatG [num "MVV"] = Ret (formulaErrorVALUE, None)
  /\ ARABIC GoDecimal.FormatG [num "IIII"] = Ret ("4", None)
  /\ ARABIC GoDecimal.FormatG [num "IV"] = Ret ("4", None).
Proof.
  apply (C2_arabic_validation GoDecimal.FormatG (num "MVV") [rune "M"] [] (rune "V") (rune "V")).
  - reflexivity.
  - left. split; [reflexivity | left; reflexivity].
  - reflexivity.
Defined.

(** *** Ranges across sheets *)

Section RangeResolver.
Variable GetCellValue : string -> string -> string * option error.
Hypothesis GetCellValue_ok : forall sheet cell, snd (GetCellValue sheet cell) = None.

Lemma resolveCell_ok (sheet : string) (col row : Z) (filter : gmap string string) :
  validCoordinates col row ->
  exists filter', resolveCell GetCellValue sheet col row filter = (filter', None).
Proof.
  intros [[Hc1 Hc2] [Hr1 Hr2]]. unfold resolveCell, CoordinatesToCellName.
  replace ((col <? 1) || (row <? 1) || (TotalColumns <? col) || (TotalRows <? row)) with false
    by (symmetry; repeat (apply orb_false_intro); apply Z.ltb_ge; lia).
  pose proof (GetCellValue_ok sheet (fst (ColumnNumberToName col) +:+ Itoa row)) as H.
  destruct (GetCellValue sheet (fst (ColumnNumberToName col) +:+ Itoa row)) as [v err].
  cbn in H. subst err. eauto.
Qed.

Lemma resolveRows_ok (sheet : string) (col : Z) (rows : list Z) :
  Forall (validCoordinates col) rows ->
  forall filter err, exists filter',
    resolveRows GetCellValue sheet col rows filter err
    = inl (filter', match rows with [] => err | _ => None end).
Proof.
  induction 1 as [|row rows Hrow Hrows IH]; intros filter err; [cbn; eauto|].
  cbn [resolveRows].
  destruct (resolveCell_ok sheet col row filter Hrow) as [f1 ->].
  destruct (IH f1 None) as [f2 ->]. exists f2. now destruct rows.
Qed.

Lemma resolveCols_ok (sheet : string) (cols rows : list Z) :
  rows <> [] ->
  Forall (fun col => Forall (validCoordinates col) rows) cols ->
  forall filter err, exists filter',
    resolveCols GetCellValue sheet cols rows filter err
    = inl (filter', match cols with [] => err | _ => None end).
Proof.
  intros Hne. induction 1 as [|col cols Hcol Hcols IH]; intros filter err; [cbn; eauto|].
  cbn [resolveCols].
  destruct (resolveRows_ok sheet col rows Hcol filter err) as [f1 ->].
  destruct rows as [|r rows]; [congruence|].
  destruct (IH f1 None) as [f2 ->]. exists f2. now destruct cols.
Qed.

Lemma resolveRange_ok (cr : cellRange) :
  validCoordinates (Col (From cr)) (Row (From cr)) ->
  validCoordinates (Col (To cr)) (Row (To cr)) ->
  exists filter', resolveRanges GetCellValue [cr] ∅ None = inl (filter', None).
Proof.
  intros [[Hc1 Hc2] [Hr1 Hr2]] [[Hc3 Hc4] [Hr3 Hr4]].
  cbn [resolveRanges sortCoordinates].
  set (err := if negb (Sheet (From cr) =s Sheet (To cr)) then _ else _).
  set (c0 := Z.min (Col (From cr)) (Col (To cr))).
  set (c1 := Z.max (Col (From cr)) (Col (To cr))).
  set (r0 := Z.min (Row (From cr)) (Row (To cr))).
  set (r1 := Z.max (Row (From cr)) (Row (To cr))).
  assert (Hrows : seqZ r0 (r1 - r0 + 1) <> []).
  { rewrite seqZ_cons by lia. discriminate. }
  assert (Hall : Forall (fun col => Forall (validCoordinates col) (seqZ r0 (r1 - r0 + 1)))
                   (seqZ c0 (c1 - c0 + 1))).
  { apply Forall_forall. intros col Hcol. apply Forall_forall. intros row Hrow.
    apply elem_of_seqZ in Hcol. apply elem_of_seqZ in Hrow.
    unfold validCoordinates. lia. }
  destruct (resolveCols_ok (Sheet (From cr)) _ _ Hrows Hall ∅ err) as [f1 Hf1].
  rewrite Hf1. rewrite seqZ_cons by lia. eauto.
Qed.

End RangeResolver.

(** C1 (the code at the failing inputs): the error that [rangeResolver]
    records when the two ends of a range name different sheets is overwritten
    by the next assignment to [err]: for a workbook whose cells all read
    without error, a range within the limits of the sheet is resolved with a
    nil error whatever its two sheets are, and the reference
    [Sheet1!A1:Sheet2!B2] is resolved to the values of its two cells. *)
Theorem C1_cross_sheet_range_resolved
    (GetCellValue : string -> string -> string * option error) (cr : cellRange) :
  (forall sheet cell, snd (GetCellValue sheet cell) = None) ->
  validCoordinates (Col (From cr)) (Row (From cr)) ->
  validCoordinates (Col (To cr)) (Row (To cr)) ->
  Sheet (From cr) <> Sheet (To cr) ->
  snd (rangeResolver GetCellValue [] [cr]) = None
  /\ parseReference GoDecimal.GetCellValue "Sheet1" "Sheet1!A1:Sheet2!B2"
     = (["Sheet1!A1"; "Sheet2!B2"], None).
Proof.
  intros Hok Hfrom Hto _. split; [|vm_compute; reflexivity].
  unfold rangeResolver.
  destruct (resolveRange_ok GetCellValue Hok cr Hfrom Hto) as [f1 ->].
  reflexivity.
Qed.

Lemma C1_cross_sheet_range_resolved_witness :
  snd (rangeResolver GoDecimal.GetCellValue []
         [mkCellRange (mkCellRef 1 1 "Sheet1") (mkCellRef 2 2 "Sheet2")]) = None
  /\ parseReference GoDecimal.GetCellValue "Sheet1" "Sheet1!A1:Sheet2!B2"
     = (["Sheet1!A1"; "Sheet2!B2"], None).
Proof.
  apply (C1_cross_sheet_range_resolved GoDecimal.GetCellValue
           (mkCellRange (mkCellRef 1 1 "Sheet1") (mkCellRef 2 2 "Sheet2"))).
  - reflexivity.
  - unfold validCoordinates, TotalColumns, TotalRows. cbn. lia.
  - unfold validCoordinates, TotalColumns, TotalRows. cbn. lia.
  - discriminate.
Defined.

End CalcProps.

(** ** Worksheet store, shared strings and cell access *)
Module WorkbookProps.
Import GoStrings Coord Workbook.

(** *** Shared string table *)

Section SharedStrings.
Variable unmarshalSST : option string -> xlsxSST.
Variable bstrMarshal : string -> string.

Lemma setSharedString_present (f : File) (sst : xlsxSST) (s : string) (i : Z) :
  SharedStrings f = Some sst ->
  sharedStringsMap f !! s = Some i ->
  setSharedString unmarshalSST bstrMarshal f s = (f, (i, None)).
Proof.
  intros Hsst Hs. unfold setSharedString, sharedStringsReader. rewrite Hsst, Hs. reflexivity.
Qed.

Lemma setSharedString_absent (f : File) (sst : xlsxSST) (s : string) :
  SharedStrings f = Some sst ->
  sharedStringsMap f !! s = None ->
  setSharedString unmarshalSST bstrMarshal f s
  = (mkFile (checked f) (sheetMap f) (Sheet f) (XLSX f)
       (Some (mkSST (Count sst + 1) (UniqueCount sst + 1)
                (SI sst ++ [mkSI (Some (mkT s (snd (setCellStr bstrMarshal s))))])))
       (<[snd (fst (setCellStr bstrMarshal s)) := UniqueCount sst]> (sharedStringsMap f)),
     (UniqueCount sst, None)).
Proof.
  intros Hsst Hs. unfold setSharedString, sharedStringsReader. rewrite Hsst, Hs.
  destruct (setCellStr bstrMarshal s) as [[t v] space]. cbn.
  replace (UniqueCount sst + 1 - 1) with (UniqueCount sst) by lia. reflexivity.
Qed.

Lemma setCellStr_short (s : string) :
  Z.of_nat (String.length s) <= TotalCellChars ->
  snd (fst (setCellStr bstrMarshal s)) = bstrMarshal s.
Proof.
  intros Hlen. unfold setCellStr.
  replace (TotalCellChars <? Z.of_nat (String.length s)) with false
    by (symmetry; apply Z.ltb_ge; lia).
  reflexivity.
Qed.

End SharedStrings.

Section Interning.
Variable unmarshalSST : option string -> xlsxSST.
Variable bstrMarshal : string -> string.

Lemma holdsAt_app (sst sst1 : xlsxSST) (more : list xlsxSI) (i : nat) (s : string) :
  SI sst1 = SI sst ++ more -> holdsAt sst i s -> holdsAt sst1 i s.
Proof.
  intros Heq (item & t & Hi & Ht & Hs). exists item, t.
  rewrite Heq, lookup_app_l by (eapply lookup_lt_Some; exact Hi). auto.
Qed.

Lemma holdsAt_last (sst sst1 : xlsxSST) (s : string) (space : bool) :
  SI sst1 = SI sst ++ [mkSI (Some (mkT s space))] -> holdsAt sst1 (length (SI sst)) s.
Proof.
  intros Heq. exists (mkSI (Some (mkT s space))), (mkT s space).
  rewrite Heq, list_lookup_middle by reflexivity. auto.
Qed.

Lemma holdsAt_inv (sst sst1 : xlsxSST) (s0 s : string) (space : bool) (i : nat) :
  SI sst1 = SI sst ++ [mkSI (Some (mkT s0 space))] ->
  holdsAt sst1 i s -> holdsAt sst i s \/ s = s0.
Proof.
  intros Heq (item & t & Hi & Ht & Hs). rewrite Heq in Hi.
  apply lookup_app_Some in Hi as [Hi | [_ Hi]].
  - left. exists item, t. auto.
  - right. destruct (i - length (SI sst))%nat; [|discriminate].
    injection Hi as <-. cbn in Ht. injection Ht as <-. now subst s.
Qed.

Lemma indexed_absent (f : File) (sst : xlsxSST) (s : string) :
  indexed f sst -> ~ present sst s -> sharedStringsMap f !! s = None.
Proof.
  intros (_ & _ & Hsound & _) Hno.
  destruct (sharedStringsMap f !! s) as [i|] eqn:Hi; [|reflexivity].
  exfalso. apply Hno. exists (Z.to_nat i). now apply Hsound.
Qed.

(** Interning a text that is stored as it is and is not present. *)
Lemma setSharedString_fresh (f : File) (sst : xlsxSST) (s : string) :
  indexed f sst -> storedAsIs bstrMarshal s -> ~ present sst s ->
  exists f1 sst1 space,
    setSharedString unmarshalSST bstrMarshal f s = (f1, (UniqueCount sst, None))
    /\ indexed f1 sst1
    /\ SI sst1 = SI sst ++ [mkSI (Some (mkT s space))]
    /\ sharedStringsMap f1 = <[s := UniqueCount sst]> (sharedStringsMap f).
Proof.
  intros Hidx [Hshort Hesc] Hno.
  pose proof (indexed_absent f sst s Hidx Hno) as Hnone.
  destruct Hidx as (Hsst & Hcount & Hsound & Hcomplete).
  rewrite (setSharedString_absent unmarshalSST bstrMarshal f sst s Hsst Hnone).
  rewrite (setCellStr_short bstrMarshal s Hshort), Hesc.
  set (space := snd (setCellStr bstrMarshal s)).
  set (sst1 := mkSST (Count sst + 1) (UniqueCount sst + 1)
                 (SI sst ++ [mkSI (Some (mkT s space))])).
  exists (mkFile (checked f) (sheetMap f) (Sheet f) (XLSX f) (Some sst1)
            (<[s := UniqueCount sst]> (sharedStringsMap f))), sst1, space.
  split; [reflexivity|]. split; [|split; reflexivity].
  split; [reflexivity|]. split.
  { cbn [UniqueCount SI sst1]. rewrite List.length_app. cbn [length]. lia. }
  split.
  - intros s' i. cbn [sharedStringsMap]. destruct (decide (s = s')) as [<- | Hne].
    + rewrite lookup_insert_eq. intros [= <-]. split; [lia|].
      rewrite Hcount, Nat2Z.id. now apply (holdsAt_last sst sst1 s space).
    + rewrite lookup_insert_ne by exact Hne. intros Hi.
      destruct (Hsound s' i Hi) as [Hpos Hold]. split; [exact Hpos|].
      now apply (holdsAt_app sst sst1 [mkSI (Some (mkT s space))]).
  - intros s' [i Hi]. cbn [sharedStringsMap].
    destruct (holdsAt_inv sst sst1 s s' space i eq_refl Hi) as [Hold | ->].
    + apply lookup_insert_is_Some'. right. apply Hcomplete. now exists i.
    + rewrite lookup_insert_eq. eauto.
Qed.

(** Interning a text that is present. *)
Lemma setSharedString_known (f : File) (sst : xlsxSST) (s : string) :
  indexed f sst -> present sst s ->
  exists i,
    setSharedString unmarshalSST bstrMarshal f s = (f, (i, None))
    /\ 0 <= i /\ holdsAt sst (Z.to_nat i) s.
Proof.
  intros (Hsst & _ & Hsound & Hcomplete) Hs.
  destruct (Hcomplete s Hs) as [i Hi]. exists i.
  split; [now apply setSharedString_present with (sst := sst) | now apply Hsound].
Qed.

(** The plain items that [indexStrings] enters in the index. *)
Lemma indexStrings_spec (items : list xlsxSI) :
  forall i m,
    (forall s j, indexStrings items i m !! s = Some j ->
       m !! s = Some j
       \/ (i <= j /\ exists item t, items !! Z.to_nat (j - i) = Some item
                                    /\ SI_T item = Some t /\ T_Val t = s))
    /\ (forall s, is_Some (m !! s) -> is_Some (indexStrings items i m !! s))
    /\ (forall k item t, items !! k = Some item -> SI_T item = Some t ->
          is_Some (indexStrings items i m !! T_Val t)).
Proof.
  induction items as [|x items IH]; intros i m; cbn [indexStrings].
  - split; [auto|]. split; [auto|]. intros k item t Hk. discriminate.
  - set (m1 := match SI_T x with Some t => <[T_Val t := i]> m | None => m end).
    destruct (IH (i + 1) m1) as (Hsound & Hkeep & Hall).
    assert (Hm1 : forall s, is_Some (m !! s) -> is_Some (m1 !! s)).
    { intros s Hs. subst m1. destruct (SI_T x); [|exact Hs].
      apply lookup_insert_is_Some'. now right. }
    split; [|split].
    + intros s j Hj. destruct (Hsound s j Hj) as [Hold | (Hle & item & t & Hk & Ht & Hs)].
      * subst m1. destruct (SI_T x) as [t|] eqn:Hx; [|now left].
        destruct (decide (T_Val t = s)) as [Heq | Hne].
        -- rewrite Heq, lookup_insert_eq in Hold. injection Hold as <-.
           right. split; [lia|]. exists x, t.
           replace (Z.to_nat (i - i)) with 0%nat by lia. auto.
        -- rewrite lookup_insert_ne in Hold by exact Hne. now left.
      * right. split; [lia|]. exists item, t.
        replace (Z.to_nat (j - i)) with (S (Z.to_nat (j - (i + 1)))) by lia. auto.
    + intros s Hs. apply Hkeep, Hm1, Hs.
    + intros k item t Hk Ht. destruct k as [|k].
      * cbn in Hk. injection Hk as <-. apply Hkeep. subst m1. rewrite Ht.
        rewrite lookup_insert_eq. eauto.
      * apply (Hall k item t Hk Ht).
Qed.

Lemma truncate_bound (n : nat) (s : string) : (String.length (truncate n s) <= n)%nat.
Proof.
  revert s. induction n as [|n IH]; intros [|c s]; cbn; try lia.
  specialize (IH s). lia.
Qed.

(** A text longer than a cell holds is entered in the index under the
    bytes kept of it, and is not found there when it is interned again. *)
Lemma setSharedString_long (s : string) :
  TotalCellChars < Z.of_nat (String.length s) ->
  let f := fileOf ∅ ∅ (mkSST 0 0 []) ∅ in
  let '(f1, r1) := setSharedString unmarshalSST (fun s => s) f s in
  let '(f2, r2) := setSharedString unmarshalSST (fun s => s) f1 s in
  r1 = (0, None) /\ r2 = (1, None)
  /\ option_map (fun sst => List.map (fun item => option_map T_Val (SI_T item)) (SI sst))
       (SharedStrings f2)
     = Some [Some s; Some s].
Proof.
  intros Hlong f.
  assert (Hkey : snd (fst (setCellStr (fun s => s) s)) = truncate (Z.to_nat TotalCellChars) s).
  { unfold setCellStr. apply Z.ltb_lt in Hlong. now rewrite Hlong. }
  assert (Hne : truncate (Z.to_nat TotalCellChars) s <> s).
  { intros Heq. pose proof (truncate_bound (Z.to_nat TotalCellChars) s) as Hb.
    rewrite Heq in Hb. unfold TotalCellChars in *. lia. }
  rewrite (setSharedString_absent unmarshalSST (fun s => s) f (mkSST 0 0 []) s eq_refl)
    by apply lookup_empty.
  rewrite Hkey.
  set (f1 := mkFile _ _ _ _ _ _).
  rewrite (setSharedString_absent unmarshalSST (fun s => s) f1 _ s eq_refl)
    by (cbn [sharedStringsMap f1]; rewrite lookup_insert_ne by exact Hne; apply lookup_empty).
  repeat split.
Qed.

Lemma longText_length : TotalCellChars < Z.of_nat (String.length longText).
Proof.
  assert (Hlen : forall l, String.length (string_of_list_ascii l) = length l)
    by (induction l as [|c l IH]; cbn; congruence).
  unfold longText. rewrite Hlen, List.repeat_length, Z2Nat.id; unfold TotalCellChars; lia.
Qed.

End Interning.




(** *** Reading a cell that was never written *)

Section Reading.
Variable ToUpper : string -> string.
Variable trimSheetName : string -> string.
Variable unmarshalWorksheet : option string -> xlsxWorksheet.

Lemma findCell_none (fn : xlsxC -> string * bool * option error) (axis : string)
    (cells : list xlsxC) :
  (forall c, In c cells -> C_R c <> axis) -> findCell fn axis cells = None.
Proof.
  induction cells as [|c cells IH]; intros Hall; [reflexivity|].
  cbn [findCell].
  destruct (String.eqb_spec axis (C_R c)) as [Heq | Hne].
  - exfalso. apply (Hall c); [now left | now symmetry].
  - cbn. apply IH. intros c' Hin. apply Hall. now right.
Qed.

Lemma findRow_none (fn : xlsxC -> string * bool * option error) (axis : string) (row : Z)
    (rows : list xlsxRow) :
  (forall r c, In r rows -> Row_R r = row -> In c (Row_C r) -> C_R c <> axis) ->
  findRow fn axis row rows = (EmptyString, None).
Proof.
  induction rows as [|r rows IH]; intros Hall; [reflexivity|].
  cbn [findRow].
  assert (Hrest : findRow fn axis row rows = (EmptyString, None)).
  { apply IH. intros r' c Hin. apply Hall. now right. }
  destruct (Z.eqb_spec (Row_R r) row) as [Heq | Hne]; cbn; [|exact Hrest].
  rewrite findCell_none; [exact Hrest|].
  intros c Hin. apply (Hall r c); [now left | exact Heq | exact Hin].
Qed.

Lemma getCellStringFunc_unwritten
    (fn : File -> xlsxWorksheet -> xlsxC -> string * bool * option error)
    (f f1 : File) (sheet axis axis1 : string) (ws ws1 : xlsxWorksheet) (col row : Z) :
  workSheetReader trimSheetName unmarshalWorksheet f sheet = Ret (f1, Some ws, None) ->
  mergeCellsParser ToUpper ws axis = (ws1, (axis1, None)) ->
  CellNameToCoordinates axis1 = (col, row, None) ->
  lastRowNum ws1 < row \/ noStoredCell ws1 row axis1 ->
  exists f2,
    getCellStringFunc ToUpper trimSheetName unmarshalWorksheet f sheet axis fn
    = Ret (f2, (EmptyString, None)).
Proof.
  intros Hload Hmerge Hcoord Hunwritten. unfold getCellStringFunc.
  rewrite Hload. cbn [go_bind]. rewrite Hmerge, Hcoord.
  destruct (lastRowNum ws1 <? row) eqn:Hlast; [eexists; reflexivity|].
  destruct Hunwritten as [Hlt | Hnone]; [apply Z.ltb_ge in Hlast; lia|].
  rewrite findRow_none; [eexists; reflexivity | exact Hnone].
Qed.

End Reading.

(** C10 (as stated, refuted): B2 is a valid cell name, its row 2 exceeds the
    last stored row 1 and no stored cell is named B2, yet reading its formula
    returns the formula of A1, the anchor of the merged cell that holds B2.
    And C7 is a valid cell name that no row of a worksheet without rows
    stores, yet reading it fails when a merged cell of the worksheet carries
    the reference [A:B1]: the search among the merged cells reports that
    reference as invalid. *)
Lemma C10_counterexample :
  (CellNameToCoordinates "B2" = (2, 2, None)
   /\ lastRowNum mergedSheet = 1
   /\ noStoredCell mergedSheet 2 "B2"
   /\ GetCellFormula ToUpperASCII (fun s => s) (fun _ => mkWorksheet [] None) mergedFile
        "Sheet1" "B2"
      = Ret (mergedFile, ("1+1", None))
   /\ "1+1" <> EmptyString)
  /\ (CellNameToCoordinates "C7" = (3, 7, None)
      /\ lastRowNum brokenMergeSheet = 0
      /\ noStoredCell brokenMergeSheet 7 "C7"
      /\ GetCellValue ToUpperASCII (fun s => s) (fun _ => mkWorksheet [] None)
           (fun _ c => (C_V c, None)) brokenMergeFile "Sheet1" "C7"
         = Ret (brokenMergeFile, (EmptyString, Some (ErrInvalidCellName "A:B1")))
      /\ GetCellFormula ToUpperASCII (fun s => s) (fun _ => mkWorksheet [] None)
           brokenMergeFile "Sheet1" "C7"
         = Ret (brokenMergeFile, (EmptyString, Some (ErrInvalidCellName "A:B1")))).
Proof.
  split.
  - repeat split; try reflexivity; try discriminate.
    intros r c [<- | []] Hrow. discriminate.
  - repeat split; try reflexivity. intros r c [].
Qed.

(** C10 (amended): in a worksheet that loads, let the search of the cell
    name among the merged cells report no error, and let the name it gives,
    which is the cell name upper-cased and replaced by the anchor of the
    merged cells that hold it, be a valid cell name; if its row number
    exceeds the number of the last stored row, or no stored cell of a row
    with that number carries that name, then [GetCellValue] and
    [GetCellFormula] return the empty text and a nil error. *)
Theorem C10_unwritten_cell_reads_empty
    (ToUpper : string -> string) (trimSheetName : string -> string) (unmarshalWorksheet : option string -> xlsxWorksheet)
    (getValueFrom : File -> xlsxC -> string * option error)
    (f f1 : File) (sheet axis axis1 : string) (ws ws1 : xlsxWorksheet) (col row : Z) :
  workSheetReader trimSheetName unmarshalWorksheet f sheet = Ret (f1, Some ws, None) ->
  mergeCellsParser ToUpper ws axis = (ws1, (axis1, None)) ->
  CellNameToCoordinates axis1 = (col, row, None) ->
  lastRowNum ws1 < row \/ noStoredCell ws1 row axis1 ->
  (exists f2, GetCellValue ToUpper trimSheetName unmarshalWorksheet getValueFrom f sheet axis
              = Ret (f2, (EmptyString, None)))
  /\ (exists f2, GetCellFormula ToUpper trimSheetName unmarshalWorksheet f sheet axis
                 = Ret (f2, (EmptyString, None))).
Proof.
  intros Hload Hmerge Hcoord Hunwritten. split.
  - unfold GetCellValue.
    now apply getCellStringFunc_unwritten with (f1 := f1) (axis1 := axis1) (ws := ws)
      (ws1 := ws1) (col := col) (row := row).
  - unfold GetCellFormula.
    now apply getCellStringFunc_unwritten with (f1 := f1) (axis1 := axis1) (ws := ws)
      (ws1 := ws1) (col := col) (row := row).
Qed.

Lemma C10_unwritten_cell_reads_empty_witness :
  (exists f2, GetCellValue ToUpperASCII (fun s => s) (fun _ => mkWorksheet [] None)
                (fun _ c => (C_V c, None)) mergedFile "Sheet1" "c7"
              = Ret (f2, (EmptyString, None)))
  /\ (exists f2, GetCellFormula ToUpperASCII (fun s => s) (fun _ => mkWorksheet [] None)
                   mergedFile "Sheet1" "c7"
                 = Ret (f2, (EmptyString, None))).
Proof.
  apply (C10_unwritten_cell_reads_empty ToUpperASCII (fun s => s) (fun _ => mkWorksheet [] None)
           (fun _ c => (C_V c, None)) mergedFile mergedFile "Sheet1" "c7" "C7"
           mergedSheet mergedSheet 3 7).
  - reflexivity.
  - reflexivity.
  - reflexivity.
  - left. unfold lastRowNum. cbn. lia.
Defined.

(** *** Shared formulas *)

(** C4 (the code at the failing input): with the master [=LOG10(A1)] on C1
    shared over C1:C5, reading the formula of C3 returns [=LOG12(A3)]: the
    scan of [parseSharedFormula] takes the function name LOG10 for a cell
    reference and shifts its digits with the row. References proper are
    shifted as the claim says: the master [=A1+B1] reads [=A3+B3] on C3. *)
Theorem C4_shared_formula_shifts_function_name :
  GetCellFormula ToUpperASCII (fun s => s) (fun _ => mkWorksheet [] None)
    (sharedFile "=LOG10(A1)") "Sheet1" "C3"
  = Ret (sharedFile "=LOG10(A1)", ("=LOG12(A3)", None))
  /\ GetCellFormula ToUpperASCII (fun s => s) (fun _ => mkWorksheet [] None)
       (sharedFile "=A1+B1") "Sheet1" "C3"
     = Ret (sharedFile "=A1+B1", ("=A3+B3", None))
  /\ shiftCell "A1" 1 2 = "B3".
Proof. repeat split; vm_compute; reflexivity. Qed.

End WorkbookProps.

(** *** Densification *)
Module DenseProps.
Import GoStrings Coord Workbook CoordProps.

(** Strictly increasing lists of integers. *)

Lemma sorted_tail_above (x : Z) (l : list Z) :
  StronglySorted Z.lt (x :: l) -> Forall (fun y => x + 1 <= y) l.
Proof.
  intros H. apply StronglySorted_inv in H as [_ H].
  eapply List.Forall_impl; [|exact H]. cbn. intros y Hy. lia.
Qed.

Lemma sorted_last_ge (l : list Z) :
  forall b d, StronglySorted Z.lt l -> Forall (fun y => b <= y) l -> l <> [] ->
  b + Z.of_nat (length l) - 1 <= List.last l d.
Proof.
  induction l as [|x l IH]; intros b d Hs Hb Hne; [congruence|].
  destruct l as [|y l].
  - cbn. inversion Hb; subst. lia.
  - pose proof (sorted_tail_above x (y :: l) Hs) as Habove.
    apply StronglySorted_inv in Hs as [Hs _].
    specialize (IH (x + 1) d Hs Habove ltac:(discriminate)).
    inversion Hb; subst.
    change (List.last (x :: y :: l) d) with (List.last (y :: l) d).
    cbn [length] in *. lia.
Qed.

Lemma sorted_full (l : list Z) :
  forall b d, StronglySorted Z.lt l -> Forall (fun y => b <= y) l -> l <> [] ->
  List.last l d = b + Z.of_nat (length l) - 1 ->
  l = seqZ b (Z.of_nat (length l)).
Proof.
  induction l as [|x l IH]; intros b d Hs Hb Hne Hlast; [congruence|].
  pose proof (sorted_tail_above x l Hs) as Habove.
  pose proof Hs as Hs'. apply StronglySorted_inv in Hs' as [Hsl _].
  inversion Hb as [|? ? Hbx Hbl]; subst.
  destruct l as [|y l].
  - cbn in Hlast. cbn. replace x with b by lia. reflexivity.
  - change (List.last (x :: y :: l) d) with (List.last (y :: l) d) in Hlast.
    pose proof (sorted_last_ge (y :: l) (x + 1) d Hsl Habove ltac:(discriminate)) as Hge.
    assert (x = b) by (cbn [length] in *; lia). subst x.
    rewrite seqZ_cons by (cbn [length]; lia).
    f_equal.
    replace (Z.pred (Z.of_nat (length (b :: y :: l)))) with (Z.of_nat (length (y :: l)))
      by (cbn [length]; lia).
    apply (IH (Z.succ b) d Hsl); [| discriminate | cbn [length] in *; lia].
    eapply List.Forall_impl; [|exact Habove]. cbn. intros z Hz. lia.
Qed.

Lemma sorted_le_last (l : list Z) :
  forall d x, StronglySorted Z.lt l -> In x l -> x <= List.last l d.
Proof.
  induction l as [|y l IH]; intros d x Hs Hin; [contradiction|].
  destruct l as [|z l].
  - destruct Hin as [-> | []]. cbn. lia.
  - change (List.last (y :: z :: l) d) with (List.last (z :: l) d).
    pose proof Hs as Hs'. apply StronglySorted_inv in Hs' as [Hsl Hall].
    destruct Hin as [-> | Hin]; [|now apply IH].
    rewrite List.Forall_forall in Hall.
    assert (x < z) by (apply Hall; now left).
    specialize (IH d z Hsl ltac:(now left)). lia.
Qed.

Lemma sorted_NoDup (l : list Z) : StronglySorted Z.lt l -> NoDup l.
Proof.
  induction 1 as [|x l Hs IH Hall]; [constructor|].
  apply NoDup_cons_2; [|exact IH].
  intros Hin%list_elem_of_In. rewrite List.Forall_forall in Hall. specialize (Hall x Hin). lia.
Qed.

(** The index of the stored rows built by [checkSheet]. *)

Lemma indexRows_other (rows : list xlsxRow) :
  forall k m key, ~ In key (List.map Row_R rows) -> indexRows rows k m !! key = m !! key.
Proof.
  induction rows as [|r rows IH]; intros k m key Hnot; [reflexivity|].
  cbn [indexRows]. rewrite IH by (intros Hin; apply Hnot; now right).
  apply lookup_insert_ne. intros Heq. apply Hnot. now left.
Qed.

Lemma indexRows_stored (rows : list xlsxRow) :
  forall k m j r, NoDup (List.map Row_R rows) -> rows !! j = Some r ->
  indexRows rows k m !! Row_R r = Some (k + j)%nat.
Proof.
  induction rows as [|r0 rows IH]; intros k m j r Hnd Hj; [discriminate|].
  cbn [List.map] in Hnd. apply NoDup_cons in Hnd as [Hnot Hnd].
  cbn [indexRows]. destruct j as [|j].
  - cbn in Hj. injection Hj as ->.
    rewrite indexRows_other by (intros Hin; apply Hnot; now apply list_elem_of_In).
    rewrite lookup_insert_eq. f_equal. lia.
  - cbn in Hj. rewrite (IH (S k) _ j r Hnd Hj). f_equal. lia.
Qed.

Lemma indexRows_found (rows : list xlsxRow) :
  forall k m key i, indexRows rows k m !! key = Some i ->
  m !! key = Some i
  \/ exists j r, i = (k + j)%nat /\ rows !! j = Some r /\ Row_R r = key.
Proof.
  induction rows as [|r0 rows IH]; intros k m key i Hi; [now left|].
  cbn [indexRows] in Hi. apply IH in Hi as [Hi | (j & r & -> & Hj & Hr)].
  - destruct (Z.eq_dec (Row_R r0) key) as [Heq | Hne].
    + subst key. rewrite lookup_insert_eq in Hi. injection Hi as <-.
      right. exists 0%nat, r0. repeat split. lia.
    + rewrite lookup_insert_ne in Hi by exact Hne. now left.
  - right. exists (S j), r. repeat split; [lia | exact Hj | exact Hr].
Qed.

Lemma placedRow_stored (rows : list xlsxRow) (j : nat) (r : xlsxRow) :
  NoDup (List.map Row_R rows) -> rows !! j = Some r -> placedRow rows (Row_R r - 1) = r.
Proof.
  intros Hnd Hj. unfold placedRow.
  replace (Row_R r - 1 + 1) with (Row_R r) by lia.
  rewrite (indexRows_stored rows 0 ∅ j r Hnd Hj). cbn.
  now apply nth_lookup_Some.
Qed.

Lemma placedRow_cases (rows : list xlsxRow) (i : Z) :
  placedRow rows i = blankRow (i + 1)
  \/ (In (placedRow rows i) rows /\ Row_R (placedRow rows i) = i + 1).
Proof.
  unfold placedRow. destruct (indexRows rows 0 ∅ !! (i + 1)) as [k|] eqn:Hk; [|now left].
  apply indexRows_found in Hk as [Hk | (j & r & -> & Hj & Hr)]; [discriminate|].
  right. cbn. rewrite (nth_lookup_Some _ _ _ _ Hj).
  split; [|exact Hr]. apply list_elem_of_In. eapply list_elem_of_lookup_2. exact Hj.
Qed.

Lemma last_lookup_nonempty (rows : list xlsxRow) (d : xlsxRow) :
  rows <> [] -> In (List.last rows d) rows.
Proof.
  induction rows as [|r rows IH]; [congruence|]. intros _.
  destruct rows as [|r' rows]; [now left|].
  right. change (List.last (r :: r' :: rows) d) with (List.last (r' :: rows) d).
  apply IH. discriminate.
Qed.

Lemma last_map_Row_R (rows : list xlsxRow) (d : xlsxRow) :
  List.last (List.map Row_R rows) (Row_R d) = Row_R (List.last rows d).
Proof.
  induction rows as [|r rows IH]; [reflexivity|].
  destruct rows as [|r' rows]; [reflexivity|]. exact IH.
Qed.

(** [checkSheet] when the number of the last row is at least the number of
    rows stored. *)
Lemma checkSheet_rows (ws : xlsxWorksheet) :
  (SheetData ws <> [] ->
   Z.of_nat (length (SheetData ws)) <= Row_R (List.last (SheetData ws) (blankRow 0))) ->
  checkSheet ws
  = mkWorksheet (List.map (placedRow (SheetData ws)) (seqZ 0 (lastRowNum ws))) (MergeCells ws).
Proof.
  intros Hge. unfold checkSheet, lastRowNum. fold (placedRow (SheetData ws)).
  destruct (SheetData ws) as [|r rows] eqn:Hrows; [reflexivity|].
  set (all := r :: rows) in *. specialize (Hge ltac:(discriminate)).
  replace (1 <=? Z.of_nat (length all)) with true
    by (symmetry; apply Z.leb_le; subst all; cbn [length]; lia).
  replace (Z.of_nat (length all) <=? Row_R (List.last all (blankRow 0))) with true
    by (symmetry; now apply Z.leb_le).
  replace (0 <? length all)%nat with true by (subst all; reflexivity).
  reflexivity.
Qed.

Lemma sorted_rows_count (rows : list xlsxRow) :
  StronglySorted Z.lt (List.map Row_R rows) ->
  Forall (fun r => 1 <= Row_R r) rows ->
  rows <> [] ->
  Z.of_nat (length rows) <= Row_R (List.last rows (blankRow 0)).
Proof.
  intros Hs Hpos Hne.
  rewrite <- last_map_Row_R, <- (length_map Row_R).
  pose proof (sorted_last_ge (List.map Row_R rows) 1 (Row_R (blankRow 0)) Hs) as H.
  assert (Hall : Forall (fun y => 1 <= y) (List.map Row_R rows)).
  { apply List.Forall_map. exact Hpos. }
  assert (Hne' : List.map Row_R rows <> []) by (destruct rows; [congruence | discriminate]).
  specialize (H Hall Hne'). lia.
Qed.

(** [checkRow] on one row. *)

Lemma map_fmap {A B : Type} (f : A -> B) (l : list A) : List.map f l = f <$> l.
Proof. induction l as [|x l IH]; [reflexivity|]. cbn. now rewrite IH. Qed.

Lemma fillReferences_named (rowIdx R : Z) (cells : list xlsxC) :
  forall cols rCount,
    1 <= R <= TotalRows ->
    Forall (fun col => 1 <= col <= TotalColumns) cols ->
    List.map C_R cells = List.map (fun col => cellName col R) cols ->
    fillReferences rowIdx cells rCount = (cells, None).
Proof.
  induction cells as [|cell cells IH]; intros cols rCount HR Hcols Hnames; [reflexivity|].
  destruct cols as [|col cols]; [discriminate|].
  cbn [List.map] in Hnames. injection Hnames as Hname Hnames.
  inversion Hcols as [|? ? Hcol Hcols']; subst.
  cbn [fillReferences]. rewrite Hname.
  rewrite (cellName_nonempty col R Hcol HR). cbn [negb].
  rewrite (CellNameToCoordinates_cellName col R Hcol HR).
  now rewrite (IH cols _ HR Hcols' Hnames).
Qed.

Lemma last_named (R : Z) (cells : list xlsxC) :
  forall cols d d', cells <> [] ->
    List.map C_R cells = List.map (fun col => cellName col R) cols ->
    C_R (List.last cells d) = cellName (List.last cols d') R.
Proof.
  induction cells as [|cell cells IH]; intros cols d d' Hne Hnames; [congruence|].
  destruct cols as [|col cols]; [discriminate|].
  cbn [List.map] in Hnames. injection Hnames as Hname Hnames.
  destruct cells as [|cell' cells].
  - destruct cols; [|discriminate]. exact Hname.
  - destruct cols as [|col' cols]; [discriminate|].
    change (List.last (cell :: cell' :: cells) d) with (List.last (cell' :: cells) d).
    change (List.last (col :: col' :: cols) d') with (List.last (col' :: cols) d').
    apply IH; [discriminate | exact Hnames].
Qed.

Lemma blankCells_valid (rowIdx : Z) (idxs : list Z) :
  1 <= rowIdx + 1 <= TotalRows ->
  Forall (fun i => 1 <= i + 1 <= TotalColumns) idxs ->
  blankCells rowIdx idxs
  = inl (List.map (fun i => blankCell (cellName (i + 1) (rowIdx + 1))) idxs).
Proof.
  intros HR. induction 1 as [|i idxs Hi Hrest IH]; [reflexivity|].
  cbn [blankCells List.map]. rewrite (CoordinatesToCellName_valid _ _ Hi HR).
  now rewrite IH.
Qed.

Lemma placeCells_spec (R : Z) (old : list xlsxC) :
  forall cols cells,
    1 <= R <= TotalRows ->
    List.map C_R old = List.map (fun col => cellName col R) cols ->
    Forall (fun col => 1 <= col <= TotalColumns /\ col <= Z.of_nat (length cells)) cols ->
    NoDup cols ->
    exists cells',
      placeCells old cells = Ret (cells', None)
      /\ length cells' = length cells
      /\ (forall i c col, old !! i = Some c -> cols !! i = Some col ->
          cells' !! Z.to_nat (col - 1) = Some c)
      /\ (forall j, (forall col, In col cols -> Z.to_nat (col - 1) <> j) ->
          cells' !! j = cells !! j).
Proof.
  induction old as [|c0 old IH]; intros cols cells HR Hnames Hcols Hnd.
  - exists cells. split; [reflexivity|]. split; [reflexivity|]. split.
    + intros i c col Hi. discriminate.
    + reflexivity.
  - destruct cols as [|col0 cols]; [discriminate|].
    cbn [List.map] in Hnames. injection Hnames as Hname Hnames.
    inversion Hcols as [|? ? [Hcol0 Hlen0] Hcols']; subst.
    apply NoDup_cons in Hnd as [Hnot Hnd].
    cbn [placeCells]. rewrite Hname, (CellNameToCoordinates_cellName col0 R Hcol0 HR).
    replace ((col0 - 1 <? 0) || (Z.of_nat (length cells) <=? col0 - 1)) with false
      by (symmetry; apply orb_false_intro; [apply Z.ltb_ge | apply Z.leb_gt]; lia).
    set (cells1 := <[Z.to_nat (col0 - 1) := c0]> cells).
    assert (Hlen1 : length cells1 = length cells) by apply length_insert.
    destruct (IH cols cells1 HR Hnames) as (cells' & Hrun & Hlen & Hkept & Hother).
    { rewrite Hlen1. exact Hcols'. }
    { exact Hnd. }
    exists cells'. split; [exact Hrun|]. split; [congruence|]. split.
    + intros i c col Hi Hcol. destruct i as [|i].
      * cbn in Hi, Hcol. injection Hi as <-. injection Hcol as <-.
        rewrite Hother.
        -- apply list_lookup_insert_eq. lia.
        -- intros col Hin Heq. apply Hnot. apply list_elem_of_In.
           rewrite List.Forall_forall in Hcols'. specialize (Hcols' col Hin).
           assert (col = col0) by lia. now subst.
      * cbn in Hi, Hcol. now apply (Hkept i).
    + intros j Hj. rewrite Hother by (intros col Hin; apply Hj; now right).
      apply list_lookup_insert_ne. apply Hj. now left.
Qed.

Lemma last_seqZ (m n d : Z) : 0 < n -> List.last (seqZ m n) d = m + n - 1.
Proof.
  intros Hn. replace n with ((n - 1) + 1) at 1 by lia.
  rewrite seqZ_app by lia. rewrite (seqZ_cons _ 1) by lia.
  change (Z.pred 1) with 0. rewrite (seqZ_nil _ 0) by lia.
  rewrite List.last_last. lia.
Qed.

Lemma names_lookup (R : Z) (cells : list xlsxC) :
  forall cols i c,
    List.map C_R cells = List.map (fun col => cellName col R) cols ->
    cells !! i = Some c ->
    exists col, cols !! i = Some col /\ C_R c = cellName col R.
Proof.
  induction cells as [|cell cells IH]; intros cols i c Hnames Hi; [discriminate|].
  destruct cols as [|col cols]; [discriminate|].
  cbn [List.map] in Hnames. injection Hnames as Hname Hnames.
  destruct i as [|i].
  - cbn in Hi. injection Hi as <-. exists col. now split.
  - cbn in Hi. now apply (IH cols i c).
Qed.

Lemma names_length (R : Z) (cells : list xlsxC) (cols : list Z) :
  List.map C_R cells = List.map (fun col => cellName col R) cols ->
  length cells = length cols.
Proof. intros H. apply (f_equal (@length _)) in H. now rewrite !length_map in H. Qed.

Lemma record_row (r : xlsxRow) : mkRow (Row_R r) (Row_C r) = r.
Proof. now destruct r. Qed.

(** A row without a gap is left as it is. *)
Lemma checkRowData_dense (rowIdx : Z) (r : xlsxRow) :
  denseRow r ->
  Z.of_nat (length (Row_C r)) <= TotalColumns ->
  Row_R r = rowIdx + 1 ->
  1 <= Row_R r <= TotalRows ->
  checkRowData rowIdx r = Ret (r, None).
Proof.
  intros Hdense Hlen Hidx HR. unfold checkRowData.
  destruct (Z.eqb_spec (Z.of_nat (length (Row_C r))) 0) as [Hz | Hnz]; [reflexivity|].
  set (L := Z.of_nat (length (Row_C r))) in *.
  assert (Hcols : Forall (fun col => 1 <= col <= TotalColumns) (seqZ 1 L)).
  { apply List.Forall_forall. intros col Hin%list_elem_of_In%elem_of_seqZ. lia. }
  rewrite (fillReferences_named rowIdx (Row_R r) (Row_C r) (seqZ 1 L) 0 HR Hcols Hdense).
  assert (Hne : Row_C r <> []) by (intros Hnil; apply Hnz; subst L; now rewrite Hnil).
  rewrite (last_named (Row_R r) (Row_C r) (seqZ 1 L) _ 0 Hne Hdense).
  rewrite last_seqZ by lia.
  rewrite (CellNameToCoordinates_cellName (1 + L - 1) (Row_R r)) by lia.
  replace (L <? 1 + L - 1) with false by (symmetry; apply Z.ltb_ge; lia).
  now rewrite record_row.
Qed.

(** A well-formed row is made a row without a gap that keeps its cells. *)
Lemma checkRowData_wellFormed (rowIdx : Z) (r : xlsxRow) :
  wellFormedRow r ->
  Row_R r = rowIdx + 1 ->
  1 <= Row_R r <= TotalRows ->
  exists cells',
    checkRowData rowIdx r = Ret (mkRow (Row_R r) cells', None)
    /\ denseRow (mkRow (Row_R r) cells')
    /\ Z.of_nat (length cells') = lastColumn r
    /\ Z.of_nat (length cells') <= TotalColumns
    /\ (forall c col, In c (Row_C r) -> fst (fst (CellNameToCoordinates (C_R c))) = col ->
        cells' !! Z.to_nat (col - 1) = Some c).
Proof.
  intros (cols & Hsorted & Hcols & Hnames) Hidx HR.
  pose proof (names_length _ _ _ Hnames) as Hlen.
  destruct (Row_C r) as [|cell0 cells0] eqn:Hcells.
  - exists []. unfold checkRowData, denseRow, lastColumn. rewrite Hcells. cbn.
    rewrite <- Hcells, record_row. repeat split; try reflexivity; try lia.
    unfold TotalColumns. lia.
  - rewrite <- Hcells in *.
    assert (Hne : Row_C r <> []) by (rewrite Hcells; discriminate).
    assert (Hcne : cols <> []) by (intros ->; rewrite Hcells in Hlen; discriminate).
    set (lastCol := List.last cols 0).
    assert (Hlastname : C_R (List.last (Row_C r) (blankCell "")) = cellName lastCol (Row_R r))
      by (apply last_named; assumption).
    assert (Hlastin : In lastCol cols).
    { subst lastCol. clear -Hcne. induction cols as [|x l IH]; [congruence|].
      destruct l as [|y l]; [now left|]. right. apply IH. discriminate. }
    assert (Hlastvalid : 1 <= lastCol <= TotalColumns)
      by (rewrite List.Forall_forall in Hcols; now apply Hcols).
    assert (Hcount : Z.of_nat (length cols) <= lastCol).
    { pose proof (sorted_last_ge cols 1 0 Hsorted) as H.
      assert (Hall : Forall (fun y => 1 <= y) cols)
        by (eapply List.Forall_impl; [|exact Hcols]; cbn; lia).
      specialize (H Hall Hcne). subst lastCol. lia. }
    assert (HlastColumn : lastColumn r = lastCol).
    { unfold lastColumn. rewrite Hcells at 1. rewrite Hlastname.
      now rewrite CellNameToCoordinates_cellName. }
    assert (Hparse : forall i c, Row_C r !! i = Some c ->
              exists col, cols !! i = Some col /\ 1 <= col <= TotalColumns
                          /\ fst (fst (CellNameToCoordinates (C_R c))) = col).
    { intros i c Hi. destruct (names_lookup _ _ _ _ _ Hnames Hi) as (col & Hcol & Hname).
      exists col. split; [exact Hcol|].
      assert (Hv : 1 <= col <= TotalColumns).
      { rewrite List.Forall_forall in Hcols. apply Hcols.
        apply list_elem_of_In. eapply list_elem_of_lookup_2. exact Hcol. }
      split; [exact Hv|]. rewrite Hname. now rewrite CellNameToCoordinates_cellName. }
    destruct (Z.eq_dec (Z.of_nat (length cols)) lastCol) as [Hfull | Hgap].
    + (* the row has no gap *)
      assert (Hseq : cols = seqZ 1 (Z.of_nat (length cols))).
      { apply (sorted_full cols 1 0 Hsorted); [|exact Hcne|subst lastCol; lia].
        eapply List.Forall_impl; [|exact Hcols]. cbn. lia. }
      assert (Hdense : denseRow r).
      { unfold denseRow. rewrite Hnames, Hlen. now rewrite <- Hseq. }
      exists (Row_C r). rewrite record_row.
      split; [apply checkRowData_dense; [exact Hdense | lia | exact Hidx | exact HR]|].
      split; [exact Hdense|]. split; [lia|]. split; [lia|].
      intros c col Hin%list_elem_of_In Hcol.
      apply list_elem_of_lookup_1 in Hin as [i Hi].
      destruct (Hparse i c Hi) as (col' & Hcol' & _ & Hfst).
      rewrite Hcol in Hfst. subst col'.
      rewrite Hseq in Hcol'. apply lookup_seqZ in Hcol' as [Hcol' _].
      replace (Z.to_nat (col - 1)) with i by lia. exact Hi.
    + (* the row has a gap *)
      unfold checkRowData.
      replace (Z.of_nat (length (Row_C r)) =? 0) with false
        by (symmetry; apply Z.eqb_neq; rewrite Hcells; cbn [length]; lia).
      rewrite (fillReferences_named rowIdx (Row_R r) (Row_C r) cols 0 HR Hcols Hnames).
      rewrite Hlastname, (CellNameToCoordinates_cellName lastCol (Row_R r) Hlastvalid HR).
      replace (Z.of_nat (length (Row_C r)) <? lastCol) with true
        by (symmetry; apply Z.ltb_lt; lia).
      rewrite blankCells_valid.
      2:{ lia. }
      2:{ apply List.Forall_forall. intros i Hin%list_elem_of_In%elem_of_seqZ. lia. }
      set (newlist := List.map _ (seqZ 0 lastCol)).
      assert (Hnewlen : Z.of_nat (length newlist) = lastCol).
      { subst newlist. rewrite length_map, length_seqZ. lia. }
      destruct (placeCells_spec (Row_R r) (Row_C r) cols newlist HR Hnames)
        as (cells' & Hrun & Hlen' & Hkept & Hother).
      { apply List.Forall_forall. intros col Hin. split.
        - rewrite List.Forall_forall in Hcols. now apply Hcols.
        - rewrite Hnewlen. subst lastCol. now apply sorted_le_last. }
      { now apply sorted_NoDup. }
      rewrite Hrun. cbn [go_bind]. exists cells'.
      split; [reflexivity|].
      assert (Hkeep : forall c col, In c (Row_C r) ->
                fst (fst (CellNameToCoordinates (C_R c))) = col ->
                cells' !! Z.to_nat (col - 1) = Some c).
      { intros c col Hin%list_elem_of_In Hcol.
        apply list_elem_of_lookup_1 in Hin as [i Hi].
        destruct (Hparse i c Hi) as (col' & Hcol' & _ & Hfst).
        rewrite Hcol in Hfst. subst col'.
        now apply (Hkept i). }
      split; [|split; [lia | split; [lia | exact Hkeep]]].
      (* every place carries the reference of its column *)
      unfold denseRow. cbn [Row_C Row_R]. apply list_eq. intros j.
      rewrite !map_fmap, !list_lookup_fmap.
      destruct (decide (j < length cells')%nat) as [Hj | Hj].
      2:{ rewrite lookup_ge_None_2 by lia.
          rewrite lookup_seqZ_ge by lia. reflexivity. }
      rewrite lookup_seqZ_lt by lia. cbn.
      destruct (In_dec Z.eq_dec (1 + Z.of_nat j) cols) as [Hin | Hnin].
      * apply list_elem_of_In, list_elem_of_lookup_1 in Hin as [i Hi].
        assert (Hi' : is_Some (Row_C r !! i)).
        { apply lookup_lt_is_Some. rewrite Hlen. eapply lookup_lt_Some. exact Hi. }
        destruct Hi' as [c Hc].
        destruct (names_lookup _ _ _ _ _ Hnames Hc) as (col & Hcol & Hname).
        assert (col = 1 + Z.of_nat j) by congruence. subst col.
        pose proof (Hkept i c _ Hc Hi) as Hplaced.
        replace (Z.to_nat (1 + Z.of_nat j - 1)) with j in Hplaced by lia.
        rewrite Hplaced. cbn. now rewrite Hname.
      * rewrite Hother.
        2:{ intros col Hin Heq. apply Hnin.
            rewrite List.Forall_forall in Hcols. specialize (Hcols col Hin).
            replace (1 + Z.of_nat j) with col by lia. exact Hin. }
        subst newlist. rewrite map_fmap, list_lookup_fmap.
        rewrite lookup_seqZ_lt by lia. cbn.
        replace (0 + Z.of_nat j + 1) with (1 + Z.of_nat j) by lia.
        now rewrite <- Hidx.
Qed.

(** [checkRow] on all rows. *)

Lemma checkRows_wellFormed (rows : list xlsxRow) :
  forall k,
    (forall j r, rows !! j = Some r ->
       Row_R r = k + Z.of_nat j + 1 /\ 1 <= Row_R r <= TotalRows /\ wellFormedRow r) ->
    exists rows',
      checkRows k rows = Ret (rows', None)
      /\ length rows' = length rows
      /\ forall j r, rows !! j = Some r ->
           exists r',
             rows' !! j = Some r'
             /\ Row_R r' = Row_R r
             /\ denseRow r'
             /\ Z.of_nat (length (Row_C r')) = lastColumn r
             /\ Z.of_nat (length (Row_C r')) <= TotalColumns
             /\ (forall c col, In c (Row_C r) ->
                  fst (fst (CellNameToCoordinates (C_R c))) = col ->
                  Row_C r' !! Z.to_nat (col - 1) = Some c).
Proof.
  induction rows as [|r0 rows IH]; intros k Hrows.
  - exists []. repeat split. intros j r Hj. discriminate.
  - destruct (Hrows 0%nat r0 eq_refl) as (HR0 & Hvalid0 & Hwf0).
    destruct (checkRowData_wellFormed k r0 Hwf0 ltac:(lia) Hvalid0)
      as (cells' & Hrun & Hdense & Hlast & Hbound & Hkeep).
    destruct (IH (k + 1)) as (rows' & Hruns & Hlen & Hall).
    { intros j r Hj. destruct (Hrows (S j) r Hj) as (HR & Hvalid & Hwf).
      repeat split; try assumption; lia. }
    exists (mkRow (Row_R r0) cells' :: rows').
    cbn [checkRows]. rewrite Hrun. cbn [go_bind]. rewrite Hruns. cbn [go_bind].
    split; [reflexivity|]. split; [cbn [length]; congruence|].
    intros j r Hj. destruct j as [|j].
    + cbn in Hj. injection Hj as <-. exists (mkRow (Row_R r0) cells').
      repeat split; assumption.
    + cbn in Hj. apply (Hall j r Hj).
Qed.

Lemma checkRows_dense (rows : list xlsxRow) :
  forall k,
    (forall j r, rows !! j = Some r ->
       Row_R r = k + Z.of_nat j + 1 /\ 1 <= Row_R r <= TotalRows
       /\ denseRow r /\ Z.of_nat (length (Row_C r)) <= TotalColumns) ->
    checkRows k rows = Ret (rows, None).
Proof.
  induction rows as [|r0 rows IH]; intros k Hrows; [reflexivity|].
  destruct (Hrows 0%nat r0 eq_refl) as (HR0 & Hvalid0 & Hdense0 & Hbound0).
  cbn [checkRows].
  rewrite (checkRowData_dense k r0 Hdense0 Hbound0 ltac:(lia) Hvalid0). cbn [go_bind].
  rewrite (IH (k + 1)); [reflexivity|].
  intros j r Hj. destruct (Hrows (S j) r Hj) as (HR & Hvalid & Hdense & Hbound).
  repeat split; try assumption; lia.
Qed.

(** [checkSheet] leaves a worksheet without a gap as it is. *)
Lemma checkSheet_dense (ws : xlsxWorksheet) :
  List.map Row_R (SheetData ws) = seqZ 1 (Z.of_nat (length (SheetData ws))) ->
  checkSheet ws = ws.
Proof.
  intros Hrows.
  assert (Hlast : SheetData ws <> [] ->
            Row_R (List.last (SheetData ws) (blankRow 0)) = Z.of_nat (length (SheetData ws))).
  { intros Hne. rewrite <- last_map_Row_R, Hrows.
    rewrite last_seqZ; [lia|]. destruct (SheetData ws); [congruence | cbn [length]; lia]. }
  rewrite checkSheet_rows by (intros Hne; rewrite (Hlast Hne); lia).
  assert (Hn : lastRowNum ws = Z.of_nat (length (SheetData ws))).
  { unfold lastRowNum. destruct (SheetData ws) as [|r rows] eqn:Hd; [reflexivity|].
    rewrite <- Hd in *. replace (0 <? length (SheetData ws))%nat with true
      by (rewrite Hd; reflexivity).
    apply Hlast. rewrite Hd. discriminate. }
  rewrite Hn. destruct ws as [rows merge]. cbn [SheetData MergeCells] in *. f_equal.
  assert (Hnd : NoDup (List.map Row_R rows)) by (rewrite Hrows; apply NoDup_seqZ).
  apply list_eq. intros j. rewrite map_fmap, list_lookup_fmap.
  destruct (rows !! j) as [r|] eqn:Hj.
  - pose proof (lookup_lt_Some _ _ _ Hj) as Hlt.
    rewrite lookup_seqZ_lt by lia. cbn.
    assert (HR : Row_R r = 1 + Z.of_nat j).
    { assert (H : List.map Row_R rows !! j = Some (Row_R r))
        by (rewrite map_fmap, list_lookup_fmap, Hj; reflexivity).
      rewrite Hrows in H. apply lookup_seqZ in H as [H _]. lia. }
    replace (0 + Z.of_nat j) with (Row_R r - 1) by lia.
    now rewrite (placedRow_stored rows j r Hnd Hj).
  - apply lookup_ge_None in Hj. rewrite lookup_seqZ_ge by lia. reflexivity.
Qed.

Lemma wellFormedRow_blank (R : Z) : wellFormedRow (blankRow R).
Proof. exists []. repeat split; constructor. Qed.




(** The worksheet whose only stored cell is C15 gets the rows 1 to 15, the
    last of them with the cells A15, B15 and C15. *)
Example densify_C15 :
  let ws := mkWorksheet [mkRow 15 [mkC "C15" 0 "" "7" None]] None in
  match checkRow (checkSheet ws) with
  | Ret (ws', None) =>
      List.map Row_R (SheetData ws') = seqZ 1 15
      /\ List.map Row_C (SheetData ws')
         = List.repeat [] 14 ++ [[blankCell "A15"; blankCell "B15"; mkC "C15" 0 "" "7" None]]
  | _ => False
  end.
Proof. vm_compute. split; reflexivity. Qed.

End DenseProps.

(** ** Calls, operands and functions of the calculation engine *)
Module EngineProps.
Import GoStrings GoRunes Coord Calc MathFuncs.

Section Call.
Variable ParseFloat : string -> option float.
Variable FormatG : float -> string.
Variable mathPow : float -> float -> float.
Variable mathTrunc : float -> float.
Variable GetCellValue : string -> string -> string * option error.
Variable fuel : nat.
Variable otherFuncs : string -> option (list Token -> go (string * option error)).
Variable sheet : string.

Lemma evalRound_number (v : string) (nextToken fn : Token) (opd opt opf opfd : Stack)
    (args : list Token) :
  isOperator (num v) = false ->
  evalRound ParseFloat FormatG mathPow mathTrunc GetCellValue fuel otherFuncs sheet
    (num v) nextToken (mkStacks opd opt (fn :: opf) opfd [] args)
  = Ret (inl (mkStacks opd opt (fn :: opf) (num v :: opfd) [] args)).
Proof.
  intros Hop. unfold evalRound, evalInFunction, parseToken. cbn -[isOperator].
  rewrite Hop. cbn. reflexivity.
Qed.

Lemma evalRound_comma (nextToken fn top : Token) (opd opt opf opfd : Stack)
    (args : list Token) :
  evalRound ParseFloat FormatG mathPow mathTrunc GetCellValue fuel otherFuncs sheet
    comma nextToken (mkStacks opd opt (fn :: opf) (top :: opfd) [] args)
  = Ret (inl (mkStacks opd opt (fn :: opf) opfd [] (args ++ [top]))).
Proof. reflexivity. Qed.

Lemma evalRound_stop_last (nextToken fn top : Token) (opd opt : Stack) (args : list Token) :
  evalRound ParseFloat FormatG mathPow mathTrunc GetCellValue fuel otherFuncs sheet
    funcStop nextToken (mkStacks opd opt [fn] [top] [] args)
  = callResult ParseFloat FormatG mathPow mathTrunc fuel otherFuncs fn opd opt (args ++ [top]).
Proof.
  cbv beta iota zeta delta -[callFuncByName stripName app]. reflexivity.
Qed.

Lemma evalRound_stop_none (nextToken fn : Token) (opd opt : Stack) (args : list Token) :
  evalRound ParseFloat FormatG mathPow mathTrunc GetCellValue fuel otherFuncs sheet
    funcStop nextToken (mkStacks opd opt [fn] [] [] args)
  = callResult ParseFloat FormatG mathPow mathTrunc fuel otherFuncs fn opd opt args.
Proof.
  cbv beta iota zeta delta -[callFuncByName stripName app]. reflexivity.
Qed.

Lemma evalLoop_one (token : Token) (st : stacks) :
  evalLoop ParseFloat FormatG mathPow mathTrunc GetCellValue fuel otherFuncs sheet [token] st
  = evalRound ParseFloat FormatG mathPow mathTrunc GetCellValue fuel otherFuncs sheet
      token zeroToken st.
Proof.
  cbn [evalLoop List.hd].
  destruct (evalRound _ _ _ _ _ _ _ _ _ _ _) as [[st'|out]| |]; reflexivity.
Qed.

Lemma evalLoop_cons (token : Token) (rest : list Token) (st : stacks) :
  evalLoop ParseFloat FormatG mathPow mathTrunc GetCellValue fuel otherFuncs sheet
    (token :: rest) st
  = let* r :=
      evalRound ParseFloat FormatG mathPow mathTrunc GetCellValue fuel otherFuncs sheet
        token (List.hd zeroToken rest) st in
    match r with
    | inr out => Ret (inr out)
    | inl st => evalLoop ParseFloat FormatG mathPow mathTrunc GetCellValue fuel otherFuncs sheet
                  rest st
    end.
Proof. reflexivity. Qed.

Lemma evalLoop_arguments (fn : Token) (opd opt : Stack) (vals : list string) :
  Forall (fun v => isOperator (num v) = false) vals ->
  forall args,
    evalLoop ParseFloat FormatG mathPow mathTrunc GetCellValue fuel otherFuncs sheet
      (argTokens vals ++ [funcStop]) (mkStacks opd opt [fn] [] [] args)
    = callResult ParseFloat FormatG mathPow mathTrunc fuel otherFuncs fn opd opt (args ++ List.map num vals).
Proof.
  induction 1 as [|v vals Hv Hvals IH]; intros args.
  - change (argTokens [] ++ [funcStop]) with [funcStop].
    rewrite evalLoop_one, evalRound_stop_none. cbn [List.map].
    now rewrite List.app_nil_r.
  - destruct vals as [|v' vals].
    + change (argTokens [v] ++ [funcStop]) with [num v; funcStop].
      rewrite evalLoop_cons, (evalRound_number v _ fn opd opt [] [] args Hv).
      cbn [go_bind]. rewrite evalLoop_one. apply evalRound_stop_last.
    + change (argTokens (v :: v' :: vals)) with (num v :: comma :: argTokens (v' :: vals)).
      change ((num v :: comma :: argTokens (v' :: vals)) ++ [funcStop])
        with (num v :: comma :: (argTokens (v' :: vals) ++ [funcStop])).
      rewrite evalLoop_cons, (evalRound_number v _ fn opd opt [] [] args Hv).
      cbn [go_bind]. rewrite evalLoop_cons, evalRound_comma. cbn [go_bind].
      rewrite IH. cbn [List.map]. now rewrite <- List.app_assoc.
Qed.

End Call.

(** X1: the tokens of a call of a function on literal numbers evaluate to
    what the function returns for these numbers, in their order: its result
    as a number token, or its error with the zero token. *)
Theorem call_on_literals
    (ParseFloat : string -> option float) (FormatG : float -> string)
    (mathPow : float -> float -> float) (mathTrunc : float -> float)
    (GetCellValue : string -> string -> string * option error) (fuel : nat)
    (otherFuncs : string -> option (list Token -> go (string * option error)))
    (sheet name : string) (vals : list string) :
  isOperator (funcStart name) = false ->
  Forall (fun v => isOperator (num v) = false) vals ->
  evalInfixExp ParseFloat FormatG mathPow mathTrunc GetCellValue fuel otherFuncs sheet
    (callTokens name vals)
  = let* (result, err) :=
      callFuncByName ParseFloat FormatG mathPow mathTrunc fuel otherFuncs
        (stripName name) (List.map num vals) in
    match err with
    | Some e => Ret (zeroToken, Some e)
    | None => Ret (numberToken result, None)
    end.
Proof.
  intros Hname Hvals. unfold evalInfixExp, callTokens.
  rewrite evalLoop_cons.
  assert (Hstart : forall nextToken,
            evalRound ParseFloat FormatG mathPow mathTrunc GetCellValue fuel otherFuncs sheet
              (funcStart name) nextToken (mkStacks NewStack NewStack NewStack NewStack NewStack [])
            = Ret (inl (mkStacks [] [] [funcStart name] [] [] []))).
  { intros nextToken. unfold evalRound, parseToken. cbn -[isOperator].
    rewrite Hname. reflexivity. }
  rewrite Hstart. cbn [go_bind].
  rewrite (evalLoop_arguments ParseFloat FormatG mathPow mathTrunc GetCellValue fuel otherFuncs
             sheet (funcStart name) [] [] vals Hvals []).
  unfold callResult. cbn [List.app funcStart TValue].
  destruct (callFuncByName _ _ _ _ _ _ _ _) as [[result [e|]]| |]; reflexivity.
Qed.

Lemma call_on_literals_witness :
  evalInfixExp GoDecimal.ParseFloat GoDecimal.FormatG GoDecimal.mathPow GoDecimal.mathTrunc
    GoDecimal.GetCellValue 0
    (mathFuncs GoDecimal.ParseFloat GoDecimal.FormatG GoDecimal.otherFuncs)
    "Sheet1" (callTokens "SUM" ["1"; "2"; "3"])
  = Ret (numberToken "6", None).
Proof.
  rewrite (call_on_literals GoDecimal.ParseFloat GoDecimal.FormatG GoDecimal.mathPow
             GoDecimal.mathTrunc GoDecimal.GetCellValue 0
             (mathFuncs GoDecimal.ParseFloat GoDecimal.FormatG GoDecimal.otherFuncs)
             "Sheet1" "SUM" ["1"; "2"; "3"]).
  - reflexivity.
  - reflexivity.
  - repeat constructor.
Defined.

(** *** Operators without operands *)

(** X2: an operator that takes two operands panics on a stack that holds
    fewer; so do the tokens of a formula that ends with an operator after
    its only operand. *)
Theorem calculate_missing_operand
    (ParseFloat : string -> option float) (FormatG : float -> string)
    (mathPow : float -> float -> float) (mathTrunc : float -> float)
    (GetCellValue : string -> string -> string * option error) (fuel : nat)
    (otherFuncs : string -> option (list Token -> go (string * option error)))
    (sheet : string) (opt : Token) (opdStack : Stack) (v : string) :
  binaryOperator opt ->
  (length opdStack <= 1)%nat ->
  isOperator (num v) = false ->
  calculate ParseFloat FormatG opdStack opt = Panic NilInterfaceConversion
  /\ forall op, In op ["+"; "-"; "*"; "/"] ->
       evalInfixExp ParseFloat FormatG mathPow mathTrunc GetCellValue fuel otherFuncs sheet
         [num v; infix op] = Panic NilInterfaceConversion.
Proof.
  intros Hopt Hlen Hv. split.
  - unfold calculate, calculate_negate, calculate_binary, andThen.
    destruct opt as [value ty sub]. unfold binaryOperator in Hopt. cbn [TValue TType] in *.
    destruct Hopt as [-> | [-> | [-> | [-> ->]]]];
      destruct opdStack as [|x [|y st]]; cbn in Hlen; try lia; reflexivity.
  - intros op Hop.
    assert (Hfirst : forall nextToken,
              evalRound ParseFloat FormatG mathPow mathTrunc GetCellValue fuel otherFuncs sheet
                (num v) nextToken (mkStacks NewStack NewStack NewStack NewStack NewStack [])
              = Ret (inl (mkStacks [num v] [] [] [] [] []))).
    { intros nextToken. unfold evalRound, parseToken. cbn -[isOperator].
      rewrite Hv. reflexivity. }
    unfold evalInfixExp. rewrite evalLoop_cons, Hfirst. cbn [go_bind].
    cbn in Hop. destruct Hop as [<- | [<- | [<- | [<- | []]]]]; reflexivity.
Qed.

Lemma calculate_missing_operand_witness :
  calculate GoDecimal.ParseFloat GoDecimal.FormatG [num "1"] (infix "+")
    = Panic NilInterfaceConversion
  /\ forall op, In op ["+"; "-"; "*"; "/"] ->
       evalInfixExp GoDecimal.ParseFloat GoDecimal.FormatG GoDecimal.mathPow GoDecimal.mathTrunc
         GoDecimal.GetCellValue 0 GoDecimal.otherFuncs "Sheet1"
         [num "1"; infix op] = Panic NilInterfaceConversion.
Proof.
  apply (calculate_missing_operand GoDecimal.ParseFloat GoDecimal.FormatG GoDecimal.mathPow
           GoDecimal.mathTrunc GoDecimal.GetCellValue 0 GoDecimal.otherFuncs "Sheet1"
           (infix "+") [num "1"] "1").
  - left. reflexivity.
  - cbn. lia.
  - reflexivity.
Defined.

(** *** One value per cell name *)

(** X3: [rangeResolver] keeps the values it reads in a map keyed by the
    name of the cell without its sheet: two references to the cell of the
    same column and row on two sheets resolve to one value, the one read
    last; so does the reference [Sheet1!A1:Sheet2!A1]. *)
Theorem same_cell_on_two_sheets
    (GetCellValue : string -> string -> string * option error) (cr1 cr2 : cellRef) :
  validCoordinates (Col cr1) (Row cr1) ->
  Col cr2 = Col cr1 -> Row cr2 = Row cr1 ->
  snd (GetCellValue (Sheet cr1) (cellName (Col cr1) (Row cr1))) = None ->
  snd (GetCellValue (Sheet cr2) (cellName (Col cr1) (Row cr1))) = None ->
  rangeResolver GetCellValue [cr1; cr2] []
  = ([fst (GetCellValue (Sheet cr2) (cellName (Col cr1) (Row cr1)))], None)
  /\ parseReference GoDecimal.GetCellValue "Sheet1" "Sheet1!A1:Sheet2!A1"
     = (["Sheet2!A1"], None).
Proof.
  intros Hvalid Hcol Hrow H1 H2. split; [|reflexivity].
  destruct Hvalid as [Hc Hr].
  unfold rangeResolver. cbn [resolveRanges resolveRefs]. unfold resolveCell.
  rewrite Hcol, Hrow, (CoordProps.CoordinatesToCellName_valid _ _ Hc Hr).
  destruct (GetCellValue (Sheet cr1) _) as [v1 e1]. cbn in H1. subst e1.
  destruct (GetCellValue (Sheet cr2) _) as [v2 e2]. cbn in H2. subst e2.
  cbn [fst]. rewrite insert_insert_eq, insert_empty, map_to_list_singleton. reflexivity.
Qed.

Lemma same_cell_on_two_sheets_witness :
  rangeResolver GoDecimal.GetCellValue [mkCellRef 1 1 "Sheet1"; mkCellRef 1 1 "Sheet2"] []
  = (["Sheet2!A1"], None)
  /\ parseReference GoDecimal.GetCellValue "Sheet1" "Sheet1!A1:Sheet2!A1"
     = (["Sheet2!A1"], None).
Proof.
  apply (same_cell_on_two_sheets GoDecimal.GetCellValue
           (mkCellRef 1 1 "Sheet1") (mkCellRef 1 1 "Sheet2")).
  - unfold validCoordinates, TotalColumns, TotalRows. cbn. lia.
  - reflexivity.
  - reflexivity.
  - reflexivity.
  - reflexivity.
Defined.

(** *** ARABIC on a text that does not start as a Roman numeral *)

(** X4: a text whose first rune is neither a minus sign nor one of the seven
    Roman digits makes [ARABIC] return [#VALUE!] as its result, whatever
    follows: the rune counts as a digit of value zero, which is twice the
    initial zero of [last]. *)
Theorem arabic_rejects_unknown_first_rune
    (FormatG : float -> string) (arg : Token) (char : Z) (rest : list Z) :
  runes (TValue arg) = char :: rest ->
  romanRune char = false ->
  ARABIC FormatG [arg] = Ret (formulaErrorVALUE, None).
Proof.
  intros Hrunes Hchar. unfold ARABIC. rewrite Hrunes. cbn [arabicLoop].
  assert (Hdigit : arabicDigit char = Some 0%float).
  { unfold romanRune in Hchar. unfold arabicDigit.
    repeat (apply orb_false_elim in Hchar as [Hchar ?]).
    repeat match goal with H : (_ =? _) = false |- _ => rewrite H; clear H end.
    reflexivity. }
  rewrite Hdigit. reflexivity.
Qed.

Lemma arabic_rejects_unknown_first_rune_witness :
  ARABIC GoDecimal.FormatG [num "iv"] = Ret (formulaErrorVALUE, None).
Proof.
  apply (arabic_rejects_unknown_first_rune GoDecimal.FormatG (num "iv")
           (rune "i") [rune "v"]); reflexivity.
Defined.

(** *** GCD and LCM on an infinite argument *)

Lemma gcdLoop_infinity (x : float) :
  PrimFloat.eqb x infinity = false ->
  PrimFloat.ltb infinity x = false ->
  (infinity - x)%float = infinity ->
  forall rounds, gcdLoop rounds x infinity = None.
Proof.
  intros Heq Hlt Hsub rounds. induction rounds as [|rounds IH]; cbn [gcdLoop]; rewrite Heq.
  - reflexivity.
  - now rewrite Hlt, Hsub.
Qed.

(** X5: when the second of two arguments parses to the positive infinity,
    as the text [Inf] does, and the first to a positive number, the
    subtraction loop of [gcd] never reaches its exit: [y - x] stays infinite.
    Whatever number of rounds is granted, [GCD] and [LCM] have not
    returned. *)
Theorem gcd_lcm_never_return_on_infinity
    (ParseFloat : string -> option float) (FormatG : float -> string)
    (mathTrunc : float -> float) (a b : Token) (x : float) :
  (TValue a =s "") = false -> (TValue b =s "") = false ->
  ParseFloat (TValue a) = Some x ->
  ParseFloat (TValue b) = Some infinity ->
  mathTrunc x = x -> mathTrunc infinity = infinity ->
  PrimFloat.ltb x 0 = false -> PrimFloat.eqb x 0 = false ->
  PrimFloat.eqb x infinity = false -> PrimFloat.ltb infinity x = false ->
  (infinity - x)%float = infinity ->
  forall fuel,
    GCD ParseFloat FormatG mathTrunc fuel [a; b] = OutOfFuel
    /\ LCM ParseFloat FormatG mathTrunc fuel [a; b] = OutOfFuel.
Proof.
  intros Ha Hb Pa Pb Tx Ti Hneg Hzero Heq Hlt Hsub fuel.
  assert (Hgcd : gcd mathTrunc fuel x infinity = OutOfFuel).
  { unfold gcd. rewrite Tx, Ti, Hzero.
    change (PrimFloat.eqb infinity 0) with false. cbv iota.
    now rewrite (gcdLoop_infinity x Heq Hlt Hsub). }
  unfold GCD, LCM, gcdLike. cbn [length Z.of_nat Z.eqb Pos.of_succ_nat parseNums].
  rewrite Ha, Pa, Hb, Pb. cbn [app length Z.of_nat Z.eqb Pos.of_succ_nat Pos.succ Pos.eqb].
  rewrite Hneg. cbn [foldNums]. change (PrimFloat.ltb infinity 0) with false. cbv iota.
  split.
  - now rewrite Hgcd.
  - unfold lcm. rewrite Tx, Ti, Hzero. cbn [andb]. now rewrite Hgcd.
Qed.

Lemma gcd_lcm_never_return_on_infinity_witness :
  let parse := fun s => if s =s "Inf" then Some infinity else GoDecimal.ParseFloat s in
  GCD parse GoDecimal.FormatG GoDecimal.mathTrunc 1000 [num "1"; num "Inf"] = OutOfFuel
  /\ LCM parse GoDecimal.FormatG GoDecimal.mathTrunc 1000 [num "1"; num "Inf"] = OutOfFuel.
Proof.
  intros parse.
  apply (gcd_lcm_never_return_on_infinity parse GoDecimal.FormatG GoDecimal.mathTrunc
           (num "1") (num "Inf") 1%float); reflexivity.
Defined.

(** *** SUM and PRODUCT on empty texts *)

Lemma accumulate_nonEmptyTexts (ParseFloat : string -> option float)
    (op : float -> float -> float) (args : list Token) :
  forall acc,
    accumulate ParseFloat op (nonEmptyTexts args) acc = accumulate ParseFloat op args acc.
Proof.
  induction args as [|token args IH]; intros acc; [reflexivity|].
  unfold nonEmptyTexts. cbn [List.filter accumulate].
  destruct (TValue token =s "") eqn:Hempty; cbn [negb].
  - apply IH.
  - cbn [accumulate]. rewrite Hempty.
    destruct (ParseFloat (TValue token)); [apply IH | reflexivity].
Qed.

(** X6: [SUM] and [PRODUCT] pass over the arguments whose text is empty,
    wherever they stand; with no other argument, and with no argument at
    all, they return the formatted 0 and 1. *)
Theorem sum_product_skip_empty_texts
    (ParseFloat : string -> option float) (FormatG : float -> string) (args : list Token) :
  SUM ParseFloat FormatG args = SUM ParseFloat FormatG (nonEmptyTexts args)
  /\ PRODUCT ParseFloat FormatG args = PRODUCT ParseFloat FormatG (nonEmptyTexts args)
  /\ (nonEmptyTexts args = [] ->
      SUM ParseFloat FormatG args = Ret (FormatG 0%float, None)
      /\ PRODUCT ParseFloat FormatG args = Ret (FormatG 1%float, None)).
Proof.
  unfold SUM, PRODUCT. rewrite !accumulate_nonEmptyTexts.
  split; [reflexivity|]. split; [reflexivity|].
  intros Hnone. rewrite <- (accumulate_nonEmptyTexts _ _ args 0%float).
  rewrite <- (accumulate_nonEmptyTexts _ _ args 1%float). rewrite Hnone. split; reflexivity.
Qed.

End EngineProps.

(** ** Areas, shared formula groups and string cells *)
Module AreaProps.
Import GoStrings Coord Workbook Merge.

Lemma cellInRef_spec (c r x1 y1 x2 y2 : Z) :
  cellInRef (c, r) (x1, y1, x2, y2) = true <-> x1 <= c <= x2 /\ y1 <= r <= y2.
Proof. unfold cellInRef. rewrite !andb_true_iff, !Z.leb_le. lia. Qed.

Lemma cellInRef_false (c r x1 y1 x2 y2 : Z) :
  cellInRef (c, r) (x1, y1, x2, y2) = false <-> ~ (x1 <= c <= x2 /\ y1 <= r <= y2).
Proof. rewrite <- cellInRef_spec. now destruct (cellInRef _ _). Qed.

(** X7: [isOverlap] does not depend on the order of its two areas, and when
    it holds of two areas whose corners are in order, the areas have a cell
    in common. *)
Theorem isOverlap_symmetric_sound (rect1 rect2 : rect) :
  isOverlap rect1 rect2 = isOverlap rect2 rect1
  /\ (normalized rect1 -> normalized rect2 -> isOverlap rect1 rect2 = true ->
      exists c r, inArea c r rect1 /\ inArea c r rect2).
Proof.
  destruct rect1 as [[[a0 a1] a2] a3], rect2 as [[[b0 b1] b2] b3]. split.
  - unfold isOverlap.
    destruct (cellInRef (a0, a1) _), (cellInRef (a2, a1) _), (cellInRef (a0, a3) _),
      (cellInRef (a2, a3) _), (cellInRef (b0, b1) _), (cellInRef (b2, b1) _),
      (cellInRef (b0, b3) _), (cellInRef (b2, b3) _); reflexivity.
  - intros [Ha Ha'] [Hb Hb'] Hover. unfold isOverlap in Hover. unfold inArea.
    repeat (apply orb_true_iff in Hover as [Hover | Hover]);
      pose proof Hover as Hin; apply cellInRef_spec in Hin;
      match type of Hover with
      | cellInRef (?c, ?r) _ = true => exists c, r
      end; (split; [|try exact Hover]); try exact Hover; apply cellInRef_spec; lia.
Qed.

Lemma isOverlap_symmetric_sound_witness :
  isOverlap (1, 1, 2, 2) (2, 2, 3, 3) = isOverlap (2, 2, 3, 3) (1, 1, 2, 2)
  /\ (normalized (1, 1, 2, 2) -> normalized (2, 2, 3, 3) ->
      isOverlap (1, 1, 2, 2) (2, 2, 3, 3) = true ->
      exists c r, inArea c r (1, 1, 2, 2) /\ inArea c r (2, 2, 3, 3)).
Proof. apply (isOverlap_symmetric_sound (1, 1, 2, 2) (2, 2, 3, 3)). Defined.

(** X8: two areas that cross, the one the taller and the other the wider,
    have cells in common and no corner of either lies in the other: for
    them [isOverlap] is false. *)
Theorem isOverlap_misses_crossing (x1 y1 x2 y2 x3 y3 x4 y4 : Z) :
  x3 < x1 -> x1 <= x2 -> x2 < x4 ->
  y1 < y3 -> y3 <= y4 -> y4 < y2 ->
  isOverlap (x1, y1, x2, y2) (x3, y3, x4, y4) = false
  /\ inArea x1 y3 (x1, y1, x2, y2) /\ inArea x1 y3 (x3, y3, x4, y4).
Proof.
  intros H1 H2 H3 H4 H5 H6. split; [|split; apply cellInRef_spec; lia].
  unfold isOverlap. repeat (apply orb_false_intro); apply cellInRef_false; lia.
Qed.

Lemma isOverlap_misses_crossing_witness :
  isOverlap (2, 1, 2, 3) (1, 2, 3, 2) = false
  /\ inArea 2 2 (2, 1, 2, 3) /\ inArea 2 2 (1, 2, 3, 2).
Proof. apply (isOverlap_misses_crossing 2 1 2 3 1 2 3 2); lia. Defined.

(** *** The number of a new shared formula group *)

Lemma wrapInt_id (z : Z) : minInt <= z <= maxInt -> wrapInt z = z.
Proof.
  unfold wrapInt, minInt, maxInt. intros H. rewrite Z.mod_small; lia.
Qed.

Lemma countCells_spec (cells : list xlsxC) :
  (forall c si, In c cells -> groupOf c = Some si -> minInt <= si < maxInt) ->
  forall count0,
    let count :=
      List.fold_left
        (fun count cell =>
           match C_F cell with
           | Some F =>
               match F_Si F with
               | Some si => if count <? wrapInt (si + 1) then wrapInt (si + 1) else count
               | None => count
               end
           | None => count
           end) cells count0 in
    count0 <= count
    /\ (forall c si, In c cells -> groupOf c = Some si -> si < count)
    /\ (count = count0 \/ exists c, In c cells /\ groupOf c = Some (count - 1)).
Proof.
  induction cells as [|cell cells IH]; intros Hrange count0; cbn [List.fold_left].
  - cbn. split; [lia|]. split; [intros c si []|now left].
  - set (count1 := match C_F cell with Some _ => _ | None => _ end).
    destruct (IH (fun c si Hin => Hrange c si (or_intror Hin)) count1) as (Hle & Hall & Hmax).
    cbn zeta in *.
    set (count := List.fold_left _ cells count1) in *.
    assert (Hstep : count0 <= count1
                    /\ (forall si, groupOf cell = Some si -> si < count1)
                    /\ (count1 = count0 \/ groupOf cell = Some (count1 - 1))).
    { pose proof (Hrange cell) as Hcell. subst count1. unfold groupOf in *.
      destruct (C_F cell) as [F|]; [|repeat split; [lia|discriminate|now left]].
      destruct (F_Si F) as [si|]; [|repeat split; [lia|discriminate|now left]].
      rewrite (wrapInt_id (si + 1)) by (specialize (Hcell si (or_introl eq_refl) eq_refl); lia).
      destruct (Z.ltb_spec count0 (si + 1)).
      - repeat split; [lia| |right; f_equal; lia]. intros si' [= <-]. lia.
      - repeat split; [lia| |now left]. intros si' [= <-]. lia. }
    destruct Hstep as (Hle1 & Hcell & Hmax1).
    split; [lia|]. split.
    + intros c si [<- | Hin] Hsi; [specialize (Hcell si Hsi); lia | now apply (Hall c si)].
    + destruct Hmax as [Heq | (c & Hin & Hc)].
      * destruct Hmax1 as [Heq1 | Hc1]; [left; lia|].
        right. exists cell. split; [now left|]. now rewrite Heq.
      * right. exists c. split; [now right | exact Hc].
Qed.

(** X9: in a worksheet whose group numbers are all below the greatest
    [int], [countSharedFormula] is above the group number of every cell, so
    the number it gives to a new group is not in use; it is 0 in a worksheet
    without groups and otherwise one more than a group number in use. *)
Theorem countSharedFormula_fresh (ws : xlsxWorksheet) :
  (forall r c si,
     In r (SheetData ws) -> In c (Row_C r) -> groupOf c = Some si ->
     minInt <= si < maxInt) ->
  0 <= countSharedFormula ws
  /\ (forall r c si,
        In r (SheetData ws) -> In c (Row_C r) -> groupOf c = Some si ->
        si < countSharedFormula ws)
  /\ (countSharedFormula ws = 0
      \/ exists r c, In r (SheetData ws) /\ In c (Row_C r)
                     /\ groupOf c = Some (countSharedFormula ws - 1)).
Proof.
  intros Hrange. unfold countSharedFormula.
  assert (Hrows : forall rows count0,
            (forall r c si, In r rows -> In c (Row_C r) -> groupOf c = Some si ->
                            minInt <= si < maxInt) ->
            let count :=
              List.fold_left
                (fun count row =>
                   List.fold_left
                     (fun count cell =>
                        match C_F cell with
                        | Some F =>
                            match F_Si F with
                            | Some si =>
                                if count <? wrapInt (si + 1) then wrapInt (si + 1) else count
                            | None => count
                            end
                        | None => count
                        end) (Row_C row) count) rows count0 in
            count0 <= count
            /\ (forall r c si, In r rows -> In c (Row_C r) -> groupOf c = Some si -> si < count)
            /\ (count = count0
                \/ exists r c, In r rows /\ In c (Row_C r) /\ groupOf c = Some (count - 1))).
  { induction rows as [|row rows IH]; intros count0 Hr; cbn [List.fold_left].
    - cbn. split; [lia|]. split; [intros r c si []|now left].
    - destruct (countCells_spec (Row_C row) (fun c si => Hr row c si (or_introl eq_refl)) count0)
        as (Hle1 & Hall1 & Hmax1).
      cbn zeta in *. set (count1 := List.fold_left _ (Row_C row) count0) in *.
      destruct (IH count1 (fun r c si Hin => Hr r c si (or_intror Hin))) as (Hle & Hall & Hmax).
      cbn zeta in *.
      set (count := List.fold_left _ rows count1) in *.
      split; [lia|]. split.
      + intros r c si [<- | Hin] Hc Hsi; [specialize (Hall1 c si Hc Hsi); lia|].
        now apply (Hall r c si).
      + destruct Hmax as [Heq | (r & c & Hin & Hc & Hsi)].
        * destruct Hmax1 as [Heq1 | (c & Hc & Hsi)]; [left; lia|].
          right. exists row, c. split; [now left|]. split; [exact Hc|]. now rewrite Heq.
        * right. exists r, c. split; [now right|]. now split. }
  destruct (Hrows (SheetData ws) 0 Hrange) as (Hle & Hall & Hmax). cbn zeta in *.
  split; [exact Hle|]. split; [exact Hall | exact Hmax].
Qed.

Lemma countSharedFormula_fresh_witness :
  let ws := sharedSheet "=A1+B1" in
  0 <= countSharedFormula ws
  /\ (forall r c si,
        In r (SheetData ws) -> In c (Row_C r) -> groupOf c = Some si ->
        si < countSharedFormula ws)
  /\ (countSharedFormula ws = 0
      \/ exists r c, In r (SheetData ws) /\ In c (Row_C r)
                     /\ groupOf c = Some (countSharedFormula ws - 1)).
Proof.
  intros ws. apply (countSharedFormula_fresh ws).
  intros r c si Hr Hc Hsi. unfold minInt, maxInt.
  assert (H : si = 0); [|lia].
  cbn in Hr. decompose [or] Hr; try contradiction; subst r; cbn in Hc;
    decompose [or] Hc; try contradiction; subst c; cbn in Hsi; congruence.
Defined.

(** The hypothesis is needed: the increment of the greatest [int] wraps to
    the least, which is above no count, so a group of that number is not
    counted. *)
Example countSharedFormula_wraps :
  countSharedFormula
    (mkWorksheet [mkRow 1 [formulaCell "A1" (mkF "=B1" STCellFormulaTypeShared "A1:A2"
                                               (Some maxInt))]] None) = 0.
Proof. reflexivity. Qed.

(** *** String cells and the shared string table *)

Lemma truncate_length (n : nat) (s : string) : (String.length (truncate n s) <= n)%nat.
Proof.
  revert s. induction n as [|n IH]; intros [|c s]; cbn; try lia.
  specialize (IH s). lia.
Qed.

Lemma keptText_short (value : string) :
  Z.of_nat (String.length (keptText value)) <= TotalCellChars.
Proof.
  unfold keptText. destruct (Z.ltb_spec TotalCellChars (Z.of_nat (String.length value))); [|lia].
  pose proof (truncate_length (Z.to_nat TotalCellChars) value). unfold TotalCellChars in *. lia.
Qed.

Lemma setCellString_keptText (unmarshalSST : option string -> xlsxSST)
    (bstrMarshal : string -> string) (f : File) (value : string) :
  setCellString unmarshalSST bstrMarshal f value
  = let '(f1, (si, _)) := setSharedString unmarshalSST bstrMarshal f (keptText value) in
    (f1, ("s", Itoa si, None)).
Proof.
  unfold setCellString, keptText.
  set (t := if TotalCellChars <? _ then _ else _).
  unfold setSharedString.
  destruct (sharedStringsReader unmarshalSST f) as [f0 sst0].
  destruct (sharedStringsMap f0 !! t); [reflexivity|].
  destruct (setCellStr bstrMarshal t) as [[? ?] ?]. reflexivity.
Qed.

(** X10: a string value that is not yet in the table gets the cell type [s]
    and the text of an index; when the unique count of the table equals the
    number of its items, the item at that index holds the value, cut to the
    limit of a cell, and the equality holds again afterwards. *)
Theorem setCellString_designates_item
    (unmarshalSST : option string -> xlsxSST) (bstrMarshal : string -> string)
    (f : File) (sst : xlsxSST) (value : string) :
  SharedStrings f = Some sst ->
  UniqueCount sst = Z.of_nat (length (SI sst)) ->
  sharedStringsMap f !! keptText value = None ->
  exists f1 sst1 item,
    setCellString unmarshalSST bstrMarshal f value
    = (f1, ("s", Itoa (UniqueCount sst), None))
    /\ SharedStrings f1 = Some sst1
    /\ SI sst1 !! Z.to_nat (UniqueCount sst) = Some item
    /\ option_map T_Val (SI_T item) = Some (keptText value)
    /\ UniqueCount sst1 = Z.of_nat (length (SI sst1))
    /\ (forall i old, SI sst !! i = Some old -> SI sst1 !! i = Some old).
Proof.
  intros Hsst Hcount Hnew. rewrite setCellString_keptText.
  rewrite (WorkbookProps.setSharedString_absent unmarshalSST bstrMarshal f sst _ Hsst Hnew).
  eexists _, _, _. split; [reflexivity|].
  split; [reflexivity|]. split.
  { cbn. rewrite Hcount, Nat2Z.id. apply list_lookup_middle. reflexivity. }
  split; [reflexivity|]. split.
  { cbn. rewrite List.length_app. cbn [length]. lia. }
  intros i old Hold. cbn. now apply lookup_app_l_Some.
Qed.

Lemma setCellString_designates_item_witness :
  let sst := mkSST 1 1 [mkSI (Some (mkT "x" false))] in
  let f := fileOf ∅ ∅ sst (<["x" := 0]> ∅) in
  exists f1 sst1 item,
    setCellString (fun _ => mkSST 0 0 []) (fun s => s) f "y" = (f1, ("s", "1", None))
    /\ SharedStrings f1 = Some sst1
    /\ SI sst1 !! 1%nat = Some item
    /\ option_map T_Val (SI_T item) = Some "y"
    /\ UniqueCount sst1 = Z.of_nat (length (SI sst1))
    /\ (forall i old, SI sst !! i = Some old -> SI sst1 !! i = Some old).
Proof.
  intros sst f.
  apply (setCellString_designates_item (fun _ => mkSST 0 0 []) (fun s => s) f sst "y");
    reflexivity.
Defined.

(** X11: two string values with the same first [TotalCellChars] bytes get
    the same index: the second is found in the table under the text kept of
    the first, and the file stays as the first left it. *)
Theorem setCellString_same_kept_text
    (unmarshalSST : option string -> xlsxSST) (bstrMarshal : string -> string)
    (f : File) (sst : xlsxSST) (value1 value2 : string) :
  SharedStrings f = Some sst ->
  sharedStringsMap f !! keptText value1 = None ->
  keptText value2 = keptText value1 ->
  bstrMarshal (keptText value1) = keptText value1 ->
  let '(f1, out1) := setCellString unmarshalSST bstrMarshal f value1 in
  setCellString unmarshalSST bstrMarshal f1 value2 = (f1, out1).
Proof.
  intros Hsst Hnew Hsame Hplain. rewrite !setCellString_keptText.
  rewrite (WorkbookProps.setSharedString_absent unmarshalSST bstrMarshal f sst _ Hsst Hnew).
  rewrite setCellString_keptText, Hsame.
  rewrite (WorkbookProps.setCellStr_short bstrMarshal _ (keptText_short value1)), Hplain.
  set (f1 := mkFile _ _ _ _ _ _).
  assert (H1 : sharedStringsMap f1 !! keptText value1 = Some (UniqueCount sst))
    by apply lookup_insert_eq.
  now rewrite (WorkbookProps.setSharedString_present unmarshalSST bstrMarshal f1 _ _ _
                 eq_refl H1).
Qed.

Lemma setCellString_same_kept_text_witness :
  let f := fileOf ∅ ∅ (mkSST 0 0 []) ∅ in
  let '(f1, out1) := setCellString (fun _ => mkSST 0 0 []) (fun s => s) f "foo" in
  setCellString (fun _ => mkSST 0 0 []) (fun s => s) f1 "foo" = (f1, out1).
Proof.
  intros f.
  apply (setCellString_same_kept_text (fun _ => mkSST 0 0 []) (fun s => s) f
           (mkSST 0 0 []) "foo" "foo"); reflexivity.
Defined.

(** X12: the table is searched for the text as given and filled under the
    text as escaped for XML: a value that the escaping changes, and whose
    escaped form the table does not hold either, is not found when it is
    interned again, and is added a second time under the next index. *)
Theorem setSharedString_escaped_twice
    (unmarshalSST : option string -> xlsxSST) (bstrMarshal : string -> string)
    (f : File) (sst : xlsxSST) (val : string) :
  SharedStrings f = Some sst ->
  sharedStringsMap f !! val = None ->
  Z.of_nat (String.length val) <= TotalCellChars ->
  bstrMarshal val <> val ->
  let '(f1, r1) := setSharedString unmarshalSST bstrMarshal f val in
  let '(f2, r2) := setSharedString unmarshalSST bstrMarshal f1 val in
  r1 = (UniqueCount sst, None)
  /\ r2 = (UniqueCount sst + 1, None)
  /\ option_map SI (SharedStrings f2)
     = Some (SI sst ++ [mkSI (Some (mkT val (snd (setCellStr bstrMarshal val))));
                        mkSI (Some (mkT val (snd (setCellStr bstrMarshal val))))]).
Proof.
  intros Hsst Hnew Hshort Hescaped.
  rewrite (WorkbookProps.setSharedString_absent unmarshalSST bstrMarshal f sst _ Hsst Hnew).
  rewrite (WorkbookProps.setCellStr_short bstrMarshal _ Hshort).
  set (f1 := mkFile _ _ _ _ _ _).
  assert (H1 : sharedStringsMap f1 !! val = None).
  { cbn. now rewrite lookup_insert_ne. }
  rewrite (WorkbookProps.setSharedString_absent unmarshalSST bstrMarshal f1 _ _ eq_refl H1).
  cbn [UniqueCount SharedStrings option_map SI]. rewrite <- List.app_assoc.
  repeat split.
Qed.

Lemma setSharedString_escaped_twice_witness :
  let escape := fun s => if (s =? "_x0001_")%string then "_x005F_x0001_" else s in
  let f := fileOf ∅ ∅ (mkSST 0 0 []) ∅ in
  let '(f1, r1) := setSharedString (fun _ => mkSST 0 0 []) escape f "_x0001_" in
  let '(f2, r2) := setSharedString (fun _ => mkSST 0 0 []) escape f1 "_x0001_" in
  r1 = (0, None)
  /\ r2 = (0 + 1, None)
  /\ option_map SI (SharedStrings f2)
     = Some ([] ++ [mkSI (Some (mkT "_x0001_" (snd (setCellStr escape "_x0001_"))));
                    mkSI (Some (mkT "_x0001_" (snd (setCellStr escape "_x0001_"))))]).
Proof.
  intros escape f.
  apply (setSharedString_escaped_twice (fun _ => mkSST 0 0 []) escape f (mkSST 0 0 [])
           "_x0001_").
  - reflexivity.
  - reflexivity.
  - unfold TotalCellChars. cbn. lia.
  - discriminate.
Defined.

End AreaProps.

(** ** Names of cells and areas *)
Module NameProps.
Import GoStrings Coord Workbook Merge CoordProps.

Lemma plainName_app (a b : string) : plainName (a +:+ b) = plainName a && plainName b.
Proof.
  induction a as [|c a IH]; [reflexivity|].
  rewrite append_cons. cbn [plainName]. rewrite IH. now rewrite andb_assoc.
Qed.

Lemma plainName_upper (s : string) : all_upper s = true -> plainName s = true.
Proof.
  induction s as [|c s IH]; [reflexivity|]. cbn [all_upper plainName]. intros H.
  apply andb_prop in H as [Hc Hs]. now rewrite Hc, IH.
Qed.

Lemma plainName_digits (s : string) : all_digits s = true -> plainName s = true.
Proof.
  induction s as [|c s IH]; [reflexivity|]. cbn [all_digits plainName]. intros H.
  apply andb_prop in H as [Hc Hs]. rewrite Hc, IH by exact Hs. now rewrite orb_true_r.
Qed.

Lemma plain_byte (c : ascii) (sep : ascii) :
  is_upper c || is_digit c = true -> is_upper sep || is_digit sep = false ->
  Ascii.eqb c sep = false.
Proof.
  intros Hc Hsep. destruct (Ascii.eqb_spec c sep) as [-> | _]; [congruence | reflexivity].
Qed.

Lemma Split_plain (s : string) (sep : ascii) :
  is_upper sep || is_digit sep = false -> plainName s = true -> Split s sep = [s].
Proof.
  intros Hsep. induction s as [|c s IH]; [reflexivity|]. cbn [plainName Split]. intros H.
  apply andb_prop in H as [Hc Hs]. rewrite (plain_byte c sep Hc Hsep), (IH Hs). reflexivity.
Qed.

Lemma Split_plain_app (a b : string) (sep : ascii) :
  is_upper sep || is_digit sep = false -> plainName a = true ->
  Split (a +:+ String sep b) sep = a :: Split b sep.
Proof.
  intros Hsep. induction a as [|c a IH]; intros H.
  - rewrite append_nil. cbn [Split]. now rewrite Ascii.eqb_refl.
  - cbn [plainName] in H. apply andb_prop in H as [Hc Ha].
    rewrite append_cons. cbn [Split]. rewrite (plain_byte c sep Hc Hsep), (IH Ha). reflexivity.
Qed.

Lemma cellName_parts (col row : Z) :
  1 <= col <= TotalColumns -> 1 <= row <= TotalRows ->
  cellName col row = fst (ColumnNumberToName col) +:+ Itoa row
  /\ all_upper (fst (ColumnNumberToName col)) = true
  /\ fst (ColumnNumberToName col) <> EmptyString
  /\ all_digits (Itoa row) = true
  /\ letters_value (fst (ColumnNumberToName col)) 0 = col.
Proof.
  intros Hcol Hrow.
  pose proof (column_ok_valid col Hcol) as Hok. unfold column_ok in Hok.
  apply andb_prop in Hok as [Hok Hval]. apply andb_prop in Hok as [Hlen Hupper].
  apply Z.eqb_eq in Hval.
  destruct (Itoa_digits row) as [Hdigits _]; [lia|].
  unfold cellName, CoordinatesToCellName, ColumnNumberToName.
  replace ((col <? 1) || (row <? 1) || (TotalColumns <? col) || (TotalRows <? row)) with false
    by (symmetry; repeat (apply orb_false_intro); apply Z.ltb_ge; lia).
  replace ((col <? 1) || (TotalColumns <? col)) with false
    by (symmetry; repeat (apply orb_false_intro); apply Z.ltb_ge; lia).
  cbn [fst]. repeat split; try assumption.
  intros Hempty. rewrite Hempty in Hlen. discriminate.
Qed.

Lemma cellName_plain (col row : Z) :
  1 <= col <= TotalColumns -> 1 <= row <= TotalRows -> plainName (cellName col row) = true.
Proof.
  intros Hcol Hrow. destruct (cellName_parts col row Hcol Hrow) as (-> & Hup & _ & Hdig & _).
  now rewrite plainName_app, (plainName_upper _ Hup), (plainName_digits _ Hdig).
Qed.

Lemma cellName_injective (col row col' row' : Z) :
  1 <= col <= TotalColumns -> 1 <= row <= TotalRows ->
  1 <= col' <= TotalColumns -> 1 <= row' <= TotalRows ->
  cellName col row = cellName col' row' -> col = col' /\ row = row'.
Proof.
  intros Hc Hr Hc' Hr' Heq.
  pose proof (cell_coordinates_cellName col row Hc Hr) as H1.
  pose proof (cell_coordinates_cellName col' row' Hc' Hr') as H2.
  rewrite Heq, H2 in H1. injection H1 as -> ->. now split.
Qed.

Lemma Split_areaName (a : rect) :
  validArea a ->
  let '(x1, y1, x2, y2) := a in
  Split (areaName a) ":" = [cellName x1 y1; cellName x2 y2].
Proof.
  destruct a as [[[x1 y1] x2] y2]. intros (Hx1 & Hy1 & Hx2 & Hy2). unfold areaName.
  fold (cellName x1 y1). fold (cellName x2 y2).
  change (":" +:+ cellName x2 y2) with (String ":" (cellName x2 y2)).
  rewrite Split_plain_app; [|reflexivity|now apply cellName_plain].
  rewrite Split_plain; [reflexivity|reflexivity|now apply cellName_plain].
Qed.

Lemma areaRefToCoordinates_areaName (a : rect) :
  validArea a -> areaRefToCoordinates (areaName a) = Some a.
Proof.
  intros Ha. pose proof (Split_areaName a Ha) as Hsplit.
  destruct a as [[[x1 y1] x2] y2]. destruct Ha as (Hx1 & Hy1 & Hx2 & Hy2).
  unfold areaRefToCoordinates. rewrite Hsplit.
  now rewrite !cell_coordinates_cellName.
Qed.

Lemma checkCellInArea_areaName (c r : Z) (a : rect) :
  1 <= c <= TotalColumns -> 1 <= r <= TotalRows -> validArea a ->
  checkCellInArea (cellName c r) (areaName a) = (cellInRef (c, r) a, None).
Proof.
  intros Hc Hr Ha. unfold checkCellInArea.
  rewrite (CellNameToCoordinates_cellName c r Hc Hr).
  pose proof (Split_areaName a Ha) as Hsplit.
  rewrite (areaRefToCoordinates_areaName a Ha).
  destruct a as [[[x1 y1] x2] y2]. rewrite Hsplit. reflexivity.
Qed.

Lemma sortCoordinates_valid (a : rect) :
  validArea a -> validArea (sortCoordinates a) /\ normalized (sortCoordinates a).
Proof.
  destruct a as [[[x1 y1] x2] y2]. unfold validArea, normalized, sortCoordinates. lia.
Qed.

End NameProps.

(** ** Merged cells *)
Module MergeProps.
Import GoStrings Coord Workbook Merge CoordProps NameProps.

Section Sheets.
Variable trimSheetName : string -> string.
Variable unmarshalWorksheet : option string -> xlsxWorksheet.

Lemma workSheetReader_loaded (f f1 : File) (sheet : string) (ws : xlsxWorksheet) :
  workSheetReader trimSheetName unmarshalWorksheet f sheet = Ret (f1, Some ws, None) ->
  exists name,
    sheetMap f !! trimSheetName sheet = Some name
    /\ sheetMap f1 = sheetMap f
    /\ Sheet f1 !! name = Some ws.
Proof.
  unfold workSheetReader. intros H.
  destruct (sheetMap f !! trimSheetName sheet) as [name|] eqn:Hname; [|discriminate].
  exists name. split; [reflexivity|].
  destruct (Sheet f !! name) as [ws0|] eqn:Hsheet.
  - injection H as <- <-. now split.
  - destruct (negb (default false (checked f !! name))).
    + destruct (checkRow (checkSheet (unmarshalWorksheet (XLSX f !! name))))
        as [[xlsx err]| |]; cbn in H; [|discriminate|discriminate].
      injection H as <- <-. split; [reflexivity|]. cbn. apply lookup_insert_eq.
    + cbn in H. injection H as <- <-. split; [reflexivity|]. cbn. apply lookup_insert_eq.
Qed.

Lemma workSheetReader_cached (f : File) (sheet name : string) (ws : xlsxWorksheet) :
  sheetMap f !! trimSheetName sheet = Some name ->
  Sheet f !! name = Some ws ->
  workSheetReader trimSheetName unmarshalWorksheet f sheet = Ret (f, Some ws, None).
Proof. intros Hname Hsheet. unfold workSheetReader. now rewrite Hname, Hsheet. Qed.

Lemma storeMergeCells_reads (f : File) (sheet name : string) (xlsx : xlsxWorksheet)
    (cells : option (list (option string))) :
  sheetMap f !! trimSheetName sheet = Some name ->
  workSheetReader trimSheetName unmarshalWorksheet
    (storeMergeCells trimSheetName f sheet xlsx cells) sheet
  = Ret (storeMergeCells trimSheetName f sheet xlsx cells,
         Some (mkWorksheet (SheetData xlsx) cells), None).
Proof.
  intros Hname. apply workSheetReader_cached with (name := name);
    unfold storeMergeCells; rewrite Hname; [exact Hname|]. cbn. apply lookup_insert_eq.
Qed.

End Sheets.

Lemma covers_refl (a : rect) : covers a a.
Proof. destruct a as [[[x1 y1] x2] y2]. unfold covers. lia. Qed.

Lemma covers_trans (a b c : rect) : covers a b -> covers b c -> covers a c.
Proof.
  destruct a as [[[a0 a1] a2] a3], b as [[[b0 b1] b2] b3], c as [[[c0 c1] c2] c3].
  unfold covers. lia.
Qed.

Lemma growRect_covers (rect1 rect2 : rect) :
  covers (growRect rect1 rect2) rect1 /\ covers (growRect rect1 rect2) rect2.
Proof.
  destruct rect1 as [[[a0 a1] a2] a3], rect2 as [[[b0 b1] b2] b3].
  unfold growRect, covers.
  destruct (Z.ltb_spec b0 a0), (Z.ltb_spec a2 b2), (Z.ltb_spec b1 a1), (Z.ltb_spec a3 b3); lia.
Qed.

Section Loops.
Variable Quote : string -> string.

Lemma mergeLoop_spec (cells : list (option string)) :
  Forall areaEntry cells ->
  forall rect1,
  exists cells' rectF,
    mergeLoop Quote cells rect1 (areaName rect1) = (cells', areaName rectF, None)
    /\ covers rectF rect1
    /\ sublist cells' cells
    /\ (forall cellRef rect2,
          In (Some cellRef) cells -> areaRefToCoordinates cellRef = Some rect2 ->
          In (Some cellRef) cells' \/ covers rectF rect2).
Proof.
  induction 1 as [|entry cells Hentry Hcells IH]; intros rect1.
  - exists [], rect1. split; [reflexivity|]. split; [apply covers_refl|].
    split; [constructor|]. intros ? ? [].
  - destruct entry as [cellRef|]; cbn [mergeLoop].
    + destruct Hentry as [Hlen Harea]. rewrite Hlen. cbn [Z.of_nat Pos.of_succ_nat Pos.succ Z.eqb Pos.eqb negb].
      destruct (areaRefToCoordinates cellRef) as [rect2|] eqn:Hrect; [|congruence].
      destruct (isOverlap rect1 rect2) eqn:Hover.
      * destruct (IH (growRect rect1 rect2)) as (cells' & rectF & Hrun & Hcov & Hsub & Hall).
        destruct (growRect_covers rect1 rect2) as [Hg1 Hg2].
        exists cells', rectF. split; [exact Hrun|].
        split; [now apply covers_trans with (b := growRect rect1 rect2)|].
        split; [now apply sublist_cons|].
        intros ref r2 [[= <-] | Hin] Hr2.
        -- right. rewrite Hrect in Hr2. injection Hr2 as <-.
           now apply covers_trans with (b := growRect rect1 rect2).
        -- now apply Hall.
      * destruct (IH rect1) as (cells' & rectF & Hrun & Hcov & Hsub & Hall).
        rewrite Hrun. exists (Some cellRef :: cells'), rectF. split; [reflexivity|].
        split; [exact Hcov|]. split; [now apply sublist_skip|].
        intros ref r2 [[= <-] | Hin] Hr2; [left; now left|].
        destruct (Hall ref r2 Hin Hr2) as [Hkept | Hc]; [left; now right | now right].
    + destruct (IH rect1) as (cells' & rectF & Hrun & Hcov & Hsub & Hall).
      rewrite Hrun. exists (None :: cells'), rectF. split; [reflexivity|].
      split; [exact Hcov|]. split; [now apply sublist_skip|].
      intros ref r2 [Hin | Hin] Hr2; [discriminate|].
      destruct (Hall ref r2 Hin Hr2) as [Hkept | Hc]; [left; now right | now right].
Qed.

Lemma unmergeLoop_spec (rect1 : rect) (rest : list (option string)) :
  Forall areaEntry rest ->
  forall all kept,
    unmergeLoop Quote all rest kept rect1 = (kept ++ apartFrom rect1 rest, None).
Proof.
  induction 1 as [|entry rest Hentry Hrest IH]; intros all kept.
  - cbn. now rewrite List.app_nil_r.
  - destruct entry as [cellRef|]; cbn [unmergeLoop apartFrom List.filter].
    + destruct Hentry as [Hlen Harea]. rewrite Hlen.
      cbn [Z.of_nat Pos.of_succ_nat Pos.succ Z.eqb Pos.eqb negb].
      destruct (areaRefToCoordinates cellRef) as [rect2|] eqn:Hrect; [|congruence].
      destruct (isOverlap rect1 rect2); cbn [negb].
      * apply IH.
      * rewrite IH. unfold apartFrom. now rewrite <- List.app_assoc.
    + apply IH.
Qed.

End Loops.

(** X13: on a worksheet whose merged cells all read as areas, [MergeCell]
    succeeds and adds one merged cell at the end of the list; its area covers
    the area asked for, the merged cells before it are kept in their order
    or removed, and the new area covers each one removed. *)
Theorem MergeCell_covers
    (trimSheetName : string -> string) (unmarshalWorksheet : option string -> xlsxWorksheet)
    (Quote : string -> string)
    (f f1 : File) (sheet hcell vcell : string) (ws : xlsxWorksheet) (rect0 : rect) :
  workSheetReader trimSheetName unmarshalWorksheet f sheet = Ret (f1, Some ws, None) ->
  areaRefToCoordinates (hcell +:+ ":" +:+ vcell) = Some rect0 ->
  Forall areaEntry (default [] (MergeCells ws)) ->
  exists cells' rectF,
    MergeCell trimSheetName unmarshalWorksheet Quote f sheet hcell vcell
    = Ret (storeMergeCells trimSheetName f1 sheet ws
             (Some (cells' ++ [Some (areaName rectF)])), None)
    /\ covers rectF (sortCoordinates rect0)
    /\ sublist cells' (default [] (MergeCells ws))
    /\ (forall cellRef rect2,
          In (Some cellRef) (default [] (MergeCells ws)) ->
          areaRefToCoordinates cellRef = Some rect2 ->
          In (Some cellRef) cells' \/ covers rectF rect2).
Proof.
  intros Hload Harea Hcells. unfold MergeCell. rewrite Harea, Hload. cbn [go_bind].
  destruct (MergeCells ws) as [cells|]; cbn [default] in *.
  - destruct (mergeLoop_spec Quote cells Hcells (sortCoordinates rect0))
      as (cells' & rectF & Hrun & Hcov & Hsub & Hall).
    rewrite Hrun. exists cells', rectF. now repeat split.
  - exists [], (sortCoordinates rect0). split; [reflexivity|].
    split; [apply covers_refl|]. split; [constructor|]. intros ? ? [].
Qed.

Lemma MergeCell_covers_witness :
  let ws := mkWorksheet [] (Some [Some "A1:B2"; None; Some "D4:E5"]) in
  let f := fileOf (<["Sheet1" := "xl/worksheets/sheet1.xml"]> ∅)
             (<["xl/worksheets/sheet1.xml" := ws]> ∅) (mkSST 0 0 []) ∅ in
  exists cells' rectF,
    MergeCell (fun s => s) (fun _ => mkWorksheet [] None) (fun s => s) f "Sheet1" "C3" "B2"
    = Ret (storeMergeCells (fun s => s) f "Sheet1" ws
             (Some (cells' ++ [Some (areaName rectF)])), None)
    /\ covers rectF (sortCoordinates (3, 3, 2, 2))
    /\ sublist cells' (default [] (MergeCells ws))
    /\ (forall cellRef rect2,
          In (Some cellRef) (default [] (MergeCells ws)) ->
          areaRefToCoordinates cellRef = Some rect2 ->
          In (Some cellRef) cells' \/ covers rectF rect2).
Proof.
  intros ws f.
  apply (MergeCell_covers (fun s => s) (fun _ => mkWorksheet [] None) (fun s => s)
           f f "Sheet1" "C3" "B2" ws (3, 3, 2, 2)).
  - reflexivity.
  - reflexivity.
  - repeat constructor; discriminate.
Defined.

(** The worksheet of the example above afterwards: A1:B2, which has the
    corner B2 in the area asked for, is removed and the new merged cell is
    A1:C3; D4:E5 and the nil entry stay. *)
Example MergeCell_B2_C3 :
  let ws := mkWorksheet [] (Some [Some "A1:B2"; None; Some "D4:E5"]) in
  let f := fileOf (<["Sheet1" := "xl/worksheets/sheet1.xml"]> ∅)
             (<["xl/worksheets/sheet1.xml" := ws]> ∅) (mkSST 0 0 []) ∅ in
  MergeCell (fun s => s) (fun _ => mkWorksheet [] None) (fun s => s) f "Sheet1" "C3" "B2"
  = Ret (storeMergeCells (fun s => s) f "Sheet1" ws
           (Some [None; Some "D4:E5"; Some "A1:C3"]), None).
Proof. reflexivity. Qed.

(** X14: on a worksheet whose merged cells all read as areas, [UnmergeCell]
    succeeds and keeps, in their order, exactly the merged cells that
    [isOverlap] does not relate to the area given; the nil entries go. *)
Theorem UnmergeCell_keeps_apart
    (trimSheetName : string -> string) (unmarshalWorksheet : option string -> xlsxWorksheet)
    (Quote : string -> string)
    (f f1 : File) (sheet hcell vcell : string) (ws : xlsxWorksheet) (rect0 : rect)
    (cells : list (option string)) :
  workSheetReader trimSheetName unmarshalWorksheet f sheet = Ret (f1, Some ws, None) ->
  areaRefToCoordinates (hcell +:+ ":" +:+ vcell) = Some rect0 ->
  MergeCells ws = Some cells ->
  Forall areaEntry cells ->
  UnmergeCell trimSheetName unmarshalWorksheet Quote f sheet hcell vcell
  = Ret (storeMergeCells trimSheetName f1 sheet ws
           (Some (apartFrom (sortCoordinates rect0) cells)), None).
Proof.
  intros Hload Harea Hmerge Hcells. unfold UnmergeCell.
  rewrite Hload. cbn [go_bind]. rewrite Harea, Hmerge.
  now rewrite (unmergeLoop_spec Quote (sortCoordinates rect0) cells Hcells cells []).
Qed.

Lemma UnmergeCell_keeps_apart_witness :
  let cells := [Some "A1:B2"; None; Some "D4:E5"] in
  let ws := mkWorksheet [] (Some cells) in
  let f := fileOf (<["Sheet1" := "xl/worksheets/sheet1.xml"]> ∅)
             (<["xl/worksheets/sheet1.xml" := ws]> ∅) (mkSST 0 0 []) ∅ in
  UnmergeCell (fun s => s) (fun _ => mkWorksheet [] None) (fun s => s) f "Sheet1" "C3" "B2"
  = Ret (storeMergeCells (fun s => s) f "Sheet1" ws
           (Some (apartFrom (sortCoordinates (3, 3, 2, 2)) cells)), None).
Proof.
  intros cells ws f.
  apply (UnmergeCell_keeps_apart (fun s => s) (fun _ => mkWorksheet [] None) (fun s => s)
           f f "Sheet1" "C3" "B2" ws (3, 3, 2, 2) cells).
  - reflexivity.
  - reflexivity.
  - reflexivity.
  - repeat constructor; discriminate.
Defined.

Lemma mergeCellsParser_single (ToUpper : string -> string) (rows : list xlsxRow)
    (a : rect) (c r : Z) :
  validArea a -> normalized a -> inArea c r a ->
  ToUpper (cellName c r) = cellName c r ->
  mergeCellsParser ToUpper (mkWorksheet rows (Some [Some (areaName a)])) (cellName c r)
  = (mkWorksheet rows (Some [Some (areaName a)]),
     (let '(x1, y1, _, _) := a in cellName x1 y1, None)).
Proof.
  intros Ha Hn Hin Hupper. pose proof (Split_areaName a Ha) as Hsplit.
  unfold mergeCellsParser. cbn [MergeCells SheetData mergeCellsLoop]. rewrite Hupper.
  destruct a as [[[x1 y1] x2] y2]. pose proof Ha as (Hx1 & Hy1 & Hx2 & Hy2).
  destruct Hn as [Hx Hy]. unfold inArea in Hin. pose proof Hin as Hin'.
  apply AreaProps.cellInRef_spec in Hin'.
  rewrite (checkCellInArea_areaName c r (x1, y1, x2, y2)); [|lia|lia|exact Ha].
  rewrite Hin, Hsplit. reflexivity.
Qed.

(** X15: after [MergeCell] on a worksheet without merged cells, the name of
    every cell of the area is redirected to the cell at the first column and
    the first row of the area, and reading the value or the formula of the
    one returns what reading the other returns. *)
Theorem merged_area_reads_anchor
    (ToUpper : string -> string)
    (trimSheetName : string -> string) (unmarshalWorksheet : option string -> xlsxWorksheet)
    (getValueFrom : File -> xlsxC -> string * option error) (Quote : string -> string)
    (f f1 : File) (sheet hcell vcell : string) (ws : xlsxWorksheet)
    (rect0 : rect) (x1 y1 x2 y2 c r : Z) :
  workSheetReader trimSheetName unmarshalWorksheet f sheet = Ret (f1, Some ws, None) ->
  default [] (MergeCells ws) = [] ->
  areaRefToCoordinates (hcell +:+ ":" +:+ vcell) = Some rect0 ->
  validArea rect0 ->
  sortCoordinates rect0 = (x1, y1, x2, y2) ->
  x1 <= c <= x2 -> y1 <= r <= y2 ->
  ToUpper (cellName c r) = cellName c r ->
  ToUpper (cellName x1 y1) = cellName x1 y1 ->
  exists f2 ws2,
    MergeCell trimSheetName unmarshalWorksheet Quote f sheet hcell vcell = Ret (f2, None)
    /\ workSheetReader trimSheetName unmarshalWorksheet f2 sheet = Ret (f2, Some ws2, None)
    /\ SheetData ws2 = SheetData ws
    /\ MergeCells ws2 = Some [Some (cellName x1 y1 +:+ ":" +:+ cellName x2 y2)]
    /\ mergeCellsParser ToUpper ws2 (cellName c r) = (ws2, (cellName x1 y1, None))
    /\ GetCellValue ToUpper trimSheetName unmarshalWorksheet getValueFrom f2 sheet
         (cellName c r)
       = GetCellValue ToUpper trimSheetName unmarshalWorksheet getValueFrom f2 sheet
           (cellName x1 y1)
    /\ GetCellFormula ToUpper trimSheetName unmarshalWorksheet f2 sheet (cellName c r)
       = GetCellFormula ToUpper trimSheetName unmarshalWorksheet f2 sheet (cellName x1 y1).
Proof.
  intros Hload Hnone Harea Hvalid Hsort Hc Hr Hupper Hanchor.
  destruct (sortCoordinates_valid rect0 Hvalid) as [Hsv Hsn]. rewrite Hsort in Hsv, Hsn.
  destruct (workSheetReader_loaded _ _ _ _ _ _ Hload) as (name & Hname & Hmap & Hsheet).
  set (ref := areaName (x1, y1, x2, y2)).
  assert (Hmerge : MergeCell trimSheetName unmarshalWorksheet Quote f sheet hcell vcell
                   = Ret (storeMergeCells trimSheetName f1 sheet ws (Some [Some ref]), None)).
  { unfold MergeCell. rewrite Harea, Hload, Hsort. cbn [go_bind].
    destruct (MergeCells ws) as [cells|]; simpl in Hnone; [|reflexivity].
    subst cells. reflexivity. }
  set (f2 := storeMergeCells trimSheetName f1 sheet ws (Some [Some ref])) in *.
  set (ws2 := mkWorksheet (SheetData ws) (Some [Some ref])).
  assert (Hname1 : sheetMap f1 !! trimSheetName sheet = Some name) by now rewrite Hmap.
  assert (Hread : workSheetReader trimSheetName unmarshalWorksheet f2 sheet
                  = Ret (f2, Some ws2, None))
    by now apply storeMergeCells_reads with (name := name).
  assert (Hin : forall c' r', x1 <= c' <= x2 -> y1 <= r' <= y2 ->
                  ToUpper (cellName c' r') = cellName c' r' ->
                  mergeCellsParser ToUpper ws2 (cellName c' r') = (ws2, (cellName x1 y1, None))).
  { intros c' r' Hc' Hr' Hup.
    apply (mergeCellsParser_single ToUpper (SheetData ws) (x1, y1, x2, y2) c' r');
      [exact Hsv | exact Hsn | now apply AreaProps.cellInRef_spec | exact Hup]. }
  destruct Hsn as [Hx Hy].
  exists f2, ws2. split; [exact Hmerge|]. split; [exact Hread|]. split; [reflexivity|].
  split; [reflexivity|]. split; [now apply Hin|].
  unfold GetCellValue, GetCellFormula, getCellStringFunc. rewrite Hread. cbn [go_bind].
  rewrite (Hin c r Hc Hr Hupper), (Hin x1 y1) by (lia || exact Hanchor).
  split; reflexivity.
Qed.

Lemma merged_area_reads_anchor_witness :
  let ws := mkWorksheet [mkRow 1 [mkC "A1" 0 "" "7" None]] None in
  let f := fileOf (<["Sheet1" := "xl/worksheets/sheet1.xml"]> ∅)
             (<["xl/worksheets/sheet1.xml" := ws]> ∅) (mkSST 0 0 []) ∅ in
  exists f2 ws2,
    MergeCell (fun s => s) (fun _ => mkWorksheet [] None) (fun s => s) f "Sheet1" "B2" "A1"
    = Ret (f2, None)
    /\ workSheetReader (fun s => s) (fun _ => mkWorksheet [] None) f2 "Sheet1"
       = Ret (f2, Some ws2, None)
    /\ SheetData ws2 = SheetData ws
    /\ MergeCells ws2 = Some [Some (cellName 1 1 +:+ ":" +:+ cellName 2 2)]
    /\ mergeCellsParser ToUpperASCII ws2 (cellName 2 1) = (ws2, (cellName 1 1, None))
    /\ GetCellValue ToUpperASCII (fun s => s) (fun _ => mkWorksheet [] None)
         (fun _ c => (C_V c, None)) f2 "Sheet1" (cellName 2 1)
       = GetCellValue ToUpperASCII (fun s => s) (fun _ => mkWorksheet [] None)
           (fun _ c => (C_V c, None)) f2 "Sheet1" (cellName 1 1)
    /\ GetCellFormula ToUpperASCII (fun s => s) (fun _ => mkWorksheet [] None) f2 "Sheet1"
         (cellName 2 1)
       = GetCellFormula ToUpperASCII (fun s => s) (fun _ => mkWorksheet [] None) f2 "Sheet1"
           (cellName 1 1).
Proof.
  intros ws f.
  apply (merged_area_reads_anchor ToUpperASCII (fun s => s) (fun _ => mkWorksheet [] None)
           (fun _ c => (C_V c, None)) (fun s => s) f f "Sheet1" "B2" "A1" ws
           (2, 2, 1, 1) 1 1 2 2 2 1).
  - reflexivity.
  - reflexivity.
  - reflexivity.
  - unfold validArea, TotalColumns, TotalRows. lia.
  - reflexivity.
  - lia.
  - lia.
  - reflexivity.
  - reflexivity.
Defined.

(** X16: [MergeCell] on a worksheet without merged cells, followed by
    [UnmergeCell] with the same two corners, leaves the worksheet without
    merged cells and its rows as they were. *)
Theorem merge_then_unmerge
    (trimSheetName : string -> string) (unmarshalWorksheet : option string -> xlsxWorksheet)
    (Quote : string -> string)
    (f f1 : File) (sheet hcell vcell : string) (ws : xlsxWorksheet) (rect0 : rect) :
  workSheetReader trimSheetName unmarshalWorksheet f sheet = Ret (f1, Some ws, None) ->
  default [] (MergeCells ws) = [] ->
  areaRefToCoordinates (hcell +:+ ":" +:+ vcell) = Some rect0 ->
  validArea rect0 ->
  exists f2 f3,
    MergeCell trimSheetName unmarshalWorksheet Quote f sheet hcell vcell = Ret (f2, None)
    /\ UnmergeCell trimSheetName unmarshalWorksheet Quote f2 sheet hcell vcell
       = Ret (f3, None)
    /\ workSheetReader trimSheetName unmarshalWorksheet f3 sheet
       = Ret (f3, Some (mkWorksheet (SheetData ws) (Some [])), None).
Proof.
  intros Hload Hnone Harea Hvalid.
  destruct (sortCoordinates_valid rect0 Hvalid) as [Hsv Hsn].
  destruct (workSheetReader_loaded _ _ _ _ _ _ Hload) as (name & Hname & Hmap & Hsheet).
  set (ref := areaName (sortCoordinates rect0)).
  assert (Hmerge : MergeCell trimSheetName unmarshalWorksheet Quote f sheet hcell vcell
                   = Ret (storeMergeCells trimSheetName f1 sheet ws (Some [Some ref]), None)).
  { unfold MergeCell. rewrite Harea, Hload. cbn [go_bind].
    destruct (MergeCells ws) as [cells|]; simpl in Hnone; [|reflexivity].
    subst cells. reflexivity. }
  set (f2 := storeMergeCells trimSheetName f1 sheet ws (Some [Some ref])) in *.
  set (ws2 := mkWorksheet (SheetData ws) (Some [Some ref])).
  assert (Hname1 : sheetMap f1 !! trimSheetName sheet = Some name) by now rewrite Hmap.
  assert (Hread : workSheetReader trimSheetName unmarshalWorksheet f2 sheet
                  = Ret (f2, Some ws2, None))
    by now apply storeMergeCells_reads with (name := name).
  assert (Hname2 : sheetMap f2 !! trimSheetName sheet = Some name).
  { subst f2. unfold storeMergeCells. now rewrite Hname1. }
  assert (Hself : isOverlap (sortCoordinates rect0) (sortCoordinates rect0) = true).
  { destruct (sortCoordinates rect0) as [[[x1 y1] x2] y2]. destruct Hsn as [Hx Hy].
    unfold isOverlap. apply orb_true_iff. left.
    repeat (apply orb_true_iff; left). apply AreaProps.cellInRef_spec. lia. }
  exists f2, (storeMergeCells trimSheetName f2 sheet ws2 (Some [])).
  split; [exact Hmerge|]. split.
  - unfold UnmergeCell. rewrite Hread. cbn [go_bind]. rewrite Harea.
    cbn [MergeCells ws2 unmergeLoop].
    pose proof (Split_areaName _ Hsv) as Hsplit. fold ref in Hsplit.
    destruct (sortCoordinates rect0) as [[[x1 y1] x2] y2] eqn:Hsort.
    rewrite Hsplit. cbn [length Z.of_nat Pos.of_succ_nat Pos.succ Z.eqb Pos.eqb negb].
    subst ref. rewrite (areaRefToCoordinates_areaName _ Hsv), Hself. reflexivity.
  - exact (storeMergeCells_reads trimSheetName unmarshalWorksheet f2 sheet name ws2
             (Some []) Hname2).
Qed.

Lemma merge_then_unmerge_witness :
  let ws := mkWorksheet [mkRow 1 [mkC "A1" 0 "" "7" None]] None in
  let f := fileOf (<["Sheet1" := "xl/worksheets/sheet1.xml"]> ∅)
             (<["xl/worksheets/sheet1.xml" := ws]> ∅) (mkSST 0 0 []) ∅ in
  exists f2 f3,
    MergeCell (fun s => s) (fun _ => mkWorksheet [] None) (fun s => s) f "Sheet1" "B2" "A1"
    = Ret (f2, None)
    /\ UnmergeCell (fun s => s) (fun _ => mkWorksheet [] None) (fun s => s) f2 "Sheet1"
         "B2" "A1"
       = Ret (f3, None)
    /\ workSheetReader (fun s => s) (fun _ => mkWorksheet [] None) f3 "Sheet1"
       = Ret (f3, Some (mkWorksheet (SheetData ws) (Some [])), None).
Proof.
  intros ws f.
  apply (merge_then_unmerge (fun s => s) (fun _ => mkWorksheet [] None) (fun s => s)
           f f "Sheet1" "B2" "A1" ws (2, 2, 1, 1)).
  - reflexivity.
  - reflexivity.
  - reflexivity.
  - unfold validArea, TotalColumns, TotalRows. lia.
Defined.

Lemma mergeCellsLoop_someEntries (cells : list (option string)) :
  forall axis cells' axis',
    mergeCellsLoop cells axis = (cells', axis', None) ->
    cells' = someEntries cells /\ mergeCellsLoop cells' axis = (cells', axis', None).
Proof.
  induction cells as [|entry cells IH]; intros axis cells' axis' Hrun.
  - cbn in Hrun. injection Hrun as <- <-. now split.
  - destruct entry as [ref|]; cbn [mergeCellsLoop someEntries List.filter] in *.
    + destruct (checkCellInArea axis ref) as [ok [e|]] eqn:Hcheck; [discriminate|].
      destruct (mergeCellsLoop cells (if ok then List.hd "" (Split ref ":") else axis))
        as [[rest axis1] err] eqn:Hrest.
      injection Hrun as <- <- ->.
      destruct (IH _ _ _ Hrest) as [Hsome Hagain].
      split; [now rewrite Hsome at 1|].
      cbn [mergeCellsLoop]. now rewrite Hcheck, Hagain.
    + now apply IH.
Qed.

(** X17: when [mergeCellsParser] returns no error, the list of merged cells
    it leaves in the worksheet is the list it found without the nil entries,
    the rows are as they were, and parsing the same name again returns the
    same name and changes nothing. *)
Theorem mergeCellsParser_drops_nil
    (ToUpper : string -> string) (ws ws' : xlsxWorksheet) (axis axis' : string) :
  mergeCellsParser ToUpper ws axis = (ws', (axis', None)) ->
  SheetData ws' = SheetData ws
  /\ MergeCells ws' = option_map someEntries (MergeCells ws)
  /\ mergeCellsParser ToUpper ws' axis = (ws', (axis', None)).
Proof.
  unfold mergeCellsParser. intros Hrun.
  destruct (MergeCells ws) as [cells|] eqn:Hcells.
  - destruct (mergeCellsLoop cells (ToUpper axis)) as [[cells' axis1] err] eqn:Hloop.
    injection Hrun as <- <- ->.
    destruct (mergeCellsLoop_someEntries _ _ _ _ Hloop) as [Hsome Hagain].
    cbn [SheetData MergeCells option_map]. rewrite Hagain.
    split; [reflexivity|]. split; [now rewrite Hsome|reflexivity].
  - injection Hrun as <- <-. rewrite Hcells. now repeat split.
Qed.

Lemma mergeCellsParser_drops_nil_witness :
  let ws := mkWorksheet [] (Some [None; Some "A1:B2"; None]) in
  let ws' := mkWorksheet [] (Some [Some "A1:B2"]) in
  SheetData ws' = SheetData ws
  /\ MergeCells ws' = option_map someEntries (MergeCells ws)
  /\ mergeCellsParser ToUpperASCII ws' "b2" = (ws', ("A1", None)).
Proof.
  intros ws ws'.
  apply (mergeCellsParser_drops_nil ToUpperASCII ws ws' "b2" "A1"). reflexivity.
Defined.

End MergeProps.

(** ** Rows and cells of a loaded worksheet *)
Module GridProps.
Import GoStrings Coord Workbook Merge CoordProps NameProps DenseProps.

(** X18: for every worksheet, the rows that [checkSheet] leaves are numbered
    1, 2, ... in order, as many as the greater of the number of rows stored
    and the number of the last of them; each is a row that was stored or a
    row without cells, and a stored row whose number is above that of the
    last row and above the number of rows is not among them. *)
Theorem checkSheet_numbers_rows (ws : xlsxWorksheet) :
  let rows' := SheetData (checkSheet ws) in
  List.map Row_R rows' = seqZ 1 (Z.of_nat (length rows'))
  /\ Z.of_nat (length rows') = Z.max (Z.of_nat (length (SheetData ws))) (lastRowNum ws)
  /\ Forall (fun r' => r' = blankRow (Row_R r') \/ In r' (SheetData ws)) rows'
  /\ (forall r, In r (SheetData ws) -> Z.of_nat (length rows') < Row_R r -> ~ In r rows')
  /\ MergeCells (checkSheet ws) = MergeCells ws.
Proof.
  set (rows := SheetData ws).
  set (n := Z.max (Z.of_nat (length rows)) (lastRowNum ws)).
  assert (Hsheet : checkSheet ws
                   = mkWorksheet (List.map (placedRow rows) (seqZ 0 n)) (MergeCells ws)).
  { unfold checkSheet. fold (placedRow (SheetData ws)). fold rows.
    assert (Hrow : (let row := Z.of_nat (length rows) in
                    if 1 <=? row
                    then let lastRow := Row_R (List.last rows (blankRow 0)) in
                         if row <=? lastRow then lastRow else row
                    else row) = n).
    { subst n. unfold lastRowNum. fold rows. cbn zeta.
      destruct rows as [|r0 rows0] eqn:Hd; [reflexivity|]. rewrite <- Hd.
      replace (1 <=? Z.of_nat (length rows)) with true
        by (symmetry; apply Z.leb_le; rewrite Hd; cbn [length]; lia).
      replace (0 <? length rows)%nat with true by (rewrite Hd; reflexivity).
      destruct (Z.leb_spec (Z.of_nat (length rows)) (Row_R (List.last rows (blankRow 0))));
        lia. }
    cbn zeta in Hrow |- *. now rewrite Hrow. }
  rewrite Hsheet. cbn [SheetData MergeCells].
  assert (Hn : 0 <= n) by (subst n; lia).
  assert (Hlen : Z.of_nat (length (List.map (placedRow rows) (seqZ 0 n))) = n).
  { rewrite List.length_map, length_seqZ. lia. }
  assert (Hnum : List.map Row_R (List.map (placedRow rows) (seqZ 0 n)) = seqZ 1 n).
  { rewrite List.map_map. change (seqZ 1 n) with (seqZ (1 + 0) n).
    rewrite <- (fmap_add_seqZ 1 0 n). rewrite <- (map_fmap (Z.add 1)).
    apply List.map_ext. intros i.
    destruct (placedRow_cases rows i) as [-> | [_ ->]]; cbn [Row_R blankRow]; lia. }
  split; [now rewrite Hlen|]. split; [rewrite Hlen; reflexivity|]. split.
  { apply List.Forall_forall. intros r' Hin. apply List.in_map_iff in Hin as (i & <- & _).
    destruct (placedRow_cases rows i) as [Hblank | [Hin HR]]; [left | now right].
    rewrite Hblank at 1. now rewrite Hblank. }
  split; [|reflexivity].
  intros r Hin Habove Hin'. rewrite Hlen in Habove.
  assert (HR : In (Row_R r) (seqZ 1 n)) by (rewrite <- Hnum; now apply List.in_map).
  apply list_elem_of_In, elem_of_seqZ in HR. lia.
Qed.

(** *** A row whose cells are not in the order of their columns *)

Lemma last_app_nonempty {A : Type} (l l' : list A) (d : A) :
  l' <> [] -> List.last (l ++ l') d = List.last l' d.
Proof.
  intros Hne. induction l as [|x l IH]; [reflexivity|].
  cbn [app]. change (List.last (x :: l ++ l') d)
    with (match l ++ l' with [] => x | _ :: _ => List.last (l ++ l') d end).
  destruct (l ++ l') eqn:Happ; [|exact IH].
  apply List.app_eq_nil in Happ as [_ ->]. congruence.
Qed.

Lemma placeCells_panic (R : Z) (pre : list Z) :
  forall old post col0 cells,
    1 <= R <= TotalRows ->
    List.map C_R old = List.map (fun col => cellName col R) (pre ++ col0 :: post) ->
    Forall (fun col => 1 <= col <= TotalColumns) (pre ++ col0 :: post) ->
    Forall (fun col => col <= Z.of_nat (length cells)) pre ->
    Z.of_nat (length cells) < col0 ->
    placeCells old cells = Panic (IndexOutOfRange (col0 - 1) (Z.of_nat (length cells))).
Proof.
  induction pre as [|col pre IH]; intros old post col0 cells HR Hnames Hvalid Hpre Hcol0.
  - destruct old as [|c old]; [discriminate|]. cbn [app List.map] in Hnames.
    injection Hnames as Hc _. inversion Hvalid as [|? ? Hv _]; subst.
    cbn [placeCells]. rewrite Hc, (CellNameToCoordinates_cellName col0 R Hv HR).
    replace ((col0 - 1 <? 0) || (Z.of_nat (length cells) <=? col0 - 1)) with true; [reflexivity|].
    symmetry. apply orb_true_iff. right. apply Z.leb_le. lia.
  - destruct old as [|c old]; [discriminate|]. cbn [app List.map] in Hnames.
    injection Hnames as Hc Hnames. inversion Hvalid as [|? ? Hv Hvalid']; subst.
    inversion Hpre as [|? ? Hle Hpre']; subst.
    cbn [placeCells]. rewrite Hc, (CellNameToCoordinates_cellName col R Hv HR).
    replace ((col - 1 <? 0) || (Z.of_nat (length cells) <=? col - 1)) with false.
    2:{ symmetry. apply orb_false_intro; [apply Z.ltb_ge | apply Z.leb_gt]; lia. }
    rewrite (IH old post col0 (<[Z.to_nat (col - 1) := c]> cells) HR Hnames Hvalid').
    + now rewrite length_insert.
    + now rewrite length_insert.
    + now rewrite length_insert.
Qed.

(** X19: [checkRow] panics on a row whose last cell is at a column above
    the number of its cells when a cell before it is at a column further
    right: the cell is written beyond the cells made for the row. Loading a
    worksheet with such a first row panics. *)
Theorem checkRow_panics_on_unordered_row
    (trimSheetName : string -> string) (unmarshalWorksheet : option string -> xlsxWorksheet)
    (f : File) (sheet name : string)
    (merge : option (list (option string))) (R : Z) (cells : list xlsxC)
    (pre post : list Z) (col0 lastCol : Z) :
  1 <= R <= TotalRows ->
  List.map C_R cells = List.map (fun col => cellName col R) (pre ++ col0 :: post) ->
  Forall (fun col => 1 <= col <= TotalColumns) (pre ++ col0 :: post) ->
  post <> [] -> List.last post 0 = lastCol ->
  Forall (fun col => col <= lastCol) pre ->
  lastCol < col0 ->
  Z.of_nat (length cells) < lastCol ->
  sheetMap f !! trimSheetName sheet = Some name ->
  Sheet f !! name = None ->
  checked f !! name = None ->
  unmarshalWorksheet (XLSX f !! name) = mkWorksheet [mkRow 1 cells] merge ->
  checkRow (mkWorksheet [mkRow 1 cells] merge) = Panic (IndexOutOfRange (col0 - 1) lastCol)
  /\ workSheetReader trimSheetName unmarshalWorksheet f sheet
     = Panic (IndexOutOfRange (col0 - 1) lastCol).
Proof.
  intros HR Hnames Hvalid Hpost Hlast Hpre Hcol0 Hcount Hname Hnotloaded Hunchecked Hdecode.
  assert (Hcells : cells <> []).
  { intros ->. destruct pre; discriminate. }
  assert (Hlastcol : List.last (pre ++ col0 :: post) 0 = lastCol).
  { rewrite last_app_nonempty by discriminate.
    destruct post as [|p post]; [congruence|]. exact Hlast. }
  assert (Hlastvalid : 1 <= lastCol <= TotalColumns).
  { rewrite List.Forall_forall in Hvalid. apply Hvalid. rewrite <- Hlastcol.
    destruct (List.exists_last (l := pre ++ col0 :: post)) as (l' & a & Heq);
      [destruct pre; discriminate|].
    rewrite Heq, List.last_last. apply List.in_or_app. right. now left. }
  assert (Hrow : checkRowData 0 (mkRow 1 cells) = Panic (IndexOutOfRange (col0 - 1) lastCol)).
  { unfold checkRowData. cbn [Row_C Row_R].
    replace (Z.of_nat (length cells) =? 0) with false.
    2:{ symmetry. apply Z.eqb_neq. destruct cells; [congruence | cbn [length]; lia]. }
    rewrite (fillReferences_named 0 R cells _ 0 HR Hvalid Hnames).
    rewrite (last_named R cells _ (blankCell "") 0 Hcells Hnames), Hlastcol.
    rewrite (CellNameToCoordinates_cellName lastCol R Hlastvalid HR).
    replace (Z.of_nat (length cells) <? lastCol) with true by (symmetry; apply Z.ltb_lt; lia).
    rewrite blankCells_valid.
    2:{ unfold TotalRows. lia. }
    2:{ apply Forall_forall. intros i Hi%elem_of_seqZ. lia. }
    rewrite (placeCells_panic R pre cells post col0 _ HR Hnames Hvalid).
    - rewrite List.length_map, length_seqZ. cbn [go_bind]. do 2 f_equal. lia.
    - rewrite List.length_map, length_seqZ.
      eapply List.Forall_impl; [|exact Hpre]. cbn. intros col Hle. lia.
    - rewrite List.length_map, length_seqZ. lia. }
  assert (Hcheck : checkRow (mkWorksheet [mkRow 1 cells] merge)
                   = Panic (IndexOutOfRange (col0 - 1) lastCol)).
  { unfold checkRow. cbn [SheetData checkRows]. now rewrite Hrow. }
  split; [exact Hcheck|].
  unfold workSheetReader. rewrite Hname, Hnotloaded, Hunchecked, Hdecode. cbn [default negb].
  rewrite checkSheet_dense by reflexivity. now rewrite Hcheck.
Qed.

Lemma checkRow_panics_on_unordered_row_witness :
  let ws := mkWorksheet [mkRow 1 [blankCell "Z1"; blankCell "D1"]] None in
  let f := mkFile ∅ (<["Sheet1" := "xl/worksheets/sheet1.xml"]> ∅) ∅ ∅ None ∅ in
  checkRow ws = Panic (IndexOutOfRange (26 - 1) 4)
  /\ workSheetReader (fun s => s) (fun _ => ws) f "Sheet1" = Panic (IndexOutOfRange (26 - 1) 4).
Proof.
  intros ws f.
  apply (checkRow_panics_on_unordered_row (fun s => s) (fun _ => ws) f "Sheet1"
           "xl/worksheets/sheet1.xml" None 1 [blankCell "Z1"; blankCell "D1"] [] [4] 26 4).
  - unfold TotalRows. lia.
  - reflexivity.
  - repeat constructor; unfold TotalColumns; lia.
  - discriminate.
  - reflexivity.
  - constructor.
  - lia.
  - cbn. lia.
  - reflexivity.
  - reflexivity.
  - reflexivity.
  - reflexivity.
Defined.

(** *** Cells without a reference *)

Lemma fillReferences_unnamed (rowIdx : Z) (cells : list xlsxC) :
  Forall (fun c => C_R c = EmptyString) cells ->
  forall rCount,
    fillReferences rowIdx cells rCount
    = (imap (fun j c => mkC (cellName (rCount + Z.of_nat j + 1) (rowIdx + 1))
                          (C_S c) (C_T c) (C_V c) (C_F c)) cells,
       None).
Proof.
  induction 1 as [|c cells Hc Hcells IH]; intros rCount; [reflexivity|].
  cbn [fillReferences]. rewrite Hc. cbn [String.eqb negb]. rewrite (IH (rCount + 1)).
  cbn [imap]. unfold cellName. f_equal. f_equal.
  - do 3 f_equal. lia.
  - apply imap_ext. intros j c' _. cbn. do 4 f_equal. lia.
Qed.

Lemma last_imap_name (rowIdx : Z) (cells : list xlsxC) (d : xlsxC) :
  cells <> [] ->
  C_R (List.last (namedByPlace rowIdx cells) d)
  = cellName (Z.of_nat (length cells)) (rowIdx + 1).
Proof.
  intros Hne. destruct (List.exists_last Hne) as (l & c & ->).
  unfold namedByPlace. rewrite imap_app. cbn [imap]. rewrite last_app_nonempty by discriminate.
  cbn [List.last C_R]. rewrite List.length_app. cbn [length]. do 2 f_equal. lia.
Qed.

Lemma checkRowData_unnamed (rowIdx : Z) (r : xlsxRow) :
  Forall (fun c => C_R c = EmptyString) (Row_C r) ->
  Z.of_nat (length (Row_C r)) <= TotalColumns ->
  1 <= rowIdx + 1 <= TotalRows ->
  checkRowData rowIdx r = Ret (mkRow (Row_R r) (namedByPlace rowIdx (Row_C r)), None).
Proof.
  intros Hempty Hlen Hrow. unfold checkRowData. destruct r as [R cells]. cbn [Row_C Row_R] in *.
  destruct cells as [|c cells]; [reflexivity|]. set (all := c :: cells) in *.
  replace (Z.of_nat (length all) =? 0) with false
    by (symmetry; apply Z.eqb_neq; subst all; cbn [length]; lia).
  rewrite (fillReferences_unnamed rowIdx all Hempty 0).
  change (imap _ all) with (namedByPlace rowIdx all).
  rewrite last_imap_name by (subst all; discriminate).
  rewrite CellNameToCoordinates_cellName; [|subst all; cbn [length] in *; lia|exact Hrow].
  now rewrite Z.ltb_irrefl.
Qed.

(** X20: in a worksheet whose cells all come without a reference,
    [checkRow] gives every cell the reference of its place: the column is
    the place of the cell in its row and the row is the place of the row in
    the worksheet. Nothing else is changed. *)
Theorem checkRow_names_cells_by_place (ws : xlsxWorksheet) :
  Forall (fun r => Forall (fun c => C_R c = EmptyString) (Row_C r)
                   /\ Z.of_nat (length (Row_C r)) <= TotalColumns) (SheetData ws) ->
  Z.of_nat (length (SheetData ws)) <= TotalRows ->
  checkRow ws
  = Ret (mkWorksheet
           (imap (fun i r => mkRow (Row_R r) (namedByPlace (Z.of_nat i) (Row_C r)))
              (SheetData ws))
           (MergeCells ws), None).
Proof.
  intros Hrows Hcount. unfold checkRow.
  assert (Hloop : forall rows k,
            Forall (fun r => Forall (fun c => C_R c = EmptyString) (Row_C r)
                             /\ Z.of_nat (length (Row_C r)) <= TotalColumns) rows ->
            0 <= k -> k + Z.of_nat (length rows) <= TotalRows ->
            checkRows k rows
            = Ret (imap (fun i r => mkRow (Row_R r) (namedByPlace (k + Z.of_nat i) (Row_C r)))
                     rows, None)).
  { induction rows as [|r rows IH]; intros k Hall Hk Hlen; [reflexivity|].
    inversion Hall as [|? ? [Hempty Hcols] Hall']; subst.
    cbn [checkRows length] in *. rewrite checkRowData_unnamed by (assumption || lia).
    cbn [go_bind]. rewrite (IH (k + 1) Hall') by lia. cbn [go_bind imap].
    do 3 f_equal.
    - do 2 f_equal. lia.
    - apply imap_ext. intros i r' _. cbn. do 2 f_equal. lia. }
  rewrite (Hloop (SheetData ws) 0 Hrows) by lia. reflexivity.
Qed.

Lemma checkRow_names_cells_by_place_witness :
  checkRow (mkWorksheet [mkRow 1 []; mkRow 2 [mkC "" 0 "" "7" None; mkC "" 0 "" "8" None]] None)
  = Ret (mkWorksheet [mkRow 1 []; mkRow 2 [mkC "A2" 0 "" "7" None; mkC "B2" 0 "" "8" None]] None,
         None).
Proof.
  apply (checkRow_names_cells_by_place
           (mkWorksheet [mkRow 1 []; mkRow 2 [mkC "" 0 "" "7" None; mkC "" 0 "" "8" None]]
              None)).
  - repeat constructor; unfold TotalColumns; cbn; lia.
  - unfold TotalRows. cbn. lia.
Defined.

(** *** Reading a stored cell after the load *)

Lemma densify_wellFormed (ws : xlsxWorksheet) :
  wellFormedSheet ws ->
  exists ws',
    checkRow (checkSheet ws) = Ret (ws', None)
    /\ MergeCells ws' = MergeCells ws
    /\ (forall j r', SheetData ws' !! j = Some r' ->
          Row_R r' = Z.of_nat j + 1 /\ 1 <= Row_R r' <= TotalRows
          /\ denseRow r' /\ Z.of_nat (length (Row_C r')) <= TotalColumns)
    /\ keepsCells ws ws'.
Proof.
  intros [Hsorted Hrows].
  set (rows := SheetData ws) in *.
  set (n := lastRowNum ws).
  assert (Hpos : Forall (fun r => 1 <= Row_R r) rows).
  { eapply List.Forall_impl; [|exact Hrows]. cbn. intros r [H _]. lia. }
  assert (Hnd : NoDup (List.map Row_R rows)) by now apply sorted_NoDup.
  assert (Hsheet : checkSheet ws
                   = mkWorksheet (List.map (placedRow rows) (seqZ 0 n)) (MergeCells ws)).
  { apply checkSheet_rows. intros Hne. now apply sorted_rows_count. }
  assert (Hn : forall r, In r rows -> 1 <= Row_R r <= n /\ n <= TotalRows).
  { intros r Hin. subst n. unfold lastRowNum. fold rows.
    destruct rows as [|r0 rows0] eqn:Hd; [contradiction|]. rewrite <- Hd in *.
    replace (0 <? length rows)%nat with true by (rewrite Hd; reflexivity).
    assert (Hne : rows <> []) by (rewrite Hd; discriminate).
    pose proof (last_lookup_nonempty rows (blankRow 0) Hne) as Hlastin.
    rewrite List.Forall_forall in Hrows.
    destruct (Hrows r Hin) as [Hr _]. destruct (Hrows _ Hlastin) as [Hl _].
    split; [|lia]. split; [lia|].
    rewrite <- last_map_Row_R. apply sorted_le_last; [exact Hsorted|].
    now apply List.in_map. }
  set (rows1 := List.map (placedRow rows) (seqZ 0 n)).
  assert (Hrows1 : forall j r, rows1 !! j = Some r ->
            Row_R r = 0 + Z.of_nat j + 1 /\ 1 <= Row_R r <= TotalRows /\ wellFormedRow r).
  { intros j r Hj. subst rows1. rewrite map_fmap, list_lookup_fmap in Hj.
    destruct (seqZ 0 n !! j) as [i|] eqn:Hi; [|discriminate].
    cbn in Hj. injection Hj as <-. apply lookup_seqZ in Hi as [-> Hlt].
    destruct (placedRow_cases rows (0 + Z.of_nat j)) as [-> | [Hin HR]].
    - cbn [Row_R blankRow]. split; [lia|]. split; [|apply wellFormedRow_blank].
      assert (Hex : exists r, In r rows).
      { destruct rows as [|r0 ?] eqn:Hd; [|exists r0; now left].
        exfalso. subst n. unfold lastRowNum in Hlt. fold rows in Hlt.
        rewrite Hd in Hlt. cbn in Hlt. lia. }
      destruct Hex as [r Hin]. destruct (Hn r Hin). lia.
    - split; [lia|]. rewrite List.Forall_forall in Hrows. now apply Hrows. }
  destruct (checkRows_wellFormed rows1 0 Hrows1) as (rows' & Hrun & Hlen & Hall).
  exists (mkWorksheet rows' (MergeCells ws)).
  split.
  { rewrite Hsheet. unfold checkRow. cbn [SheetData MergeCells]. fold rows1.
    rewrite Hrun. reflexivity. }
  split; [reflexivity|]. split.
  { cbn [SheetData]. intros j r' Hj.
    assert (Hj1 : is_Some (rows1 !! j)).
    { apply lookup_lt_is_Some. rewrite <- Hlen. eapply lookup_lt_Some. exact Hj. }
    destruct Hj1 as [r1 Hj1].
    destruct (Hall j r1 Hj1) as (r'' & Hj' & HR & Hdense & _ & Hbound & _).
    assert (r'' = r') by congruence. subst r''.
    destruct (Hrows1 j r1 Hj1) as (HR1 & Hvalid & _).
    repeat split; try assumption; lia. }
  intros r Hin. destruct (Hn r Hin) as [HR Hnb].
  apply list_elem_of_In, list_elem_of_lookup_1 in Hin as [j0 Hj0].
  assert (Hplaced : rows1 !! Z.to_nat (Row_R r - 1) = Some r).
  { subst rows1. rewrite map_fmap, list_lookup_fmap, lookup_seqZ_lt by lia. cbn.
    replace (0 + Z.of_nat (Z.to_nat (Row_R r - 1))) with (Row_R r - 1) by lia.
    now rewrite (placedRow_stored rows j0 r Hnd Hj0). }
  destruct (Hall _ r Hplaced) as (r' & Hj' & HR' & _ & Hlast & _ & Hkeep).
  exists r'. repeat split; assumption.
Qed.

Lemma findCell_at (fn : xlsxC -> string * bool * option error) (axis : string)
    (cells : list xlsxC) :
  forall i c,
    cells !! i = Some c -> C_R c = axis ->
    (forall j c', (j < i)%nat -> cells !! j = Some c' -> C_R c' <> axis) ->
    findCell fn axis cells
    = match fn c with
      | (_, _, Some e) => Some (EmptyString, Some e)
      | (val, true, None) => Some (val, None)
      | (_, false, None) => findCell fn axis (List.skipn (S i) cells)
      end.
Proof.
  induction cells as [|c0 cells IH]; intros i c Hi Hc Hbefore; [discriminate|].
  destruct i as [|i].
  - cbn in Hi. injection Hi as ->. cbn [findCell List.skipn]. rewrite Hc, String.eqb_refl.
    reflexivity.
  - cbn in Hi. cbn [findCell].
    destruct (String.eqb_spec axis (C_R c0)) as [Heq | _].
    + exfalso. apply (Hbefore 0%nat c0); [lia | reflexivity | now symmetry].
    + cbn [negb]. rewrite (IH i c Hi Hc); [reflexivity|].
      intros j c' Hj Hc'. apply (Hbefore (S j) c'); [lia | exact Hc'].
Qed.

Lemma findRow_at (fn : xlsxC -> string * bool * option error) (axis : string) (row : Z)
    (rows : list xlsxRow) :
  forall k i r,
    (forall j r', rows !! j = Some r' -> Row_R r' = k + Z.of_nat j + 1) ->
    rows !! i = Some r -> Row_R r = row ->
    findRow fn axis row rows
    = match findCell fn axis (Row_C r) with
      | Some out => out
      | None => (EmptyString, None)
      end.
Proof.
  induction rows as [|r0 rows IH]; intros k i r Hnum Hi HR; [discriminate|].
  assert (Hrest : forall j r', rows !! j = Some r' -> Row_R r' = k + 1 + Z.of_nat j + 1).
  { intros j r' Hj. rewrite (Hnum (S j) r' Hj). lia. }
  destruct i as [|i].
  - cbn in Hi. injection Hi as ->. cbn [findRow]. rewrite HR, Z.eqb_refl. cbn [negb].
    destruct (findCell fn axis (Row_C r)); [reflexivity|].
    apply WorkbookProps.findRow_none. intros r' c Hin Hrow.
    apply list_elem_of_In, list_elem_of_lookup_1 in Hin as [j Hj].
    pose proof (Hrest j r' Hj). pose proof (Hnum 0%nat r eq_refl). lia.
  - cbn in Hi. cbn [findRow].
    destruct (Z.eqb_spec (Row_R r0) row) as [Heq | _].
    + pose proof (Hnum 0%nat r0 eq_refl). pose proof (Hrest i r Hi). lia.
    + cbn [negb]. now apply (IH (k + 1) i r Hrest Hi HR).
Qed.

Lemma lastRowNum_numbered (ws : xlsxWorksheet) :
  (forall j r, SheetData ws !! j = Some r -> Row_R r = Z.of_nat j + 1) ->
  lastRowNum ws = Z.of_nat (length (SheetData ws)).
Proof.
  intros Hnum. unfold lastRowNum. destruct (SheetData ws) as [|r0 rows] eqn:Hd; [reflexivity|].
  rewrite <- Hd in *. replace (0 <? length (SheetData ws))%nat with true by (rewrite Hd; reflexivity).
  assert (Hne : SheetData ws <> []) by (rewrite Hd; discriminate).
  destruct (List.exists_last Hne) as (l & a & Heq). rewrite Heq in *.
  rewrite List.last_last, List.length_app. cbn [length].
  rewrite (Hnum (length l) a) by (apply list_lookup_middle; reflexivity). lia.
Qed.

Lemma denseRow_lookup (r : xlsxRow) (j : nat) (c : xlsxC) :
  denseRow r -> Row_C r !! j = Some c -> C_R c = cellName (Z.of_nat j + 1) (Row_R r).
Proof.
  unfold denseRow. intros Hdense Hj.
  assert (H : List.map C_R (Row_C r) !! j = Some (C_R c))
    by (rewrite map_fmap, list_lookup_fmap, Hj; reflexivity).
  rewrite Hdense, map_fmap, list_lookup_fmap in H.
  pose proof (lookup_lt_Some _ _ _ Hj) as Hlt.
  rewrite lookup_seqZ_lt in H by lia. cbn in H. injection H as H.
  rewrite <- H. f_equal. lia.
Qed.

(** X21: after the load of a worksheet stored as section 3 has it, and
    without merged cells, reading the value of a cell that is stored in it
    returns what [getValueFrom] gives for that cell, and reading its formula
    returns the text of its formula, empty when it has none. *)
Theorem stored_cell_is_read
    (ToUpper : string -> string)
    (trimSheetName : string -> string) (unmarshalWorksheet : option string -> xlsxWorksheet)
    (getValueFrom : File -> xlsxC -> string * option error)
    (f : File) (sheet name : string) (ws : xlsxWorksheet) (r : xlsxRow) (c : xlsxC) :
  wellFormedSheet ws ->
  MergeCells ws = None ->
  sheetMap f !! trimSheetName sheet = Some name ->
  Sheet f !! name = None ->
  checked f !! name = None ->
  unmarshalWorksheet (XLSX f !! name) = ws ->
  In r (SheetData ws) -> In c (Row_C r) ->
  ToUpper (C_R c) = C_R c ->
  plainFormula c ->
  (exists f2,
     GetCellValue ToUpper trimSheetName unmarshalWorksheet getValueFrom f sheet (C_R c)
     = Ret (f2, valueRead (getValueFrom f2 c)))
  /\ (exists f2,
        GetCellFormula ToUpper trimSheetName unmarshalWorksheet f sheet (C_R c)
        = Ret (f2, (formulaText c, None))).
Proof.
  intros Hwf Hmerge Hname Hnotloaded Hunchecked Hdecode Hr Hc Hupper Hplain.
  destruct (densify_wellFormed ws Hwf) as (ws' & Hcheck & Hmerge' & Hrows' & Hkeeps).
  destruct Hwf as [_ Hrows]. rewrite List.Forall_forall in Hrows.
  destruct (Hrows r Hr) as [HR (cols & Hsorted & Hcols & Hnames)].
  apply list_elem_of_In, list_elem_of_lookup_1 in Hc as [i Hi].
  destruct (names_lookup (Row_R r) (Row_C r) cols i c Hnames Hi) as (col & Hcol & Haxis).
  assert (Hvalid : 1 <= col <= TotalColumns).
  { rewrite List.Forall_forall in Hcols. apply Hcols.
    apply list_elem_of_In, list_elem_of_lookup. now exists i. }
  assert (Hcoord : CellNameToCoordinates (C_R c) = (col, Row_R r, None))
    by (rewrite Haxis; now apply CellNameToCoordinates_cellName).
  destruct (Hkeeps r Hr) as (r' & Hr' & HR' & _ & Hkept).
  assert (Hc' : Row_C r' !! Z.to_nat (col - 1) = Some c).
  { apply (Hkept c col); [|now rewrite Hcoord].
    apply list_elem_of_In, list_elem_of_lookup. now exists i. }
  destruct (Hrows' _ _ Hr') as (_ & _ & Hdense & Hbound).
  assert (Hnum : forall j r0, SheetData ws' !! j = Some r0 -> Row_R r0 = 0 + Z.of_nat j + 1).
  { intros j r0 Hj. destruct (Hrows' j r0 Hj) as [-> _]. lia. }
  assert (Hlast : (lastRowNum ws' <? Row_R r) = false).
  { apply Z.ltb_ge. rewrite lastRowNum_numbered.
    - pose proof (lookup_lt_Some _ _ _ Hr'). lia.
    - intros j r0 Hj. now destruct (Hrows' j r0 Hj) as [-> _]. }
  assert (Hother : forall j c0, Row_C r' !! j = Some c0 -> j <> Z.to_nat (col - 1) ->
                     C_R c0 <> C_R c).
  { intros j c0 Hj Hne Heq. pose proof (lookup_lt_Some _ _ _ Hj) as Hlt.
    rewrite (denseRow_lookup r' j c0 Hdense Hj), Haxis, HR' in Heq.
    apply cellName_injective in Heq as [Heq _]; lia. }
  assert (Hload : workSheetReader trimSheetName unmarshalWorksheet f sheet
                  = Ret (mkFile (<[name := true]> (checked f)) (sheetMap f)
                           (<[name := ws']> (Sheet f)) (XLSX f) (SharedStrings f)
                           (sharedStringsMap f), Some ws', None)).
  { unfold workSheetReader. rewrite Hname, Hnotloaded, Hunchecked, Hdecode.
    cbn [default negb]. rewrite Hcheck. reflexivity. }
  assert (Hparse : mergeCellsParser ToUpper ws' (C_R c) = (ws', (C_R c, None))).
  { unfold mergeCellsParser. now rewrite Hmerge', Hmerge, Hupper. }
  assert (Hfind : forall fn,
            findRow fn (C_R c) (Row_R r) (SheetData ws')
            = match fn c with
              | (_, _, Some e) => (EmptyString, Some e)
              | (val, true, None) => (val, None)
              | (_, false, None) => (EmptyString, None)
              end).
  { intros fn. rewrite (findRow_at fn (C_R c) (Row_R r) (SheetData ws') 0 _ r' Hnum Hr' HR').
    rewrite (findCell_at fn (C_R c) (Row_C r') (Z.to_nat (col - 1)) c Hc' eq_refl).
    2:{ intros j c0 Hlt Hj. apply (Hother j c0 Hj). lia. }
    destruct (fn c) as [[val [|]] [e|]]; try reflexivity.
    rewrite WorkbookProps.findCell_none; [reflexivity|].
    intros c0 Hin. apply list_elem_of_In, list_elem_of_lookup_1 in Hin as [j Hj].
    rewrite lookup_drop in Hj. apply (Hother _ c0 Hj). lia. }
  split.
  - unfold GetCellValue, getCellStringFunc. rewrite Hload. cbn [go_bind].
    rewrite Hparse, Hcoord, Hlast, Hfind. cbn [sheetMap].
    rewrite Hname. eexists.
    f_equal. f_equal. destruct (getValueFrom _ c) as [val [e|]]; reflexivity.
  - unfold GetCellFormula, getCellStringFunc. rewrite Hload. cbn [go_bind].
    rewrite Hparse, Hcoord, Hlast, Hfind. eexists. f_equal. f_equal.
    unfold formulaText, plainFormula in *. destruct (C_F c) as [F|]; [|reflexivity].
    destruct (F_Si F) as [si|]; [|reflexivity].
    destruct Hplain as [Hsi | Hshared]; [discriminate|]. now rewrite Hshared.
Qed.

Lemma stored_cell_is_read_witness :
  let c := mkC "C15" 0 "" "7" (Some (mkF "A1+1" "" "" None)) in
  let ws := mkWorksheet [mkRow 15 [c]] None in
  let f := mkFile ∅ (<["Sheet1" := "xl/worksheets/sheet1.xml"]> ∅) ∅ ∅ None ∅ in
  (exists f2,
     GetCellValue ToUpperASCII (fun s => s) (fun _ => ws) (fun _ c => (C_V c, None)) f
       "Sheet1" "C15"
     = Ret (f2, valueRead ("7", None)))
  /\ (exists f2,
        GetCellFormula ToUpperASCII (fun s => s) (fun _ => ws) f "Sheet1" "C15"
        = Ret (f2, ("A1+1", None))).
Proof.
  intros c ws f.
  apply (stored_cell_is_read ToUpperASCII (fun s => s) (fun _ => ws)
           (fun _ c => (C_V c, None)) f "Sheet1" "xl/worksheets/sheet1.xml" ws
           (mkRow 15 [c]) c).
  - split.
    + repeat constructor.
    + constructor; [|constructor]. split; [unfold TotalRows; cbn; lia|].
      exists [3]. split; [repeat constructor|]. split; [|reflexivity].
      constructor; [unfold TotalColumns; lia | constructor].
  - reflexivity.
  - reflexivity.
  - reflexivity.
  - reflexivity.
  - reflexivity.
  - now left.
  - now left.
  - reflexivity.
  - now left.
Defined.

End GridProps.

(** ** Shared formulas and linked values *)
Module ShiftProps.
Import GoStrings Coord Workbook Merge CoordProps NameProps.

Lemma append_empty (s : string) : s +:+ EmptyString = s.
Proof. induction s as [|c s IH]; [reflexivity|]. rewrite append_cons. now rewrite IH. Qed.

Lemma append_assoc (a b c : string) : (a +:+ b) +:+ c = a +:+ (b +:+ c).
Proof. induction a as [|x a IH]; [reflexivity|]. rewrite !append_cons. now rewrite IH. Qed.

Lemma parseSharedFormulaLoop_free (dCol dRow : Z) (rounds : nat) :
  forall rest pending res lit,
    referenceFree lit rest = true ->
    parseSharedFormulaLoop rounds dCol dRow rest pending res lit = (res, pending +:+ rest).
Proof.
  induction rounds as [|rounds IH]; intros rest pending res lit Hfree; [reflexivity|].
  destruct rest as [|c rest]; [cbn [parseSharedFormulaLoop]; now rewrite append_empty|].
  cbn [parseSharedFormulaLoop referenceFree] in *.
  apply andb_prop in Hfree as [Hc Hrest].
  destruct (if Ascii.eqb c quote then negb lit else lit) eqn:Hlit.
  - rewrite (IH _ _ _ _ Hrest). now rewrite append_assoc.
  - cbn [orb] in Hc. apply negb_true_iff in Hc. rewrite Hc.
    rewrite (IH _ _ _ _ Hrest). now rewrite append_assoc.
Qed.

(** X22: a shared formula in which no upper-case letter and no dollar sign
    stands outside the string literals is given unchanged to every cell of
    its group, whatever the distance of the cell from the master. *)
Theorem shared_formula_without_references
    (ws : xlsxWorksheet) (si : Z) (axis : string) (c : xlsxC) (F : xlsxF) :
  List.find (isSharedMaster si) (List.concat (List.map Row_C (SheetData ws))) = Some c ->
  C_F c = Some F ->
  referenceFree false (F_Content F) = true ->
  getSharedFormula ws si axis = F_Content F.
Proof.
  intros Hfind HF Hfree. unfold getSharedFormula. rewrite Hfind, HF.
  destruct (CellNameToCoordinates axis) as [[col row] e].
  destruct (CellNameToCoordinates (C_R c)) as [[sharedCol sharedRow] e'].
  unfold parseSharedFormula. now rewrite (parseSharedFormulaLoop_free _ _ _ _ _ _ _ Hfree).
Qed.

Lemma shared_formula_without_references_witness :
  let text := "2*3&" +:+ String quote ("A1" +:+ String quote "") in
  getSharedFormula (sharedSheet text) 0 "C4" = text.
Proof.
  intros text.
  apply (shared_formula_without_references (sharedSheet text) 0 "C4"
           (sharedCell 1 text "C1:C5") (mkF text STCellFormulaTypeShared "C1:C5" (Some 0)));
    reflexivity.
Defined.

(** A reference without a dollar sign. *)
Lemma Index_plain (s : string) : plainName s = true -> Index s "$" = -1.
Proof.
  induction s as [|c s IH]; [reflexivity|]. cbn [plainName Index]. intros H.
  apply andb_prop in H as [Hc Hs]. rewrite (IH Hs).
  destruct (Ascii.eqb_spec c "$") as [-> | _]; [discriminate | reflexivity].
Qed.

Lemma LastIndex_plain (s : string) : plainName s = true -> LastIndex s "$" = -1.
Proof.
  induction s as [|c s IH]; [reflexivity|]. cbn [plainName LastIndex]. intros H.
  apply andb_prop in H as [Hc Hs]. rewrite (IH Hs). cbn.
  destruct (Ascii.eqb_spec c "$") as [-> | _]; [discriminate | reflexivity].
Qed.

(** X23: for a reference without dollar signs to a cell of the sheet, and a
    distance that leaves the cell in the sheet, [shiftCell] returns the
    reference of the cell that many columns and rows further. *)
Theorem shiftCell_relative (col row dCol dRow : Z) :
  1 <= col <= TotalColumns -> 1 <= row <= TotalRows ->
  1 <= col + dCol <= TotalColumns -> 1 <= row + dRow <= TotalRows ->
  shiftCell (cellName col row) dCol dRow = cellName (col + dCol) (row + dRow).
Proof.
  intros Hcol Hrow Hcol' Hrow'. unfold shiftCell.
  rewrite (CellNameToCoordinates_cellName col row Hcol Hrow).
  rewrite (Index_plain _ (cellName_plain col row Hcol Hrow)).
  rewrite (LastIndex_plain _ (cellName_plain col row Hcol Hrow)).
  cbn [Z.eqb Z.ltb Z.compare].
  destruct (cellName_parts (col + dCol) (row + dRow) Hcol' Hrow') as (-> & _).
  destruct (ColumnNumberToName (col + dCol)) as [colName e]. reflexivity.
Qed.

Lemma shiftCell_relative_witness : shiftCell "B7" 3 (-2) = "E5".
Proof.
  apply (shiftCell_relative 2 7 3 (-2)); unfold TotalColumns, TotalRows; lia.
Defined.

End ShiftProps.

Module LinkProps.
Import GoStrings Coord Workbook Merge.

Lemma clearLinkedValue_cleared (c : xlsxC) : clearedCell c (clearLinkedValue c).
Proof.
  unfold clearedCell, clearLinkedValue. destruct c as [r s t v [F|]]; cbn.
  - destruct (String.eqb_spec v "") as [-> | Hv]; cbn; repeat split; try congruence.
    intros [H | H]; congruence.
  - repeat split; congruence.
Qed.

Lemma clearLinkedValues_cleared (ws : xlsxWorksheet) : clearedSheet ws (clearLinkedValues ws).
Proof.
  unfold clearedSheet, clearLinkedValues. cbn. split; [reflexivity|].
  induction (SheetData ws) as [|r rows IH]; constructor; [|exact IH].
  cbn. split; [reflexivity|].
  induction (Row_C r) as [|c cells IHc]; constructor; [apply clearLinkedValue_cleared | exact IHc].
Qed.

Lemma clearLinkedValue_twice (c : xlsxC) :
  clearLinkedValue (clearLinkedValue c) = clearLinkedValue c.
Proof.
  unfold clearLinkedValue. destruct c as [r s t v [F|]]; cbn; [|reflexivity].
  destruct (String.eqb_spec v "") as [-> | Hv]; cbn; [|reflexivity].
  reflexivity.
Qed.

Lemma clearLinkedValues_twice (ws : xlsxWorksheet) :
  clearLinkedValues (clearLinkedValues ws) = clearLinkedValues ws.
Proof.
  unfold clearLinkedValues. cbn. f_equal. rewrite List.map_map. apply List.map_ext.
  intros r. cbn. f_equal. rewrite List.map_map. apply List.map_ext. apply clearLinkedValue_twice.
Qed.

Section Linked.
Variable trimSheetName : string -> string.
Variable unmarshalWorksheet : option string -> xlsxWorksheet.

Lemma UpdateLinkedValue_loaded (names : list string) :
  forall f,
    (forall name, In name names ->
       exists path, sheetMap f !! trimSheetName name = Some path /\ is_Some (Sheet f !! path)) ->
    exists f',
      UpdateLinkedValue trimSheetName unmarshalWorksheet names f = Ret (f', None)
      /\ sheetMap f' = sheetMap f
      /\ forall path,
           Sheet f' !! path
           = if decide (Exists (fun name => sheetMap f !! trimSheetName name = Some path) names)
             then clearLinkedValues <$> Sheet f !! path
             else Sheet f !! path.
Proof.
  induction names as [|name names IH]; intros f Hall.
  - exists f. split; [reflexivity|]. split; [reflexivity|]. intros path.
    destruct (decide _) as [H|_]; [inversion H | reflexivity].
  - destruct (Hall name (or_introl eq_refl)) as (p & Hp & [ws Hws]).
    cbn [UpdateLinkedValue]. unfold workSheetReader. rewrite Hp, Hws. cbn [go_bind]. rewrite Hp.
    set (f1 := mkFile (checked f) (sheetMap f) (<[p := clearLinkedValues ws]> (Sheet f))
                 (XLSX f) (SharedStrings f) (sharedStringsMap f)).
    destruct (IH f1) as (f' & Hrun & Hmap & Hsheets).
    { intros n Hn. destruct (Hall n (or_intror Hn)) as (q & Hq & Hsome).
      exists q. split; [exact Hq|]. cbn.
      destruct (decide (p = q)) as [-> | Hne];
        [rewrite lookup_insert_eq; eauto | now rewrite lookup_insert_ne]. }
    exists f'. split; [exact Hrun|]. split; [exact Hmap|]. intros path.
    rewrite Hsheets. cbn [sheetMap Sheet f1].
    destruct (decide (p = path)) as [<- | Hne].
    + rewrite lookup_insert_eq, Hws. cbn. rewrite clearLinkedValues_twice.
      destruct (decide _); destruct (decide _) as [|Hno]; try reflexivity.
      all: exfalso; apply Hno; now constructor.
    + rewrite lookup_insert_ne by exact Hne.
      destruct (decide _) as [Hex|Hno]; destruct (decide _) as [Hex'|Hno']; try reflexivity.
      * exfalso. apply Hno'. now apply List.Exists_cons_tl.
      * exfalso. inversion Hex' as [? ? Hhead | ? ? Htail]; subst; [congruence | contradiction].
Qed.

End Linked.

(** X24: when every sheet of the workbook is loaded, [UpdateLinkedValue]
    returns without error; every cell of every sheet it visits keeps its
    reference, style and formula, a cell with a formula is left without a
    cached value, a cell without a formula or without a value is left as
    it was, and the sheets it does not visit are left as they were. *)
Theorem UpdateLinkedValue_clears
    (trimSheetName : string -> string) (unmarshalWorksheet : option string -> xlsxWorksheet)
    (names : list string) (f : File) :
  (forall name, In name names ->
     exists path, sheetMap f !! trimSheetName name = Some path /\ is_Some (Sheet f !! path)) ->
  exists f',
    UpdateLinkedValue trimSheetName unmarshalWorksheet names f = Ret (f', None)
    /\ (forall name path ws,
          In name names -> sheetMap f !! trimSheetName name = Some path ->
          Sheet f !! path = Some ws ->
          exists ws', Sheet f' !! path = Some ws' /\ clearedSheet ws ws')
    /\ (forall path,
          (forall name, In name names -> sheetMap f !! trimSheetName name <> Some path) ->
          Sheet f' !! path = Sheet f !! path).
Proof.
  intros Hall.
  destruct (UpdateLinkedValue_loaded trimSheetName unmarshalWorksheet names f Hall)
    as (f' & Hrun & _ & Hsheets).
  exists f'. split; [exact Hrun|]. split.
  - intros name path ws Hin Hpath Hws. exists (clearLinkedValues ws).
    split; [|apply clearLinkedValues_cleared].
    rewrite Hsheets, Hws. destruct (decide _) as [_|Hno]; [reflexivity|].
    exfalso. apply Hno. apply List.Exists_exists. now exists name.
  - intros path Hnone. rewrite Hsheets. destruct (decide _) as [Hex|_]; [|reflexivity].
    exfalso. apply List.Exists_exists in Hex as (name & Hin & Hpath). exact (Hnone name Hin Hpath).
Qed.

Lemma UpdateLinkedValue_clears_witness :
  exists f',
    UpdateLinkedValue (fun s => s) (fun _ => mkWorksheet [] None) ["Sheet1"] mergedFile
    = Ret (f', None)
    /\ (forall name path ws,
          In name ["Sheet1"] -> sheetMap mergedFile !! name = Some path ->
          Sheet mergedFile !! path = Some ws ->
          exists ws', Sheet f' !! path = Some ws' /\ clearedSheet ws ws')
    /\ (forall path,
          (forall name, In name ["Sheet1"] -> sheetMap mergedFile !! name <> Some path) ->
          Sheet f' !! path = Sheet mergedFile !! path).
Proof.
  apply (UpdateLinkedValue_clears (fun s => s) (fun _ => mkWorksheet [] None) ["Sheet1"]
           mergedFile).
  intros name [<- | []]. exists "xl/worksheets/sheet1.xml". split; [reflexivity|].
  exists mergedSheet. reflexivity.
Defined.

End LinkProps.
